(** * noise-stream: process supervision

    A shallow embedding of [src/noise_runner.py], [src/noise_manager.py],
    [src/config.py] and, of [src/app.py], the health monitor and the
    endpoints of single streams, and the properties of the supervision
    subsystem proved on it.

    Modelling conventions.
    - Every [StreamInfo] is a Python object that callers may keep a reference
      to, so records live in a store ([heap]) and the registry's dict maps a
      stream identifier to an address.  A runner is owned by exactly one
      record and is embedded in it.
    - The operating system is a [World]: the clock, the process table, the
      file system answers and the outcomes of the next spawns.  A
      registry operation runs under the manager's lock and is one function on
      the whole system; what the environment does between two operations
      (processes exit, files change, time passes) is the relation [env_step].
    - An operation returns [Ok v] or [Raise e] together with the system it
      leaves behind: side effects made before an exception are kept.
    - Time stamps ([time.time()], [st_mtime], [datetime.now()]) are rationals.
    - Parameters are ASCII: [lower] folds the letters A-Z only and [strip]
      removes ASCII white space only.
    - The environment variables and the builtins [int] and [str] are
      variables of the sections that use them.
    - Paths are the strings that pathlib prints, and [p / name] is [p], a
      slash and [name]: what pathlib gives for a directory such as /app/hls
      and a name without slashes.
    - The probes of the file system answer: a path on which [exists()]
      raises is not in the model, so what is proved of health reports is
      proved of the reports that [health_check] returns.
    - Not modelled, because no operation below reads them: logging, what
      the stderr reader thread does once it is started, and [_last_error]. *)

From Stdlib Require Import QArith Ascii String.
From stdpp Require Import base tactics option list strings.

Local Open Scope string_scope.
Local Open Scope list_scope.

(** ** Strings *)

Module Py.

Definition lower_ascii (c : ascii) : ascii :=
  let n := nat_of_ascii c in
  if (65 <=? n)%nat && (n <=? 90)%nat then ascii_of_nat (n + 32) else c.

(** [str.lower()] *)
Fixpoint lower (s : string) : string :=
  match s with
  | EmptyString => EmptyString
  | String c s' => String (lower_ascii c) (lower s')
  end.

(** [s.startswith(p)] *)
Fixpoint startswith (p s : string) : bool :=
  match p, s with
  | EmptyString, _ => true
  | String a p', String b s' => if Ascii.eqb a b then startswith p' s' else false
  | String _ _, EmptyString => false
  end.

Fixpoint drop_chars (n : nat) (s : string) : string :=
  match n, s with
  | O, _ => s
  | S n', String _ s' => drop_chars n' s'
  | S _, EmptyString => EmptyString
  end.

(** [s.removeprefix(p)] *)
Definition removeprefix (p s : string) : string :=
  if startswith p s then drop_chars (String.length p) s else s.

(** [x in xs] for a list of strings *)
Definition contains (x : string) (xs : list string) : bool :=
  existsb (String.eqb x) xs.

(** Truthiness of an [Optional[str]]: [None] and the empty string are false. *)
Definition truthy (o : option string) : bool :=
  match o with
  | Some s => negb (String.eqb s "")
  | None => false
  end.

(** The exceptions that can reach the supervision code.  [OSError] stands for
    [OSError] itself and for those of its subclasses that are not listed;
    [RuntimeError] is what [Thread.start()] raises when no thread can be
    started. *)
Inductive exn :=
  | FileNotFoundError
  | PermissionError
  | BlockingIOError
  | OSError
  | SubprocessError
  | RuntimeError.

(** [isinstance(e, cls)]: the first three classes derive from [OSError],
    [SubprocessError] and [RuntimeError] derive from [Exception] only. *)
Definition isinstance (e cls : exn) : bool :=
  match cls, e with
  | FileNotFoundError, FileNotFoundError => true
  | PermissionError, PermissionError => true
  | BlockingIOError, BlockingIOError => true
  | OSError, (FileNotFoundError | PermissionError | BlockingIOError | OSError) => true
  | SubprocessError, SubprocessError => true
  | RuntimeError, RuntimeError => true
  | _, _ => false
  end.

End Py.

(** ** Results of operations *)

Inductive Result (A : Type) :=
  | Ok (a : A)
  | Raise (e : Py.exn).
Arguments Ok {A} a.
Arguments Raise {A} e.

(** ** The operating system *)

Abbreviation pid := nat (only parsing).
Abbreviation time := Q (only parsing).

(** A spawned worker: the output directory on its command line and whether it
    is still running.  Its pid is its index in the process table. *)
Record Proc := { p_dir : string; p_alive : bool }.

(** What happens at a spawn, that is at [subprocess.Popen(...)] and at the
    [Thread.start()] that follows it in [NoiseFFmpegRunner.start]: both
    succeed; [Popen] raises; or [Popen] succeeds and the reader thread cannot
    be started. *)
Inductive PopenOutcome :=
  | Spawned
  | PopenRaises (e : Py.exn)
  | ThreadRaises.

(** What [exists()] and [stat()] answer for a path. [Present None] is a file
    that [exists()] sees and [stat()] then fails on with [OSError]. *)
Inductive FileObs :=
  | Absent
  | Present (mtime : option time).

Record World := {
  w_now : time;                       (* time.time(), datetime.now() *)
  w_procs : list Proc;
  w_which : bool;                     (* shutil.which("ffmpeg") is not None *)
  w_mkdir : string -> option Py.exn;  (* Path.mkdir(parents=True, exist_ok=True) *)
  w_popen : nat -> PopenOutcome;      (* outcome of the n-th spawn *)
  w_popen_calls : nat;
  w_file : string -> FileObs
}.

(** [Popen.poll() is None] *)
Definition alive (w : World) (p : pid) : bool :=
  match w_procs w !! p with
  | Some pr => p_alive pr
  | None => false
  end.

Definition set_alive (b : bool) (pr : Proc) : Proc :=
  {| p_dir := p_dir pr; p_alive := b |}.

(** [terminate()], [wait(timeout=5)] and, if that times out, [kill()] and
    [wait()]: when they return the process has exited. *)
Definition reap (w : World) (p : pid) : World :=
  {| w_now := w_now w;
     w_procs := alter (set_alive false) p (w_procs w);
     w_which := w_which w;
     w_mkdir := w_mkdir w;
     w_popen := w_popen w;
     w_popen_calls := w_popen_calls w;
     w_file := w_file w |}.

(** [subprocess.Popen(cmd, ...)]: one more call is counted and, when the
    spawn succeeds, the table gets a new running process. *)
Definition popen (w : World) (dir : string) : Result pid * World :=
  let count (procs : list Proc) :=
    {| w_now := w_now w;
       w_procs := procs;
       w_which := w_which w;
       w_mkdir := w_mkdir w;
       w_popen := w_popen w;
       w_popen_calls := S (w_popen_calls w);
       w_file := w_file w |} in
  match w_popen w (w_popen_calls w) with
  | Spawned | ThreadRaises =>
      (Ok (length (w_procs w)),
       count (w_procs w ++ [{| p_dir := dir; p_alive := true |}]))
  | PopenRaises e => (Raise e, count (w_procs w))
  end.

(** [threading.Thread(target=..., daemon=True).start()] right after the
    [Popen] call of [w]: [None] when the thread starts. *)
Definition thread_start (w : World) : option Py.exn :=
  match w_popen w (w_popen_calls w) with
  | ThreadRaises => Some Py.RuntimeError
  | _ => None
  end.

(** ** noise_runner.py *)

Module NoiseFFmpegRunner.

Record t := {
  noise_type : string;
  hls_dir : string;
  _process : option pid
}.

Definition __init__ (noise : string) (dir : string) : t :=
  {| noise_type := Py.lower noise; hls_dir := dir; _process := None |}.

Definition set_process (o : option pid) (self : t) : t :=
  {| noise_type := noise_type self; hls_dir := hls_dir self; _process := o |}.

Definition is_running (w : World) (self : t) : bool :=
  match _process self with
  | Some p => alive w p
  | None => false
  end.

Definition start (w : World) (self : t) : Result bool * World * t :=
  if is_running w self then (Ok false, w, self)
  else
    match w_mkdir w (hls_dir self) with
    | Some e => (Raise e, w, self)
    | None =>
        if negb (w_which w) then (Ok false, w, self)
        else
          match popen w (hls_dir self) with
          | (Ok p, w') =>
              (* [self._process] is assigned before the thread is started *)
              let self' := set_process (Some p) self in
              match thread_start w with
              | None => (Ok true, w', self')
              | Some e =>
                  if Py.isinstance e Py.FileNotFoundError then (Ok false, w', self')
                  else if Py.isinstance e Py.SubprocessError then (Ok false, w', self')
                  else (Raise e, w', self')
              end
          | (Raise e, w') =>
              if Py.isinstance e Py.FileNotFoundError then (Ok false, w', self)
              else if Py.isinstance e Py.SubprocessError then (Ok false, w', self)
              else (Raise e, w', self)
          end
    end.

Definition stop (w : World) (self : t) : bool * World * t :=
  match _process self with
  | None => (false, w, self)
  | Some p =>
      if negb (alive w p) then (true, w, set_process None self)
      else (true, reap w p, set_process None self)
  end.

(** The keys of [get_status()] that the manager reads. *)
Record status := { running : bool; pid_of : option pid }.

Definition get_status (w : World) (self : t) : status :=
  match _process self with
  | None => {| running := false; pid_of := None |}
  | Some p =>
      if negb (alive w p) then {| running := false; pid_of := None |}
      else {| running := true; pid_of := Some p |}
  end.

End NoiseFFmpegRunner.

(** ** noise_manager.py: stream records *)

Inductive StreamState := STOPPED | STARTING | RUNNING | ERROR.

Definition StreamState_eqb (a b : StreamState) : bool :=
  match a, b with
  | STOPPED, STOPPED | STARTING, STARTING | RUNNING, RUNNING | ERROR, ERROR => true
  | _, _ => false
  end.

(** [StreamState.value] *)
Definition StreamState_value (s : StreamState) : string :=
  match s with
  | STOPPED => "stopped"
  | STARTING => "starting"
  | RUNNING => "running"
  | ERROR => "error"
  end.

Definition Qlt_bool (x y : Q) : bool := negb (Qle_bool y x).

Module StreamInfo.

Record t := {
  stream_id : string;
  noise_type : string;
  runner : NoiseFFmpegRunner.t;
  state : StreamState;
  started_at : option time;
  error_message : option string;
  hls_path : option string
}.

Definition set_runner (r : NoiseFFmpegRunner.t) (self : t) : t :=
  {| stream_id := stream_id self; noise_type := noise_type self; runner := r;
     state := state self; started_at := started_at self;
     error_message := error_message self; hls_path := hls_path self |}.

Definition set_state (s : StreamState) (self : t) : t :=
  {| stream_id := stream_id self; noise_type := noise_type self;
     runner := runner self; state := s; started_at := started_at self;
     error_message := error_message self; hls_path := hls_path self |}.

Definition set_started_at (o : option time) (self : t) : t :=
  {| stream_id := stream_id self; noise_type := noise_type self;
     runner := runner self; state := state self; started_at := o;
     error_message := error_message self; hls_path := hls_path self |}.

Definition set_error_message (o : option string) (self : t) : t :=
  {| stream_id := stream_id self; noise_type := noise_type self;
     runner := runner self; state := state self; started_at := started_at self;
     error_message := o; hls_path := hls_path self |}.

Record dict := {
  d_stream_id : string;
  d_noise_type : string;
  d_state : string;
  d_running : bool;
  d_pid : option pid;
  d_started_at : option time;
  d_error_message : option string;
  d_hls_path : option string;
  d_stream_url : option string
}.

Definition to_dict (w : World) (self : t) : dict :=
  let runner_status := NoiseFFmpegRunner.get_status w (runner self) in
  {| d_stream_id := stream_id self;
     d_noise_type := noise_type self;
     d_state := StreamState_value (state self);
     d_running := NoiseFFmpegRunner.running runner_status;
     d_pid := NoiseFFmpegRunner.pid_of runner_status;
     d_started_at := started_at self;
     d_error_message := error_message self;
     d_hls_path := hls_path self;
     d_stream_url :=
       if Py.truthy (hls_path self)
       then Some ("/hls/" +:+ stream_id self +:+ "/stream.m3u8") else None |}.

Record health := {
  h_stream_id : string;
  h_noise_type : string;
  h_status : string;
  h_process_running : bool;
  h_hls_available : bool;
  h_manifest_fresh : bool;
  h_error : option string
}.

(** The manifest probe of [health_check]: [(hls_available, manifest_fresh)]. *)
Definition probe_manifest (w : World) (self : t) : bool * bool :=
  match hls_path self with
  | Some p =>
      if Py.truthy (Some p) then
        match w_file w (p +:+ "/stream.m3u8") with
        | Absent => (false, false)
        | Present None => (true, false)
        | Present (Some mtime) => (true, Qlt_bool (w_now w - mtime) 10)
        end
      else (false, false)
  | None => (false, false)
  end.

(** The [if]/[elif] chain of [health_check]. *)
Definition classify (st : StreamState) (is_running hls_available manifest_fresh : bool)
  : string :=
  if StreamState_eqb st RUNNING && is_running && hls_available && manifest_fresh
  then "healthy"
  else if StreamState_eqb st RUNNING && is_running && hls_available
          && negb manifest_fresh
  then "unhealthy"
  else if StreamState_eqb st STOPPED then "stopped"
  else if StreamState_eqb st STARTING then "starting"
  else "unhealthy".

Definition health_check (w : World) (self : t) : health :=
  let runner_status := NoiseFFmpegRunner.get_status w (runner self) in
  let is_running := NoiseFFmpegRunner.running runner_status in
  let '(hls_available, manifest_fresh) := probe_manifest w self in
  {| h_stream_id := stream_id self;
     h_noise_type := noise_type self;
     h_status := classify (state self) is_running hls_available manifest_fresh;
     h_process_running := is_running;
     h_hls_available := hls_available;
     h_manifest_fresh := manifest_fresh;
     h_error := error_message self |}.

End StreamInfo.

(** ** noise_manager.py: the registry *)

Abbreviation addr := nat (only parsing).

#[global] Instance StreamInfo_inhabited : Inhabited StreamInfo.t :=
  populate {| StreamInfo.stream_id := ""; StreamInfo.noise_type := "";
              StreamInfo.runner := NoiseFFmpegRunner.__init__ "" "";
              StreamInfo.state := STOPPED; StreamInfo.started_at := None;
              StreamInfo.error_message := None; StreamInfo.hls_path := None |}.

(** A Python [dict] with string keys: insertion-ordered, keys unique. *)
Module Dict.

Fixpoint get {V} (k : string) (d : list (string * V)) : option V :=
  match d with
  | [] => None
  | (k', v) :: d' => if String.eqb k' k then Some v else get k d'
  end.

(** [d[k] = v]: an existing key keeps its position, a new one goes last. *)
Fixpoint set {V} (k : string) (v : V) (d : list (string * V)) : list (string * V) :=
  match d with
  | [] => [(k, v)]
  | (k', v') :: d' => if String.eqb k' k then (k, v) :: d' else (k', v') :: set k v d'
  end.

Definition keys {V} (d : list (string * V)) : list string := map fst d.
Definition values {V} (d : list (string * V)) : list V := map snd d.

End Dict.

Module NoiseStreamManager.

Record t := {
  base_hls_dir : string;
  noise_types : list string;
  _streams : list (string * addr)
}.

Definition __init__ (base : string) (noises : list string) : t :=
  {| base_hls_dir := base; noise_types := map Py.lower noises; _streams := [] |}.

(** The whole system: the operating system, the store of [StreamInfo]
    objects and the manager object. *)
Record Sys := {
  world : World;
  heap : list StreamInfo.t;
  self : t
}.

Definition init (w : World) (base : string) (noises : list string) : Sys :=
  {| world := w; heap := []; self := __init__ base noises |}.

(** *** State and exceptions *)

Definition M (A : Type) : Type := Sys -> Result A * Sys.

Definition ret {A} (a : A) : M A := fun s => (Ok a, s).

Definition bind {A B} (m : M A) (k : A -> M B) : M B := fun s =>
  match m s with
  | (Ok a, s') => k a s'
  | (Raise e, s') => (Raise e, s')
  end.

Notation "'do' x <- m ; k" := (bind m (fun x => k))
  (at level 10, x name, m at level 100, k at level 200).
Notation "'run' m ; k" := (bind m (fun _ => k))
  (at level 10, m at level 100, k at level 200).

Definition the_manager : M t := fun s => (Ok (self s), s).

Definition the_world : M World := fun s => (Ok (world s), s).

Definition streams_get (stream_id : string) : M (option addr) :=
  fun s => (Ok (Dict.get stream_id (_streams (self s))), s).

Definition streams_set (stream_id : string) (a : addr) : M unit :=
  fun s =>
    (Ok tt,
     {| world := world s; heap := heap s;
        self := {| base_hls_dir := base_hls_dir (self s);
                   noise_types := noise_types (self s);
                   _streams := Dict.set stream_id a (_streams (self s)) |} |}).

(** Construction of a [StreamInfo] object. *)
Definition new (r : StreamInfo.t) : M addr :=
  fun s =>
    (Ok (length (heap s)),
     {| world := world s; heap := heap s ++ [r]; self := self s |}).

Definition deref (a : addr) : M StreamInfo.t :=
  fun s => (Ok (heap s !!! a), s).

(** An attribute assignment on the object at [a]. *)
Definition assign (a : addr) (f : StreamInfo.t -> StreamInfo.t) : M unit :=
  fun s =>
    (Ok tt,
     {| world := world s; heap := <[a := f (heap s !!! a)]> (heap s);
        self := self s |}).

Definition mkdir (path : string) : M unit :=
  fun s =>
    match w_mkdir (world s) path with
    | Some e => (Raise e, s)
    | None => (Ok tt, s)
    end.

Definition runner_is_running (a : addr) : M bool :=
  fun s =>
    (Ok (NoiseFFmpegRunner.is_running (world s) (StreamInfo.runner (heap s !!! a))), s).

Definition runner_start (a : addr) : M bool :=
  fun s =>
    let '(res, w', r') :=
      NoiseFFmpegRunner.start (world s) (StreamInfo.runner (heap s !!! a)) in
    (res,
     {| world := w'; heap := <[a := StreamInfo.set_runner r' (heap s !!! a)]> (heap s);
        self := self s |}).

Definition runner_stop (a : addr) : M bool :=
  fun s =>
    let '(res, w', r') :=
      NoiseFFmpegRunner.stop (world s) (StreamInfo.runner (heap s !!! a)) in
    (Ok res,
     {| world := w'; heap := <[a := StreamInfo.set_runner r' (heap s !!! a)]> (heap s);
        self := self s |}).

(** *** Read-only operations *)

(** [get_streams]: a new dict with the same bindings; the values are the
    registry's own [StreamInfo] objects. *)
Definition get_streams : M (list (string * addr)) :=
  fun s => (Ok (_streams (self s)), s).

(** [get_stream]: the registry's own object, or [None]. *)
Definition get_stream (stream_id : string) : M (option addr) :=
  streams_get stream_id.

(** *** Creation *)

Definition _create_stream_for_noise (noise_type : string) : M addr :=
  do mgr <- the_manager;
  let stream_id := "noise_" +:+ noise_type in
  let hls_dir := base_hls_dir mgr +:+ "/" +:+ stream_id in
  run mkdir hls_dir;
  let runner := NoiseFFmpegRunner.__init__ noise_type hls_dir in
  new {| StreamInfo.stream_id := stream_id;
         StreamInfo.noise_type := noise_type;
         StreamInfo.runner := runner;
         StreamInfo.state := STOPPED;
         StreamInfo.started_at := None;
         StreamInfo.error_message := None;
         StreamInfo.hls_path := Some hls_dir |}.

(** The transition shared by [start_all_streams] and [start_stream]:
    STARTING, then RUNNING or ERROR by the runner's answer.  Returns
    [success]. *)
Definition spawn (a : addr) : M bool :=
  run assign a (StreamInfo.set_state STARTING);
  do success <- runner_start a;
  if success then
    run assign a (StreamInfo.set_state RUNNING);
    do w <- the_world;
    run assign a (StreamInfo.set_started_at (Some (w_now w)));
    run assign a (StreamInfo.set_error_message None);
    ret true
  else
    run assign a (StreamInfo.set_state ERROR);
    run assign a (StreamInfo.set_error_message (Some "Failed to start FFmpeg process"));
    ret false.

(** *** Results *)

(** The dict returned by [start_stream] and [stop_stream]. *)
Record result := {
  success : bool;
  message : option string;
  error : option string;
  stream_url : option string
}.

(** One element of the [streams] list of a bulk operation. *)
Record entry := {
  e_stream_id : string;
  e_status : string;
  e_noise : option string;
  e_stream_url : option string;
  e_error : option string
}.

(** The dict returned by [start_all_streams], without its [message]. *)
Record start_summary := {
  sa_success : bool;
  sa_total_streams : nat;
  sa_started : nat;
  sa_failed : nat;
  sa_streams : list entry
}.

(** The dict returned by [stop_all_streams], without its [message]. *)
Record stop_summary := {
  so_success : bool;
  so_stopped : nat;
  so_streams : list entry
}.

(** *** start_all_streams *)

(** The loop variables [results], [started_count], [failed_count]. *)
Definition counters : Type := list entry * nat * nat.

(** One iteration of the [for noise in self.noise_types] loop. *)
Definition start_all_body (noise : string) (acc : counters) : M counters :=
  let '(results, started_count, failed_count) := acc in
  let stream_id := "noise_" +:+ noise in
  do existing <- streams_get stream_id;
  do live <- match existing with
             | Some a => runner_is_running a
             | None => ret false
             end;
  if live then
    ret (results ++ [ {| e_stream_id := stream_id; e_status := "already_running";
                         e_noise := Some noise; e_stream_url := None;
                         e_error := None |} ],
         S started_count, failed_count)
  else
    do stream_info <- _create_stream_for_noise noise;
    do ok <- spawn stream_info;
    do acc' <-
      (if ok then
         ret (results ++ [ {| e_stream_id := stream_id; e_status := "started";
                              e_noise := Some noise;
                              e_stream_url :=
                                Some ("/hls/" +:+ stream_id +:+ "/stream.m3u8");
                              e_error := None |} ],
              S started_count, failed_count)
       else
         do r <- deref stream_info;
         ret (results ++ [ {| e_stream_id := stream_id; e_status := "failed";
                              e_noise := Some noise; e_stream_url := None;
                              e_error := StreamInfo.error_message r |} ],
              started_count, S failed_count));
    run streams_set stream_id stream_info;
    ret acc'.

Fixpoint start_all_loop (noises : list string) (acc : counters) : M counters :=
  match noises with
  | [] => ret acc
  | noise :: rest =>
      do acc' <- start_all_body noise acc;
      start_all_loop rest acc'
  end.

Definition start_all_streams : M start_summary :=
  do mgr <- the_manager;
  do acc <- start_all_loop (noise_types mgr) ([], 0, 0);
  let '(results, started_count, failed_count) := acc in
  ret {| sa_success := (0 <? started_count)%nat;
         sa_total_streams := length (noise_types mgr);
         sa_started := started_count;
         sa_failed := failed_count;
         sa_streams := results |}.

(** *** stop_all_streams *)

Definition status_only (stream_id status : string) : entry :=
  {| e_stream_id := stream_id; e_status := status; e_noise := None;
     e_stream_url := None; e_error := None |}.

Definition stop_all_body (item : string * addr) (acc : list entry * nat)
  : M (list entry * nat) :=
  let '(stream_id, stream_info) := item in
  let '(results, stopped_count) := acc in
  do live <- runner_is_running stream_info;
  if live then
    do ok <- runner_stop stream_info;
    if ok then
      run assign stream_info (StreamInfo.set_state STOPPED);
      run assign stream_info (StreamInfo.set_started_at None);
      ret (results ++ [status_only stream_id "stopped"], S stopped_count)
    else
      ret (results ++ [status_only stream_id "failed_to_stop"], stopped_count)
  else
    ret (results ++ [status_only stream_id "was_not_running"], stopped_count).

Fixpoint stop_all_loop (items : list (string * addr)) (acc : list entry * nat)
  : M (list entry * nat) :=
  match items with
  | [] => ret acc
  | item :: rest =>
      do acc' <- stop_all_body item acc;
      stop_all_loop rest acc'
  end.

Definition stop_all_streams : M stop_summary :=
  do mgr <- the_manager;
  do acc <- stop_all_loop (_streams mgr) ([], 0);
  let '(results, stopped_count) := acc in
  ret {| so_success := true; so_stopped := stopped_count; so_streams := results |}.

(** *** stop_stream and start_stream *)

Definition failure (err : string) : result :=
  {| success := false; message := None; error := Some err; stream_url := None |}.

Definition done_with (msg : string) (url : option string) : result :=
  {| success := true; message := Some msg; error := None; stream_url := url |}.

Definition stop_stream (stream_id : string) : M result :=
  do found <- streams_get stream_id;
  match found with
  | None => ret (failure "Stream not found")
  | Some stream_info =>
      do live <- runner_is_running stream_info;
      if negb live then ret (done_with "Stream was not running" None)
      else
        do ok <- runner_stop stream_info;
        if ok then
          run assign stream_info (StreamInfo.set_state STOPPED);
          run assign stream_info (StreamInfo.set_started_at None);
          ret (done_with "Stream stopped" None)
        else ret (failure "Failed to stop stream")
  end.

(** Lines 217-233 of [start_stream], once [stream_info] is bound. *)
Definition start_record (stream_id : string) (stream_info : addr) : M result :=
  do live <- runner_is_running stream_info;
  if live then ret (done_with "Stream already running" None)
  else
    do ok <- spawn stream_info;
    if ok then
      ret (done_with "Stream started"
             (Some ("/hls/" +:+ stream_id +:+ "/stream.m3u8")))
    else ret (failure "Failed to start stream").

Definition start_stream (stream_id : string) : M result :=
  do found <- streams_get stream_id;
  match found with
  | Some stream_info => start_record stream_id stream_info
  | None =>
      if negb (Py.startswith "noise_" stream_id) then ret (failure "Stream not found")
      else
        let noise_type := Py.removeprefix "noise_" stream_id in
        do mgr <- the_manager;
        if negb (Py.contains noise_type (noise_types mgr))
        then ret (failure "Invalid noise type")
        else
          do stream_info <- _create_stream_for_noise noise_type;
          run streams_set stream_id stream_info;
          start_record stream_id stream_info
  end.

(** *** get_status and health_check *)

Record status_summary := {
  gs_total_streams : nat;
  gs_running_streams : nat;
  gs_stopped_streams : nat;
  gs_streams : list StreamInfo.dict
}.

(** [sum(1 for x in l if f(x))] *)
Fixpoint count_if {A} (f : A -> bool) (l : list A) : nat :=
  match l with
  | [] => 0
  | x :: l' => (if f x then 1 else 0) + count_if f l'
  end.

(** [self._streams.values()] *)
Definition records (s : Sys) : list StreamInfo.t :=
  map (fun a => heap s !!! a) (Dict.values (_streams (self s))).

Definition get_status : M status_summary :=
  fun s =>
    let streams_status := map (StreamInfo.to_dict (world s)) (records s) in
    let running_count :=
      count_if (fun r => NoiseFFmpegRunner.is_running (world s) (StreamInfo.runner r))
               (records s) in
    (Ok {| gs_total_streams := length (_streams (self s));
           gs_running_streams := running_count;
           gs_stopped_streams := length (_streams (self s)) - running_count;
           gs_streams := streams_status |}, s).

Record health_counts := {
  hc_total : nat;
  hc_healthy : nat;
  hc_stopped : nat;
  hc_unhealthy : nat
}.

Record health_summary := {
  hs_status : string;
  hs_summary : health_counts;
  hs_streams : list StreamInfo.health
}.

Definition has_status (st : string) (h : StreamInfo.health) : bool :=
  String.eqb (StreamInfo.h_status h) st.

(** The aggregation of [health_check] over the per-stream reports. *)
Definition overall (stream_health : list StreamInfo.health) : string :=
  let healthy_count := count_if (has_status "healthy") stream_health in
  let stopped_count := count_if (has_status "stopped") stream_health in
  let unhealthy_count := count_if (has_status "unhealthy") stream_health in
  if (0 <? unhealthy_count)%nat then "degraded"
  else if (0 <? healthy_count)%nat then "healthy"
  else if (stopped_count =? length stream_health)%nat && (0 <? stopped_count)%nat
  then "stopped"
  else if (length stream_health =? 0)%nat then "no_streams"
  else "unknown".

Definition health_check : M health_summary :=
  fun s =>
    let stream_health := map (StreamInfo.health_check (world s)) (records s) in
    (Ok {| hs_status := overall stream_health;
           hs_summary :=
             {| hc_total := length stream_health;
                hc_healthy := count_if (has_status "healthy") stream_health;
                hc_stopped := count_if (has_status "stopped") stream_health;
                hc_unhealthy := count_if (has_status "unhealthy") stream_health |};
           hs_streams := stream_health |}, s).

End NoiseStreamManager.

(** ** app.py: the health monitor *)

Module App.

Import NoiseStreamManager.

(** A call of the monitor into the registry. *)
Inductive call :=
  | CallStop (stream_id : string)
  | CallStart (stream_id : string).

(** The test of line 37. *)
Definition needs_restart (stream : StreamInfo.health) : bool :=
  String.eqb (StreamInfo.h_status stream) "unhealthy"
  && StreamInfo.h_process_running stream.

(** The [for stream in health.get("streams", [])] loop.  Besides the outcome
    and the system, it returns the calls it issued, in order. *)
Fixpoint restart_loop (streams : list StreamInfo.health) (s : Sys)
  : Result unit * list call * Sys :=
  match streams with
  | [] => (Ok tt, [], s)
  | stream :: rest =>
      if needs_restart stream then
        let stream_id := StreamInfo.h_stream_id stream in
        match stop_stream stream_id s with
        | (Raise e, s1) => (Raise e, [CallStop stream_id], s1)
        | (Ok _, s1) =>
            match start_stream stream_id s1 with
            | (Raise e, s2) =>
                (Raise e, [CallStop stream_id; CallStart stream_id], s2)
            | (Ok _, s2) =>
                let '(res, calls, s3) := restart_loop rest s2 in
                (res, CallStop stream_id :: CallStart stream_id :: calls, s3)
            end
        end
      else restart_loop rest s
  end.

(** How one evaluation cycle ends: normally, followed by the ten one-second
    waits, or in the [except Exception] handler, followed by the wait of 5. *)
Inductive cycle_end :=
  | Completed
  | Faulted (e : Py.exn).

(** Lines 35-41 and 47-49 of [_monitor_stream_health]: one pass of the
    [while] body, without the waits. *)
Definition monitor_cycle (s : Sys) : cycle_end * list call * Sys :=
  match health_check s with
  | (Raise e, s0) => (Faulted e, [], s0)
  | (Ok health, s0) =>
      match restart_loop (hs_streams health) s0 with
      | (Ok _, calls, s1) => (Completed, calls, s1)
      | (Raise e, calls, s1) => (Faulted e, calls, s1)
      end
  end.

(** What a call does to the system: the registry's public operation, whose
    answer the monitor drops. *)
Definition issue (c : call) (s : Sys) : Sys :=
  match c with
  | CallStop stream_id => snd (stop_stream stream_id s)
  | CallStart stream_id => snd (start_stream stream_id s)
  end.

Definition issue_all (calls : list call) (s : Sys) : Sys :=
  fold_left (fun s c => issue c s) calls s.

End App.

(** ** The environment and the reachable systems *)

Import NoiseStreamManager.

(** Between two operations the environment may change anything in the world
    except that the process table keeps its entries, and a process that has
    exited stays so. *)
Definition decays (p p' : Proc) : Prop :=
  p_dir p' = p_dir p /\ (p_alive p' = true -> p_alive p = true).

Inductive env_step : Sys -> Sys -> Prop :=
  | env_change s w' :
      Forall2 decays (w_procs (world s)) (w_procs w') ->
      env_step s {| world := w'; heap := heap s; self := self s |}.

(** The operations of the control surface. *)
Inductive op :=
  | StartAll
  | StopAll
  | Start (stream_id : string)
  | Stop (stream_id : string)
  | GetStreams
  | GetStream (stream_id : string)
  | GetStatus
  | HealthCheck.

Definition forget {A} (m : M A) : M unit := do _ <- m; ret tt.

Definition run_op (o : op) : M unit :=
  match o with
  | StartAll => forget start_all_streams
  | StopAll => forget stop_all_streams
  | Start stream_id => forget (start_stream stream_id)
  | Stop stream_id => forget (stop_stream stream_id)
  | GetStreams => forget get_streams
  | GetStream stream_id => forget (get_stream stream_id)
  | GetStatus => forget get_status
  | HealthCheck => forget health_check
  end.

(** Systems reachable from a new manager, which has spawned no worker yet, by
    operations, whether they return or raise, and by the environment. *)
Inductive reachable : Sys -> Prop :=
  | reach_init w base noises : w_procs w = [] -> reachable (init w base noises)
  | reach_env s s' : reachable s -> env_step s s' -> reachable s'
  | reach_op s o res s' : reachable s -> run_op o s = (res, s') -> reachable s'.

(** Systems reachable when every operation so far has returned. *)
Inductive completed : Sys -> Prop :=
  | comp_init w base noises : w_procs w = [] -> completed (init w base noises)
  | comp_env s s' : completed s -> env_step s s' -> completed s'
  | comp_op s o s' : completed s -> run_op o s = (Ok tt, s') -> completed s'.

(** ** Observations used in the statements *)

Definition lookup_record (s : Sys) (stream_id : string) : option StreamInfo.t :=
  match Dict.get stream_id (_streams (self s)) with
  | Some a => Some (heap s !!! a)
  | None => None
  end.

(** Liveness of the process owned by a record. *)
Definition live (w : World) (r : StreamInfo.t) : bool :=
  NoiseFFmpegRunner.is_running w (StreamInfo.runner r).

(** The [status] field of a record's health report. *)
Definition status_of (w : World) (r : StreamInfo.t) : string :=
  StreamInfo.h_status (StreamInfo.health_check w r).

(** The manifest of a record: its path, whether it exists and, when [stat]
    succeeds on it, its age at the evaluation instant. *)
Definition manifest_path (r : StreamInfo.t) : option string :=
  match StreamInfo.hls_path r with
  | Some p => if Py.truthy (Some p) then Some (p +:+ "/stream.m3u8") else None
  | None => None
  end.

Definition manifest_exists (w : World) (r : StreamInfo.t) : bool :=
  match manifest_path r with
  | Some f => match w_file w f with Absent => false | Present _ => true end
  | None => false
  end.

Definition manifest_age (w : World) (r : StreamInfo.t) : option Q :=
  match manifest_path r with
  | Some f =>
      match w_file w f with
      | Present (Some mtime) => Some (w_now w - mtime)%Q
      | _ => None
      end
  | None => None
  end.

(** The age is known and strictly inside the window of 10. *)
Definition fresh_age (age : option Q) : Prop :=
  exists a, age = Some a /\ (a < 10)%Q.

(** The aggregate status as section 4.2 of the specification words it;
    "all stopped" is said of the streams there are, so of at least one. *)
Definition overall_spec (stream_health : list StreamInfo.health) : string :=
  if existsb (has_status "unhealthy") stream_health then "degraded"
  else if existsb (has_status "healthy") stream_health then "healthy"
  else if negb (length stream_health =? 0)%nat
          && forallb (has_status "stopped") stream_health then "stopped"
  else if (length stream_health =? 0)%nat then "no_streams"
  else "unknown".

(** ** Concrete systems for the examples *)

Module Scenario.

(** ffmpeg is installed, directories can be made, every spawn succeeds, no
    manifest has been written yet. *)
Definition calm : World :=
  {| w_now := 100%Q;
     w_procs := [];
     w_which := true;
     w_mkdir := fun _ => None;
     w_popen := fun _ => Spawned;
     w_popen_calls := 0;
     w_file := fun _ => Absent |}.

(** As [calm], but [fork] fails (ENOMEM, EAGAIN, ...): [Popen] raises an
    [OSError] that is not a [FileNotFoundError]. *)
Definition fork_fails : World :=
  {| w_now := 100%Q;
     w_procs := [];
     w_which := true;
     w_mkdir := fun _ => None;
     w_popen := fun _ => PopenRaises Py.OSError;
     w_popen_calls := 0;
     w_file := fun _ => Absent |}.

(** As [calm], but after three spawns [fork] fails. *)
Definition three_spawns : World :=
  {| w_now := 100%Q;
     w_procs := [];
     w_which := true;
     w_mkdir := fun _ => None;
     w_popen := fun n => if (n <? 3)%nat then Spawned else PopenRaises Py.OSError;
     w_popen_calls := 0;
     w_file := fun _ => Absent |}.

(** As [calm], but no thread can be started. *)
Definition no_threads : World :=
  {| w_now := 100%Q;
     w_procs := [];
     w_which := true;
     w_mkdir := fun _ => None;
     w_popen := fun _ => ThreadRaises;
     w_popen_calls := 0;
     w_file := fun _ => Absent |}.

Definition white_runner : NoiseFFmpegRunner.t :=
  NoiseFFmpegRunner.__init__ "white" "/app/hls/noise_white".

(** One worker, running, whose manifest was written at [mtime]. *)
Definition one_worker (mtime : option (option time)) : World :=
  {| w_now := 100%Q;
     w_procs := [ {| p_dir := "/app/hls/noise_white"; p_alive := true |} ];
     w_which := true;
     w_mkdir := fun _ => None;
     w_popen := fun _ => Spawned;
     w_popen_calls := 1;
     w_file := fun f =>
       if String.eqb f "/app/hls/noise_white/stream.m3u8"
       then match mtime with Some m => Present m | None => Absent end
       else Absent |}.

Definition white_running : StreamInfo.t :=
  {| StreamInfo.stream_id := "noise_white";
     StreamInfo.noise_type := "white";
     StreamInfo.runner := NoiseFFmpegRunner.set_process (Some 0) white_runner;
     StreamInfo.state := RUNNING;
     StreamInfo.started_at := Some 90%Q;
     StreamInfo.error_message := None;
     StreamInfo.hls_path := Some "/app/hls/noise_white" |}.

End Scenario.

(** ** Auxiliary definitions for the proofs *)

(** The record that [spawn] leaves, by the answer of the runner. *)
Definition after_spawn (res : Result bool) (now : time)
    (r' : NoiseFFmpegRunner.t) (r : StreamInfo.t) : StreamInfo.t :=
  match res with
  | Ok true =>
      StreamInfo.set_error_message None
        (StreamInfo.set_started_at (Some now)
           (StreamInfo.set_state RUNNING
              (StreamInfo.set_runner r' (StreamInfo.set_state STARTING r))))
  | Ok false =>
      StreamInfo.set_error_message (Some "Failed to start FFmpeg process")
        (StreamInfo.set_state ERROR
           (StreamInfo.set_runner r' (StreamInfo.set_state STARTING r)))
  | Raise _ => StreamInfo.set_runner r' (StreamInfo.set_state STARTING r)
  end.

(** The record that a successful stop leaves. *)
Definition after_stop (r' : NoiseFFmpegRunner.t) (r : StreamInfo.t) : StreamInfo.t :=
  StreamInfo.set_started_at None
    (StreamInfo.set_state STOPPED (StreamInfo.set_runner r' r)).

(** The record that [_create_stream_for_noise] builds. *)
Definition new_record (base noise_type : string) : StreamInfo.t :=
  let stream_id := "noise_" +:+ noise_type in
  let hls_dir := base +:+ "/" +:+ stream_id in
  {| StreamInfo.stream_id := stream_id;
     StreamInfo.noise_type := noise_type;
     StreamInfo.runner := NoiseFFmpegRunner.__init__ noise_type hls_dir;
     StreamInfo.state := STOPPED;
     StreamInfo.started_at := None;
     StreamInfo.error_message := None;
     StreamInfo.hls_path := Some hls_dir |}.

(** ** The invariant of the registry *)

Definition failed_to_start : string := "Failed to start FFmpeg process".

(** A record that no operation is in the middle of starting. *)
Definition quiet (r : StreamInfo.t) : Prop :=
  StreamInfo.state r <> STARTING /\
  (StreamInfo.state r = ERROR -> StreamInfo.error_message r = Some failed_to_start).

(** What holds of the record stored under key [k].  With [strict] it is also
    [quiet]; that part is lost when an operation raises, which can leave a
    record STARTING, with a live process if it was the reader thread that
    could not be started. *)
Record rec_ok (strict : bool) (m : NoiseStreamManager.t) (w : World)
    (k : string) (r : StreamInfo.t) : Prop := {
  ok_id : StreamInfo.stream_id r = k;
  ok_key : k = "noise_" +:+ StreamInfo.noise_type r;
  ok_dir : NoiseFFmpegRunner.hls_dir (StreamInfo.runner r)
           = base_hls_dir m +:+ "/" +:+ k;
  ok_path : StreamInfo.hls_path r = Some (base_hls_dir m +:+ "/" +:+ k);
  ok_live : live w r = true ->
            StreamInfo.state r = RUNNING \/ StreamInfo.state r = STARTING;
  ok_handle : StreamInfo.state r = RUNNING ->
              NoiseFFmpegRunner._process (StreamInfo.runner r) <> None;
  ok_pid : forall p, NoiseFFmpegRunner._process (StreamInfo.runner r) = Some p ->
                     p < length (w_procs w);
  ok_quiet : strict = true -> quiet r
}.

Record wf (strict : bool) (s : Sys) : Prop := {
  wf_keys : NoDup (Dict.keys (_streams (self s)));
  wf_inj : forall k1 k2 a,
      Dict.get k1 (_streams (self s)) = Some a ->
      Dict.get k2 (_streams (self s)) = Some a -> k1 = k2;
  wf_alloc : forall k a,
      Dict.get k (_streams (self s)) = Some a -> a < length (heap s);
  wf_rec : forall k a,
      Dict.get k (_streams (self s)) = Some a ->
      rec_ok strict (self s) (world s) k (heap s !!! a);
  (** when no operation has raised, every running worker is the process of
      a registered record *)
  wf_owned : strict = true -> forall p pr,
      w_procs (world s) !! p = Some pr -> p_alive pr = true ->
      exists k a,
        Dict.get k (_streams (self s)) = Some a /\
        NoiseFFmpegRunner._process (StreamInfo.runner (heap s !!! a)) = Some p /\
        p_dir pr = NoiseFFmpegRunner.hls_dir (StreamInfo.runner (heap s !!! a))
}.

(** The results entry and counters of one iteration of [start_all_streams]. *)
Definition already_running_entry (noise : string) : entry :=
  {| e_stream_id := "noise_" +:+ noise; e_status := "already_running";
     e_noise := Some noise; e_stream_url := None; e_error := None |}.

Definition started_entry (noise : string) : entry :=
  {| e_stream_id := "noise_" +:+ noise; e_status := "started";
     e_noise := Some noise;
     e_stream_url := Some ("/hls/" +:+ ("noise_" +:+ noise) +:+ "/stream.m3u8");
     e_error := None |}.

Definition failed_entry (noise : string) : entry :=
  {| e_stream_id := "noise_" +:+ noise; e_status := "failed";
     e_noise := Some noise; e_stream_url := None;
     e_error := Some failed_to_start |}.

(** The registry with [stream_id] bound to the object at [a]. *)
Definition bind_stream (stream_id : string) (a : addr) (m : NoiseStreamManager.t)
  : NoiseStreamManager.t :=
  {| base_hls_dir := base_hls_dir m;
     noise_types := noise_types m;
     _streams := Dict.set stream_id a (_streams m) |}.

(** Is the stream of [noise] registered with a running worker? *)
Definition live_stream (s : Sys) (noise : string) : bool :=
  match Dict.get ("noise_" +:+ noise) (_streams (self s)) with
  | Some a => live (world s) (heap s !!! a)
  | None => false
  end.

(** ** More concrete systems *)

Module Story.

Import Scenario.

(** A process exits on its own. *)
Definition exits (w : World) (p : pid) : World := reap w p.

Definition with_world (w : World) (s : Sys) : Sys :=
  {| world := w; heap := heap s; self := self s |}.

(** A new manager for white, pink and brown noise. *)
Definition fresh : Sys := init calm "/app/hls" ["white"; "pink"; "brown"].

(** [start("noise_white")] succeeded. *)
Definition started : Sys := snd (start_stream "noise_white" fresh).

(** Then the worker crashed. *)
Definition crashed : Sys := with_world (exits (world started) 0) started.

(** Then [stop("noise_white")] was called. *)
Definition noticed : Sys := snd (stop_stream "noise_white" crashed).

(** ffmpeg is not installed. *)
Definition no_ffmpeg : World :=
  {| w_now := 100%Q;
     w_procs := [];
     w_which := false;
     w_mkdir := fun _ => None;
     w_popen := fun _ => Spawned;
     w_popen_calls := 0;
     w_file := fun _ => Absent |}.

Definition bare : Sys := init no_ffmpeg "/app/hls" ["white"].

(** [start("noise_white")] failed: the record is in state ERROR. *)
Definition failed : Sys := snd (start_stream "noise_white" bare).

(** The worker of [started] runs, its manifest was last written at 85. *)
Definition stale : Sys :=
  with_world
    {| w_now := 100%Q;
       w_procs := w_procs (world started);
       w_which := true;
       w_mkdir := fun _ => None;
       w_popen := fun _ => Spawned;
       w_popen_calls := 1;
       w_file := fun f =>
         if String.eqb f "/app/hls/noise_white/stream.m3u8"
         then Present (Some 85%Q) else Absent |}
    started.

(** The three streams run and none has written a manifest; the next spawn
    will fail. *)
Definition all_started : Sys :=
  snd (start_all_streams (init three_spawns "/app/hls" ["white"; "pink"; "brown"])).

(** [start("noise_white")] raised after the worker was spawned. *)
Definition half_started : Sys :=
  snd (start_stream "noise_white" (init no_threads "/app/hls" ["white"])).

(** [start_all_streams] raised twice after the worker was spawned. *)
Definition twice_raised : Sys :=
  snd (start_all_streams
         (snd (start_all_streams (init no_threads "/app/hls" ["white"])))).

End Story.

(** The operations that rebind no identifier: all but [start_all_streams]. *)
Definition in_place (o : op) : bool :=
  match o with
  | StartAll => false
  | _ => true
  end.

(** The identifiers that line 37 selects from a health report, in order. *)
Definition restart_ids (streams : list StreamInfo.health) : list string :=
  map StreamInfo.h_stream_id (List.filter App.needs_restart streams).

(** One stop followed by one start for each identifier. *)
Definition stop_start (ids : list string) : list App.call :=
  flat_map (fun stream_id => [App.CallStop stream_id; App.CallStart stream_id]) ids.

(** The report of every registered stream at this instant. *)
Definition report (s : Sys) : list StreamInfo.health :=
  map (StreamInfo.health_check (world s)) (records s).

(** An entry that [start_all_streams] can report for [noise]. *)
Definition entry_of (noise : string) (e : entry) : Prop :=
  e = already_running_entry noise \/ e = started_entry noise \/
  e = failed_entry noise.

(** Entries counted in [started]; the others are counted in [failed]. *)
Definition counted (e : entry) : bool := negb (String.eqb (e_status e) "failed").

(** [p] is a running worker writing to the directory of [stream_id]. *)
Definition worker_of (s : Sys) (stream_id : string) (p : pid) : Prop :=
  exists pr,
    w_procs (world s) !! p = Some pr /\ p_alive pr = true /\
    p_dir pr = base_hls_dir (self s) +:+ "/" +:+ stream_id.


(** ** config.py *)

Module Config.

(** [c.isspace()] for an ASCII character: tab, line feed, vertical tab, form
    feed, carriage return, the separators 28-31 and the space. *)
Definition isspace (c : ascii) : bool :=
  let n := nat_of_ascii c in
  ((9 <=? n)%nat && (n <=? 13)%nat) || ((28 <=? n)%nat && (n <=? 32)%nat).

(** [s.lstrip()] *)
Fixpoint lstrip (s : string) : string :=
  match s with
  | EmptyString => EmptyString
  | String c s' => if isspace c then lstrip s' else s
  end.

(** [s.rstrip()] *)
Fixpoint rstrip (s : string) : string :=
  match s with
  | EmptyString => EmptyString
  | String c s' =>
      match rstrip s' with
      | EmptyString => if isspace c then EmptyString else String c EmptyString
      | r => String c r
      end
  end.

(** [s.strip()] *)
Definition strip (s : string) : string := lstrip (rstrip s).

(** [s.split(sep)] for a separator of one character. *)
Fixpoint split (sep : ascii) (s : string) : list string :=
  match s with
  | EmptyString => [EmptyString]
  | String c s' =>
      if Ascii.eqb c sep then EmptyString :: split sep s'
      else
        match split sep s' with
        | piece :: pieces => String c piece :: pieces
        | [] => [String c EmptyString]
        end
  end.

(** [[s.strip() for s in value.split(",") if s.strip()]] *)
Definition parse_noise_types (value : string) : list string :=
  map strip
    (List.filter (fun piece => negb (String.eqb (strip piece) ""))
       (split "," value)).

Section environment.

(** [os.getenv] and the builtin [int], which is [None] where Python raises
    [ValueError]. *)
Variable getenv : string -> option string.
Variable int : string -> option Z.

Definition _get_int_env (name : string) (default min_val : Z) : Z :=
  match getenv name with
  | None => default
  | Some value =>
      match int value with
      | Some result => if (result <? min_val)%Z then default else result
      | None => default
      end
  end.

Definition _get_port_env (name : string) (default : Z) : Z :=
  match getenv name with
  | None => default
  | Some value =>
      match int value with
      | Some result =>
          if (result <? 1)%Z || (65535 <? result)%Z then default else result
      | None => default
      end
  end.

Record FFmpegConfig := {
  sample_rate : Z;
  audio_bitrate : string;
  segment_time : Z;
  list_size : Z
}.

Definition getenv_or (name default : string) : string :=
  match getenv name with
  | Some value => value
  | None => default
  end.

Definition FFmpegConfig_default : FFmpegConfig :=
  {| sample_rate := _get_int_env "SAMPLE_RATE" 44100 8000;
     audio_bitrate := getenv_or "AUDIO_BITRATE" "128k";
     segment_time := _get_int_env "SEGMENT_TIME" 2 1;
     list_size := _get_int_env "LIST_SIZE" 5 1 |}.

Record AppConfig := {
  host : string;
  port : Z;
  hls_dir : string;
  config_dir : string;
  rabbitmq_url : option string;
  debug : bool;
  log_level : string;
  noise_types : list string
}.

Definition AppConfig_default : AppConfig :=
  {| host := getenv_or "HOST" "0.0.0.0";
     port := _get_port_env "PORT" 8000;
     hls_dir := getenv_or "HLS_DIR" "/app/hls";
     config_dir := getenv_or "CONFIG_DIR" "/app/config";
     rabbitmq_url := getenv "RABBITMQ_URL";
     debug := String.eqb (Py.lower (getenv_or "DEBUG" "false")) "true";
     log_level := getenv_or "LOG_LEVEL" "INFO";
     noise_types := parse_noise_types (getenv_or "NOISE_TYPES" "white,pink,brown") |}.

End environment.

End Config.

(** ** app.py: the endpoints of single streams *)

Module Api.

(** What a handler produces: a JSON body, an [HTTPException], or an exception
    that leaves the handler. *)
Inductive response (A : Type) :=
  | Json (body : A)
  | HTTPException (status_code : nat) (detail : string)
  | Propagates (e : Py.exn).
Arguments Json {A} body.
Arguments HTTPException {A} status_code detail.
Arguments Propagates {A} e.

Definition is_error (r : result) (msg : string) : bool :=
  match error r with
  | Some e => String.eqb e msg
  | None => false
  end.

Definition error_or (r : result) (default : string) : string :=
  match error r with
  | Some e => e
  | None => default
  end.

Section handlers.

(** [str(exc)] *)
Variable str : Py.exn -> string.

(** [POST /stream/{stream_id}/start] *)
Definition start_stream (stream_id : string) (s : Sys) : response result * Sys :=
  match NoiseStreamManager.start_stream stream_id s with
  | (Ok res, s') =>
      if negb (success res) then
        if is_error res "Stream not found"
        then (HTTPException 404 "Stream not found", s')
        else (HTTPException 500 (error_or res "Failed to start stream"), s')
      else (Json res, s')
  | (Raise exc, s') =>
      (HTTPException 500 ("Error starting stream: " +:+ str exc), s')
  end.

(** [POST /stream/{stream_id}/stop] *)
Definition stop_stream (stream_id : string) (s : Sys) : response result * Sys :=
  match NoiseStreamManager.stop_stream stream_id s with
  | (Ok res, s') =>
      if negb (success res) then
        if is_error res "Stream not found"
        then (HTTPException 404 "Stream not found", s')
        else (HTTPException 500 (error_or res "Failed to stop stream"), s')
      else (Json res, s')
  | (Raise exc, s') => (Propagates exc, s')
  end.

(** [GET /stream/{stream_id}] *)
Definition get_stream_info (stream_id : string) (s : Sys)
  : response StreamInfo.dict * Sys :=
  match NoiseStreamManager.get_stream stream_id s with
  | (Ok (Some stream), s') =>
      (Json (StreamInfo.to_dict (world s') (heap s' !!! stream)), s')
  | (Ok None, s') => (HTTPException 404 "Stream not found", s')
  | (Raise exc, s') => (Propagates exc, s')
  end.

(** The [for s in health.get("streams", [])] search. *)
Fixpoint find_health (stream_id : string) (streams : list StreamInfo.health)
  : option StreamInfo.health :=
  match streams with
  | [] => None
  | h :: rest =>
      if String.eqb (StreamInfo.h_stream_id h) stream_id then Some h
      else find_health stream_id rest
  end.

(** [GET /stream/{stream_id}/health] *)
Definition get_stream_health (stream_id : string) (s : Sys)
  : response StreamInfo.health * Sys :=
  match NoiseStreamManager.health_check s with
  | (Ok health, s') =>
      match find_health stream_id (hs_streams health) with
      | Some h => (Json h, s')
      | None => (HTTPException 404 "Stream not found", s')
      end
  | (Raise exc, s') => (Propagates exc, s')
  end.

End handlers.

End Api.

(** ** More auxiliary definitions *)


(** Every registered identifier is "noise_" followed by a configured type. *)
Definition configured (s : Sys) : Prop :=
  forall k a,
    Dict.get k (_streams (self s)) = Some a ->
    exists n, k = "noise_" +:+ n /\ Py.contains n (noise_types (self s)) = true.

(** The characters of a string. *)
Definition chars (s : string) : list ascii := list_ascii_of_string s.

(** [sep.join(pieces)] for a separator of one character. *)
Fixpoint join (sep : ascii) (pieces : list string) : string :=
  match pieces with
  | [] => ""
  | [piece] => piece
  | piece :: rest => piece +:+ String sep (join sep rest)
  end.

(** * Properties *)

(** ** Per-stream health classification *)

Lemma Qlt_bool_iff x y : Qlt_bool x y = true <-> (x < y)%Q.
Proof.
  unfold Qlt_bool. rewrite negb_true_iff. split.
  - intros H. apply Qnot_le_lt. intros Hle. apply Qle_bool_iff in Hle. congruence.
  - intros H. destruct (Qle_bool y x) eqn:E; [|done].
    apply Qle_bool_iff in E. exfalso. eapply Qlt_not_le; eauto.
Qed.

Lemma get_status_running w r :
  NoiseFFmpegRunner.running (NoiseFFmpegRunner.get_status w r)
  = NoiseFFmpegRunner.is_running w r.
Proof.
  unfold NoiseFFmpegRunner.get_status, NoiseFFmpegRunner.is_running.
  destruct (NoiseFFmpegRunner._process r) as [p|]; [|done].
  by destruct (alive w p).
Qed.

Lemma probe_manifest_spec w r :
  fst (StreamInfo.probe_manifest w r) = manifest_exists w r /\
  (snd (StreamInfo.probe_manifest w r) = true <-> fresh_age (manifest_age w r)).
Proof.
  unfold StreamInfo.probe_manifest, manifest_exists, manifest_age, manifest_path,
    fresh_age.
  destruct (StreamInfo.hls_path r) as [p|];
    [|split; [done|]; split; [done|]; by intros (?&?&?)].
  destruct (Py.truthy (Some p));
    [|split; [done|]; split; [done|]; by intros (?&?&?)].
  destruct (w_file w _) as [|[m|]]; simpl.
  - split; [done|]; split; [done|]; by intros (?&?&?).
  - split; [done|]. rewrite Qlt_bool_iff. split; [eauto|]. by intros (?&[= <-]&?).
  - split; [done|]; split; [done|]; by intros (?&?&?).
Qed.

Lemma status_of_classify w r :
  status_of w r =
  StreamInfo.classify (StreamInfo.state r) (live w r)
    (fst (StreamInfo.probe_manifest w r)) (snd (StreamInfo.probe_manifest w r)).
Proof.
  unfold status_of, StreamInfo.health_check, live.
  rewrite get_status_running. by destruct (StreamInfo.probe_manifest w r).
Qed.

Lemma process_running_live w r :
  StreamInfo.h_process_running (StreamInfo.health_check w r) = live w r.
Proof.
  unfold StreamInfo.health_check, live.
  rewrite get_status_running. by destruct (StreamInfo.probe_manifest w r).
Qed.

Lemma health_stream_id w r :
  StreamInfo.h_stream_id (StreamInfo.health_check w r) = StreamInfo.stream_id r.
Proof. unfold StreamInfo.health_check. by destruct (StreamInfo.probe_manifest w r). Qed.

(** C1. The status of a record's health report is determined by its state,
    the liveness of its process, the existence of its manifest and the
    manifest's age: it is "healthy" exactly when the state is RUNNING, the
    process is live, the manifest exists and is strictly younger than 10;
    "unhealthy" when RUNNING and live with the manifest stale or missing;
    "stopped" for STOPPED; "starting" for STARTING; "unhealthy" when RUNNING
    with no live process. *)
Theorem health_classification :
  (forall w r,
      status_of w r = "healthy" <->
      StreamInfo.state r = RUNNING /\ live w r = true /\
      manifest_exists w r = true /\ fresh_age (manifest_age w r)) /\
  (forall w r,
      StreamInfo.state r = RUNNING -> live w r = true ->
      manifest_exists w r = false \/ ~ fresh_age (manifest_age w r) ->
      status_of w r = "unhealthy") /\
  (forall w r, StreamInfo.state r = STOPPED -> status_of w r = "stopped") /\
  (forall w r, StreamInfo.state r = STARTING -> status_of w r = "starting") /\
  (forall w r,
      StreamInfo.state r = RUNNING -> live w r = false ->
      status_of w r = "unhealthy") /\
  (forall w1 r1 w2 r2,
      StreamInfo.state r1 = StreamInfo.state r2 ->
      live w1 r1 = live w2 r2 ->
      manifest_exists w1 r1 = manifest_exists w2 r2 ->
      manifest_age w1 r1 = manifest_age w2 r2 ->
      status_of w1 r1 = status_of w2 r2).
Proof.
  split; [|split; [|split; [|split; [|split]]]].
  - intros w r. rewrite status_of_classify.
    destruct (probe_manifest_spec w r) as [E1 E2]. rewrite <- E1, <- E2.
    unfold StreamInfo.classify.
    destruct (StreamInfo.state r), (live w r),
      (fst (StreamInfo.probe_manifest w r)), (snd (StreamInfo.probe_manifest w r));
      simpl; split; (done || (intros (?&?&?&?); done)).
  - intros w r Hs Hl Hm. rewrite status_of_classify.
    destruct (probe_manifest_spec w r) as [E1 E2]. rewrite Hs, Hl, E1.
    unfold StreamInfo.classify; simpl.
    destruct Hm as [-> | Hn]; [done|].
    destruct (snd _); [|by destruct (manifest_exists w r)].
    exfalso. apply Hn, E2. done.
  - intros w r Hs. by rewrite status_of_classify, Hs.
  - intros w r Hs. by rewrite status_of_classify, Hs.
  - intros w r Hs Hl. by rewrite status_of_classify, Hs, Hl.
  - intros w1 r1 w2 r2 Hs Hl He Ha. rewrite !status_of_classify.
    destruct (probe_manifest_spec w1 r1) as [E1 F1].
    destruct (probe_manifest_spec w2 r2) as [E2 F2].
    rewrite Hs, Hl, E1, E2, He. rewrite Ha in F1.
    assert (snd (StreamInfo.probe_manifest w1 r1)
            = snd (StreamInfo.probe_manifest w2 r2)) as ->; [|done].
    destruct (snd (StreamInfo.probe_manifest w1 r1)),
      (snd (StreamInfo.probe_manifest w2 r2)); try done.
    + symmetry. apply F2, F1. done.
    + apply F1, F2. done.
Qed.

(** The three cases of section 8: manifest absent, of age 3, of age 15. *)
Lemma health_classification_witness :
  status_of (Scenario.one_worker None) Scenario.white_running = "unhealthy" /\
  status_of (Scenario.one_worker (Some (Some 97%Q))) Scenario.white_running
  = "healthy" /\
  status_of (Scenario.one_worker (Some (Some 85%Q))) Scenario.white_running
  = "unhealthy".
Proof.
  destruct health_classification as (Hh & Hu & _).
  split; [|split].
  - apply Hu; [reflexivity | reflexivity | left; reflexivity].
  - apply Hh. split; [reflexivity|]. split; [reflexivity|]. split; [reflexivity|].
    exists (100 - 97)%Q. split; reflexivity.
  - apply Hu; [reflexivity | reflexivity |].
    right. intros (a & Ha & Hlt). vm_compute in Ha. injection Ha as <-.
    vm_compute in Hlt. discriminate.
Defined.

(** ** Aggregate status *)

Lemma count_if_pos {A} (f : A -> bool) l :
  (0 <? count_if f l)%nat = existsb f l.
Proof.
  induction l as [|x l IH]; [done|]. simpl. destruct (f x); [done|]. exact IH.
Qed.

Lemma count_if_le {A} (f : A -> bool) l : count_if f l <= length l.
Proof. induction l as [|x l IH]; simpl; [lia|]. destruct (f x); lia. Qed.

Lemma count_if_all {A} (f : A -> bool) l :
  (count_if f l =? length l)%nat = forallb f l.
Proof.
  induction l as [|x l IH]; [done|]. simpl. destruct (f x); simpl; [exact IH|].
  apply Nat.eqb_neq. pose proof (count_if_le f l). lia.
Qed.

Lemma overall_eq l : overall l = overall_spec l.
Proof.
  unfold overall, overall_spec.
  rewrite !count_if_pos, count_if_all.
  destruct (existsb (has_status "unhealthy") l); [done|].
  destruct (existsb (has_status "healthy") l); [done|].
  destruct l as [|h l]; [done|]. simpl.
  destruct (has_status "stopped" h); [|done]. simpl.
  by destruct (forallb (has_status "stopped") l).
Qed.

Lemma existsb_status st l :
  existsb (has_status st) l = true <->
  Exists (fun h => StreamInfo.h_status h = st) l.
Proof.
  rewrite existsb_exists, Exists_exists. unfold has_status.
  split; intros (h & Hin & Hs); exists h.
  - split; [by apply list_elem_of_In|]. by apply String.eqb_eq.
  - split; [by apply list_elem_of_In|]. by apply String.eqb_eq.
Qed.

Lemma forallb_status st l :
  forallb (has_status st) l = true <->
  Forall (fun h => StreamInfo.h_status h = st) l.
Proof.
  rewrite forallb_forall, Forall_forall. unfold has_status.
  split; intros H h Hin.
  - apply String.eqb_eq. by apply H, list_elem_of_In.
  - apply String.eqb_eq. by apply H, list_elem_of_In.
Qed.

Lemma overall_spec_cases l :
  let some st := Exists (fun x => StreamInfo.h_status x = st) l in
  let all st := Forall (fun x => StreamInfo.h_status x = st) l in
  (some "unhealthy" -> overall_spec l = "degraded") /\
  (~ some "unhealthy" -> some "healthy" -> overall_spec l = "healthy") /\
  (~ some "unhealthy" -> ~ some "healthy" -> l <> [] -> all "stopped" ->
   overall_spec l = "stopped") /\
  (l = [] -> overall_spec l = "no_streams") /\
  (~ some "unhealthy" -> ~ some "healthy" -> l <> [] -> ~ all "stopped" ->
   overall_spec l = "unknown").
Proof.
  cbv zeta. unfold overall_spec.
  pose proof (existsb_status "unhealthy" l) as Hu.
  pose proof (existsb_status "healthy" l) as Hh.
  pose proof (forallb_status "stopped" l) as Hs.
  destruct (existsb (has_status "unhealthy") l).
  { assert (Exists (fun x => StreamInfo.h_status x = "unhealthy") l) as He
      by (by apply Hu).
    split; [done|]. split; [tauto|]. split; [tauto|].
    split; [|tauto]. intros E. rewrite E in He. by apply Exists_nil in He. }
  assert (~ Exists (fun x => StreamInfo.h_status x = "unhealthy") l) as Hnu.
  { intros He. apply Hu in He. done. }
  split; [tauto|].
  destruct (existsb (has_status "healthy") l).
  { assert (Exists (fun x => StreamInfo.h_status x = "healthy") l) as He
      by (by apply Hh).
    split; [done|]. split; [tauto|].
    split; [|tauto]. intros E. rewrite E in He. by apply Exists_nil in He. }
  assert (~ Exists (fun x => StreamInfo.h_status x = "healthy") l) as Hnh.
  { intros He. apply Hh in He. done. }
  split; [tauto|].
  destruct (forallb (has_status "stopped") l).
  - assert (Forall (fun x => StreamInfo.h_status x = "stopped") l) as Ha
      by (by apply Hs).
    destruct l as [|x l']; simpl.
    + split; [done|]. split; [done|]. done.
    + split; [done|]. split; [done|]. tauto.
  - assert (~ Forall (fun x => StreamInfo.h_status x = "stopped") l) as Hna.
    { intros Ha. apply Hs in Ha. done. }
    rewrite andb_false_r. destruct l as [|x l']; simpl.
    + split; [tauto|]. split; [done|]. done.
    + split; [tauto|]. split; [done|]. done.
Qed.

(** C7. The reports of [health_check] are those of the registered records,
    and the aggregate status it returns with them is "degraded" if at least
    one stream is unhealthy; else "healthy" if at least one is healthy; else
    "stopped" if every stream (and there is one) is stopped; else
    "no_streams" if there are no streams; else "unknown". *)
Theorem aggregate_status s h s' :
  health_check s = (Ok h, s') ->
  let l := hs_streams h in
  let some st := Exists (fun x => StreamInfo.h_status x = st) l in
  let all st := Forall (fun x => StreamInfo.h_status x = st) l in
  l = map (StreamInfo.health_check (world s)) (records s) /\
  hs_status h = overall_spec l /\
  (some "unhealthy" -> hs_status h = "degraded") /\
  (~ some "unhealthy" -> some "healthy" -> hs_status h = "healthy") /\
  (~ some "unhealthy" -> ~ some "healthy" -> l <> [] -> all "stopped" ->
   hs_status h = "stopped") /\
  (l = [] -> hs_status h = "no_streams") /\
  (~ some "unhealthy" -> ~ some "healthy" -> l <> [] -> ~ all "stopped" ->
   hs_status h = "unknown").
Proof.
  intros [= <- <-]. cbv zeta. simpl.
  split; [done|]. rewrite overall_eq. split; [done|].
  apply overall_spec_cases.
Qed.

Lemma aggregate_status_witness :
  exists h,
    health_check (init Scenario.calm "/app/hls" [])
    = (Ok h, init Scenario.calm "/app/hls" []) /\
    hs_status h = "no_streams".
Proof.
  eexists. split; [reflexivity|].
  exact (proj1 (proj2 (proj2 (proj2 (proj2 (proj2
    (aggregate_status (init Scenario.calm "/app/hls" []) _ _ eq_refl))))))
    eq_refl).
Defined.

(** ** The runner *)

Lemma start_when_live w r :
  NoiseFFmpegRunner.is_running w r = true ->
  NoiseFFmpegRunner.start w r = (Ok false, w, r).
Proof. intros H. unfold NoiseFFmpegRunner.start. by rewrite H. Qed.

Lemma start_without_executable w r :
  NoiseFFmpegRunner.is_running w r = false ->
  w_mkdir w (NoiseFFmpegRunner.hls_dir r) = None ->
  w_which w = false ->
  NoiseFFmpegRunner.start w r = (Ok false, w, r).
Proof. intros H1 H2 H3. unfold NoiseFFmpegRunner.start. by rewrite H1, H2, H3. Qed.

(** Exactly which exceptions leave [start]: the one of [mkdir]; the one of
    [Popen] unless it is a [FileNotFoundError] or a [SubprocessError]; and
    the [RuntimeError] of the reader thread, which leaves the handle of the
    new process in the runner. *)
Lemma start_raises w r e w' r' :
  NoiseFFmpegRunner.start w r = (Raise e, w', r') <->
  NoiseFFmpegRunner.is_running w r = false /\
  ((w_mkdir w (NoiseFFmpegRunner.hls_dir r) = Some e /\ w' = w /\ r' = r) \/
   (w_mkdir w (NoiseFFmpegRunner.hls_dir r) = None /\ w_which w = true /\
    popen w (NoiseFFmpegRunner.hls_dir r) = (Raise e, w') /\ r' = r /\
    e <> Py.FileNotFoundError /\ e <> Py.SubprocessError) \/
   (w_mkdir w (NoiseFFmpegRunner.hls_dir r) = None /\ w_which w = true /\
    exists p, popen w (NoiseFFmpegRunner.hls_dir r) = (Ok p, w') /\
              thread_start w = Some e /\ e = Py.RuntimeError /\
              r' = NoiseFFmpegRunner.set_process (Some p) r)).
Proof.
  unfold NoiseFFmpegRunner.start.
  destruct (NoiseFFmpegRunner.is_running w r).
  { split; [done|]. by intros (?&?). }
  destruct (w_mkdir w _) as [e0|].
  { split.
    - intros [= -> -> ->]. split; [done|]. by left.
    - intros (_ & [([= ->] & -> & ->) | [(? & _) | (? & _)]]); done. }
  destruct (w_which w); simpl.
  2:{ split; [done|]. intros (_ & [(? & _) | [(_ & ? & _) | (_ & ? & _)]]); done. }
  destruct (popen w _) as [[p|e0] w0].
  - assert (thread_start w = None \/ thread_start w = Some Py.RuntimeError) as Ht.
    { unfold thread_start. destruct (w_popen w _); auto. }
    destruct Ht as [Ht|Ht]; rewrite Ht; simpl.
    + split; [done|].
      intros (_ & [(? & _) | [(_ & _ & ? & _) | (_ & _ & q & _ & ? & _)]]); done.
    + split.
      * intros [= <- <- <-]. split; [done|]. right; right.
        split; [done|]. split; [done|]. by exists p.
      * intros (_ & [(? & _) | [(_ & _ & ? & _) | (_ & _ & q & [= <- <-] & _ & -> & ->)]]);
          done.
  - split.
    + destruct e0; simpl; intros [= <- <- <-]; (split; [done|]);
        right; left; done.
    + intros (_ & [(? & _) | [(_ & _ & [= -> ->] & -> & ? & ?) | (_ & _ & q & ? & _)]]);
        [done| |done].
      destruct e; simpl; done.
Qed.

(** C5, failing input. ffmpeg is on the search path, the output directory
    can be made, and [Popen] raises an [OSError] other than
    [FileNotFoundError]: [start] does not return false, the exception
    reaches the caller. *)
Theorem start_lets_spawn_error_escape :
  NoiseFFmpegRunner.is_running Scenario.fork_fails Scenario.white_runner = false /\
  w_which Scenario.fork_fails = true /\
  fst (fst (NoiseFFmpegRunner.start Scenario.fork_fails Scenario.white_runner))
  = Raise Py.OSError.
Proof. split; [|split]; reflexivity. Qed.

(** ** Dictionaries *)

Section dict.
Context {V : Type}.
Implicit Types (d : list (string * V)) (k : string) (v : V).

Lemma dict_get_set_eq k v d : Dict.get k (Dict.set k v d) = Some v.
Proof.
  induction d as [|[k' v'] d IH]; simpl.
  - by rewrite String.eqb_refl.
  - destruct (String.eqb k' k) eqn:E; simpl.
    + by rewrite String.eqb_refl.
    + by rewrite E.
Qed.

Lemma dict_get_set_ne k k' v d :
  k <> k' -> Dict.get k' (Dict.set k v d) = Dict.get k' d.
Proof.
  intros Hne. induction d as [|[k0 v0] d IH]; simpl.
  - by apply String.eqb_neq in Hne as ->.
  - destruct (String.eqb k0 k) eqn:E; simpl.
    + apply String.eqb_eq in E as ->.
      by apply String.eqb_neq in Hne as ->.
    + by rewrite IH.
Qed.

Lemma dict_get_set k k' v d :
  Dict.get k' (Dict.set k v d) = if String.eqb k k' then Some v else Dict.get k' d.
Proof.
  destruct (String.eqb_spec k k') as [->|Hne].
  - apply dict_get_set_eq.
  - by apply dict_get_set_ne.
Qed.

Lemma dict_get_Some_elem k v d : Dict.get k d = Some v -> (k, v) ∈ d.
Proof.
  induction d as [|[k' v'] d IH]; simpl; [done|].
  destruct (String.eqb_spec k' k) as [->|Hne].
  - intros [= ->]. left.
  - intros H. right. by apply IH.
Qed.

Lemma dict_get_None_keys k d : Dict.get k d = None <-> k ∉ Dict.keys d.
Proof.
  induction d as [|[k' v'] d IH]; simpl.
  - split; [intros _; apply not_elem_of_nil | done].
  - rewrite not_elem_of_cons. destruct (String.eqb_spec k' k) as [->|Hne].
    + split; [done|]. by intros [? _].
    + rewrite IH. split; [by intros ?; split|]. by intros [_ ?].
Qed.

Lemma dict_elem_get k v d : NoDup (Dict.keys d) -> (k, v) ∈ d -> Dict.get k d = Some v.
Proof.
  induction d as [|[k' v'] d IH]; simpl.
  - intros _ H. by apply elem_of_nil in H.
  - rewrite NoDup_cons. intros [Hk Hd]. rewrite elem_of_cons.
    intros [[= -> ->] | Hin].
    + by rewrite String.eqb_refl.
    + destruct (String.eqb_spec k' k) as [->|Hne]; [|by apply IH].
      exfalso. apply Hk. unfold Dict.keys.
      apply (list_elem_of_fmap_2 fst) in Hin. exact Hin.
Qed.

Lemma dict_keys_set k v d :
  Dict.keys (Dict.set k v d)
  = match Dict.get k d with
    | Some _ => Dict.keys d
    | None => Dict.keys d ++ [k]
    end.
Proof.
  induction d as [|[k' v'] d IH]; simpl; [done|].
  destruct (String.eqb_spec k' k) as [->|Hne]; simpl; [done|].
  rewrite IH. by destruct (Dict.get k d).
Qed.

Lemma dict_set_NoDup k v d :
  NoDup (Dict.keys d) -> NoDup (Dict.keys (Dict.set k v d)).
Proof.
  intros H. rewrite dict_keys_set. destruct (Dict.get k d) eqn:E; [done|].
  apply NoDup_app. split; [done|]. split; [|apply NoDup_singleton].
  intros x Hx Hx'. apply list_elem_of_singleton in Hx' as ->.
  by apply dict_get_None_keys in E.
Qed.

Lemma dict_values_set k v d :
  forall x, x ∈ Dict.values (Dict.set k v d) -> x = v \/ x ∈ Dict.values d.
Proof.
  induction d as [|[k' v'] d IH]; simpl; intros x.
  - rewrite list_elem_of_singleton. by left.
  - destruct (String.eqb_spec k' k) as [->|Hne]; simpl.
    + rewrite !elem_of_cons. intros [->|?]; [by left | right; by right].
    + rewrite !elem_of_cons. intros [->|Hx]; [right; by left|].
      apply IH in Hx as [->|?]; [by left | right; by right].
Qed.

Lemma dict_get_Some_value k v d : Dict.get k d = Some v -> v ∈ Dict.values d.
Proof.
  intros H. apply dict_get_Some_elem in H.
  apply (list_elem_of_fmap_2 snd) in H. exact H.
Qed.
End dict.

(** ** Strings *)

#[global] Arguments Py.startswith : simpl never.
#[global] Arguments Py.removeprefix : simpl never.
#[global] Arguments Py.contains : simpl never.
#[global] Arguments String.eqb : simpl never.

Lemma append_cons c p s : String c p +:+ s = String c (p +:+ s).
Proof. reflexivity. Qed.

Lemma append_nil s : "" +:+ s = s.
Proof. reflexivity. Qed.

Lemma startswith_app p s : Py.startswith p (p +:+ s) = true.
Proof.
  induction p as [|c p IH]; [done|].
  rewrite append_cons. unfold Py.startswith; fold Py.startswith.
  by rewrite Ascii.eqb_refl.
Qed.

Lemma drop_chars_app p s : Py.drop_chars (String.length p) (p +:+ s) = s.
Proof.
  induction p as [|c p IH]; [by destruct s|]. rewrite append_cons. exact IH.
Qed.

Lemma removeprefix_app p s : Py.removeprefix p (p +:+ s) = s.
Proof. unfold Py.removeprefix. by rewrite startswith_app, drop_chars_app. Qed.

Lemma startswith_split p s :
  Py.startswith p s = true -> s = p +:+ Py.removeprefix p s.
Proof.
  intros H. unfold Py.removeprefix. rewrite H.
  revert s H. induction p as [|c p IH]; intros s H.
  - by destruct s.
  - destruct s as [|c' s]; unfold Py.startswith in H; fold Py.startswith in H;
      [done|].
    destruct (Ascii.eqb_spec c c') as [->|]; [|done].
    rewrite append_cons. simpl. f_equal. by apply IH.
Qed.

Lemma string_app_inj_l p s1 s2 : p +:+ s1 = p +:+ s2 -> s1 = s2.
Proof.
  induction p as [|c p IH]; [done|]. rewrite !append_cons. intros [= H].
  by apply IH.
Qed.

Lemma contains_elem x xs : Py.contains x xs = true <-> x ∈ xs.
Proof.
  unfold Py.contains. induction xs as [|y xs IH]; simpl.
  - split; [done|]. intros H. by apply elem_of_nil in H.
  - rewrite orb_true_iff, IH, elem_of_cons, String.eqb_eq. done.
Qed.

Lemma lower_ascii_idemp c : Py.lower_ascii (Py.lower_ascii c) = Py.lower_ascii c.
Proof.
  destruct c as [[] [] [] [] [] [] [] []]; reflexivity.
Qed.

Lemma lower_idemp s : Py.lower (Py.lower s) = Py.lower s.
Proof. induction s as [|c s IH]; simpl; [done|]. by rewrite lower_ascii_idemp, IH. Qed.

(** ** The process table *)

Lemma alive_lt w p : alive w p = true -> p < length (w_procs w).
Proof.
  unfold alive. destruct (w_procs w !! p) eqn:E; [|done].
  intros _. by apply lookup_lt_Some in E.
Qed.

Lemma alive_reap w p q :
  alive (reap w p) q = if decide (q = p) then false else alive w q.
Proof.
  unfold alive. destruct (decide (q = p)) as [->|Hq]; simpl.
  - rewrite list_lookup_alter_eq. destruct (_ !! _); reflexivity.
  - by rewrite list_lookup_alter_ne.
Qed.

Lemma reap_length w p : length (w_procs (reap w p)) = length (w_procs w).
Proof. apply length_alter. Qed.

Lemma popen_cases w dir res w' :
  popen w dir = (res, w') ->
  (res = Ok (length (w_procs w)) /\
   w_procs w' = w_procs w ++ [ {| p_dir := dir; p_alive := true |} ]) \/
  ((exists e, res = Raise e) /\ w_procs w' = w_procs w).
Proof.
  unfold popen. destruct (w_popen w _); intros [= <- <-]; simpl; eauto.
Qed.

(** What [start] can do to the world and to the runner: spawn a worker and
    keep its handle, returning true or raising the [RuntimeError] of the
    reader thread; or leave the process table and the runner as they are. *)
Lemma start_cases w r res w' r' :
  NoiseFFmpegRunner.start w r = (res, w', r') ->
  ((res = Ok true \/ res = Raise Py.RuntimeError) /\
   NoiseFFmpegRunner.is_running w r = false /\
   w_procs w' = w_procs w
                ++ [ {| p_dir := NoiseFFmpegRunner.hls_dir r; p_alive := true |} ] /\
   r' = NoiseFFmpegRunner.set_process (Some (length (w_procs w))) r) \/
  (res <> Ok true /\ w_procs w' = w_procs w /\ r' = r).
Proof.
  unfold NoiseFFmpegRunner.start.
  destruct (NoiseFFmpegRunner.is_running w r) eqn:Hr.
  { intros [= <- <- <-]. by right. }
  destruct (w_mkdir w _). { intros [= <- <- <-]. by right. }
  destruct (w_which w); simpl; [|intros [= <- <- <-]; by right].
  destruct (popen w _) as [[p|e] w0] eqn:Hp;
    apply popen_cases in Hp as [[Hres Hw] | [[e' Hres] Hw]]; simplify_eq.
  - unfold thread_start. destruct (w_popen w _); simpl;
      intros [= <- <- <-]; left; eauto.
  - repeat case_match; intros [= <- <- <-]; by right.
Qed.

Lemma start_now w r res w' r' :
  NoiseFFmpegRunner.start w r = (res, w', r') -> w_now w' = w_now w.
Proof.
  unfold NoiseFFmpegRunner.start, popen.
  repeat case_match; simplify_eq; intros [= <- <- <-]; done.
Qed.

Lemma stop_cases w r res w' r' :
  NoiseFFmpegRunner.stop w r = (res, w', r') ->
  (NoiseFFmpegRunner._process r = None /\ res = false /\ w' = w /\ r' = r) \/
  (exists p, NoiseFFmpegRunner._process r = Some p /\ res = true /\
             r' = NoiseFFmpegRunner.set_process None r /\
             ((alive w p = false /\ w' = w) \/ (alive w p = true /\ w' = reap w p))).
Proof.
  unfold NoiseFFmpegRunner.stop.
  destruct (NoiseFFmpegRunner._process r) as [p|]; [|intros [= <- <- <-]; by left].
  destruct (alive w p) eqn:E; simpl; intros [= <- <- <-]; right; exists p; eauto 10.
Qed.

(** ** The store *)

Section store.
Context {A : Type} `{!Inhabited A}.
Implicit Types (h : list A).

Lemma store_again h a x (f : A -> A) :
  a < length h ->
  <[a := f (<[a := x]> h !!! a)]> (<[a := x]> h) = <[a := f x]> h.
Proof.
  intros Ha. rewrite list_lookup_total_insert_eq by done.
  apply list_insert_insert_eq.
Qed.

Lemma store_fresh h x : (h ++ [x]) !!! length h = x.
Proof. rewrite lookup_total_app_r by lia. by rewrite Nat.sub_diag. Qed.

Lemma store_old h x a : a < length h -> (h ++ [x]) !!! a = h !!! a.
Proof. intros Ha. by apply lookup_total_app_l. Qed.
End store.

Ltac store_simpl :=
  repeat first
    [ rewrite list_lookup_total_insert_eq by (rewrite ?length_insert; lia)
    | rewrite list_insert_insert_eq
    | rewrite length_insert ].

(** ** The operations as equations *)

#[global] Arguments spawn : simpl never.
#[global] Arguments start_all_body : simpl never.
#[global] Arguments stop_all_body : simpl never.
#[global] Arguments start_record : simpl never.
#[global] Arguments start_stream : simpl never.
#[global] Arguments stop_stream : simpl never.
#[global] Arguments start_all_streams : simpl never.
#[global] Arguments stop_all_streams : simpl never.

Lemma create_eq noise_type s :
  _create_stream_for_noise noise_type s =
  match w_mkdir (world s)
          (base_hls_dir (self s) +:+ "/" +:+ "noise_" +:+ noise_type) with
  | Some e => (Raise e, s)
  | None =>
      (Ok (length (heap s)),
       {| world := world s;
          heap := heap s ++ [new_record (base_hls_dir (self s)) noise_type];
          self := self s |})
  end.
Proof.
  unfold _create_stream_for_noise, bind, the_manager, mkdir, new; simpl.
  by destruct (w_mkdir _ _).
Qed.

Lemma spawn_eq a s :
  a < length (heap s) ->
  spawn a s =
  let '(res, w', r') :=
    NoiseFFmpegRunner.start (world s) (StreamInfo.runner (heap s !!! a)) in
  (res,
   {| world := w';
      heap := <[a := after_spawn res (w_now w') r' (heap s !!! a)]> (heap s);
      self := self s |}).
Proof.
  intros Ha. unfold spawn, bind, assign, runner_start, the_world, ret; simpl.
  store_simpl. simpl.
  destruct (NoiseFFmpegRunner.start _ _) as [[[[]|e] w'] r'] eqn:E; simpl;
    store_simpl; done.
Qed.

Lemma stop_stream_eq stream_id s :
  stop_stream stream_id s =
  match Dict.get stream_id (_streams (self s)) with
  | None => (Ok (failure "Stream not found"), s)
  | Some a =>
      if live (world s) (heap s !!! a) then
        let '(ok, w', r') :=
          NoiseFFmpegRunner.stop (world s) (StreamInfo.runner (heap s !!! a)) in
        (Ok (done_with "Stream stopped" None),
         {| world := w'; heap := <[a := after_stop r' (heap s !!! a)]> (heap s);
            self := self s |})
      else (Ok (done_with "Stream was not running" None), s)
  end.
Proof.
  unfold stop_stream, bind, streams_get, runner_is_running, live; simpl.
  destruct (Dict.get _ _) as [a|]; [|done].
  destruct (NoiseFFmpegRunner.is_running _ _) eqn:Hl; simpl; [|done].
  assert (a < length (heap s)) as Ha.
  { destruct (decide (a < length (heap s))); [done|].
    rewrite list_lookup_total_alt, lookup_ge_None_2 in Hl by lia. done. }
  unfold runner_stop, assign, ret; simpl.
  destruct (NoiseFFmpegRunner.stop _ _) as [[ok w'] r'] eqn:E.
  apply stop_cases in E as [(Hn & _) | (p & Hp & -> & -> & _)].
  { unfold NoiseFFmpegRunner.is_running in Hl. by rewrite Hn in Hl. }
  simpl. store_simpl. done.
Qed.

(** ** Preservation of the invariant *)

Lemma alive_lookup w p :
  alive w p = true <-> exists pr, w_procs w !! p = Some pr /\ p_alive pr = true.
Proof.
  unfold alive. destruct (w_procs w !! p) as [pr|].
  - split; [eauto|]. by intros (? & [= <-] & ?).
  - split; [done|]. by intros (? & ? & _).
Qed.

Lemma live_Some w r :
  live w r = true <->
  exists p, NoiseFFmpegRunner._process (StreamInfo.runner r) = Some p /\
            alive w p = true.
Proof.
  unfold live, NoiseFFmpegRunner.is_running.
  destruct (NoiseFFmpegRunner._process _) as [p|].
  - split; [eauto|]. by intros (? & [= <-] & ?).
  - split; [done|]. by intros (? & ? & _).
Qed.

Lemma live_alloc w (h : list StreamInfo.t) a :
  live w (h !!! a) = true -> a < length h.
Proof.
  intros Hl. destruct (decide (a < length h)); [done|].
  rewrite list_lookup_total_alt, lookup_ge_None_2 in Hl by lia. done.
Qed.

Lemma live_same_procs w w' r :
  w_procs w' = w_procs w -> live w' r = live w r.
Proof.
  intros E. unfold live, NoiseFFmpegRunner.is_running, alive. by rewrite E.
Qed.

Lemma rec_ok_same_procs b m w w' k r :
  w_procs w' = w_procs w -> rec_ok b m w k r -> rec_ok b m w' k r.
Proof.
  intros E [? ? ? ? ? ? ? ?]. split; try done.
  - by rewrite (live_same_procs w w').
  - by rewrite E.
Qed.

Lemma alive_app_old w w' x p :
  w_procs w' = w_procs w ++ [x] -> p < length (w_procs w) ->
  alive w' p = alive w p.
Proof. intros E Hp. unfold alive. by rewrite E, lookup_app_l. Qed.

(** Only the process table of the world and the allocated part of the store
    matter. *)
Lemma wf_frame b s s' :
  wf b s ->
  self s' = self s ->
  w_procs (world s') = w_procs (world s) ->
  length (heap s) <= length (heap s') ->
  (forall a, a < length (heap s) -> heap s' !!! a = heap s !!! a) ->
  wf b s'.
Proof.
  intros [Hk Hi Ha Hr Ho] Em Ew Hlen Hh. split; rewrite ?Em.
  - done.
  - done.
  - intros k a Hg. specialize (Ha _ _ Hg). lia.
  - intros k a Hg. rewrite Hh by eauto.
    eapply rec_ok_same_procs; eauto.
  - intros Hb p pr. rewrite Ew. intros Hp Hal.
    destruct (Ho Hb _ _ Hp Hal) as (k & a & Hg & ? & ?).
    exists k, a. rewrite Hh by eauto. done.
Qed.

(** The same where a process was added that no registered record owns, as
    an operation that raises can leave it. *)
Lemma wf_grow s s' x :
  wf false s ->
  self s' = self s ->
  w_procs (world s') = w_procs (world s) ++ [x] ->
  length (heap s) <= length (heap s') ->
  (forall a, a < length (heap s) -> heap s' !!! a = heap s !!! a) ->
  wf false s'.
Proof.
  intros [Hk Hi Ha Hr Ho] Em Ew Hlen Hh. split; rewrite ?Em; try done.
  - intros k a Hg. specialize (Ha _ _ Hg). lia.
  - intros k a Hg. rewrite Hh by eauto.
    destruct (Hr _ _ Hg) as [? ? ? ? Hl ? Hp ?]. split; try done.
    + intros Hl'. apply Hl. apply live_Some in Hl' as (p & Hp1 & Hal).
      apply live_Some. exists p. split; [done|].
      by rewrite (alive_app_old _ _ _ _ Ew) in Hal by eauto.
    + intros p Hp1. rewrite Ew, length_app. specialize (Hp _ Hp1). lia.
Qed.

Lemma wf_init b w base noises : w_procs w = [] -> wf b (init w base noises).
Proof.
  intros Hw. split; simpl; try done.
  - apply NoDup_nil_2.
  - intros _ p pr. by rewrite Hw.
Qed.

Lemma decays_alive w w' p :
  Forall2 decays (w_procs w) (w_procs w') -> alive w' p = true -> alive w p = true.
Proof.
  intros HF. rewrite !alive_lookup. intros (pr' & Hp & Hal).
  destruct (Forall2_lookup_r _ _ _ _ _ HF Hp) as (pr & Hpr & _ & Hd).
  eauto.
Qed.

Lemma wf_env b s s' : wf b s -> env_step s s' -> wf b s'.
Proof.
  intros [Hk Hi Ha Hr Ho] Hstep. destruct Hstep as [s w' HF]. split; simpl; try done.
  - intros k a Hg. destruct (Hr _ _ Hg) as [? ? ? ? Hl ? Hp ?]. split; try done.
    + intros Hl'. apply Hl. apply live_Some in Hl' as (p & ? & Hal).
      apply live_Some. exists p. split; [done|]. by eapply decays_alive.
    + intros p Hpr. rewrite <- (Forall2_length _ _ _ HF). eauto.
  - intros Hb p pr' Hp Hal.
    destruct (Forall2_lookup_r _ _ _ _ _ HF Hp) as (pr & Hpr & Hdir & Hd).
    destruct (Ho Hb _ _ Hpr (Hd Hal)) as (k & a & ? & ? & ?).
    exists k, a. rewrite Hdir. done.
Qed.

Lemma wf_stop b s a ok w' r' :
  wf b s ->
  live (world s) (heap s !!! a) = true ->
  NoiseFFmpegRunner.stop (world s) (StreamInfo.runner (heap s !!! a)) = (ok, w', r') ->
  wf b {| world := w'; heap := <[a := after_stop r' (heap s !!! a)]> (heap s);
          self := self s |}.
Proof.
  intros [Hk Hi Ha Hr Ho] Hl Hs.
  pose proof (live_alloc _ _ _ Hl) as Hlt.
  apply live_Some in Hl as (p & Hp & Hal).
  apply stop_cases in Hs as [(Hn & _) | (p' & Hp' & -> & -> & Hw)]; [congruence|].
  assert (p' = p) as -> by congruence.
  destruct Hw as [[? _] | [_ ->]]; [congruence|].
  split; simpl; try done.
  - intros k a1 Hg. rewrite length_insert. eauto.
  - intros k a1 Hg. rewrite list_lookup_total_insert.
    destruct (Hr _ _ Hg) as [? ? ? ? Hl1 ? Hp1 Hq]. case_decide as Hd.
    + destruct Hd as [<- _]. split; simpl; try done; by intros _; split.
    + split; try done.
      * intros Hl'. apply Hl1. apply live_Some in Hl' as (q & ? & Hq').
        apply live_Some. exists q. split; [done|].
        rewrite alive_reap in Hq'. by case_decide.
      * intros q Hq'. rewrite reap_length. eauto.
  - intros Hb q pr Hq Hqa.
    assert (alive (reap (world s) p) q = true) as Hal'.
    { apply alive_lookup. eauto. }
    rewrite alive_reap in Hal'. case_decide as Hne; [done|].
    rewrite list_lookup_alter_ne in Hq by done.
    destruct (Ho Hb _ _ Hq Hqa) as (k & a1 & Hg & Hpr & Hdir).
    exists k, a1. rewrite list_lookup_total_insert_ne; [done|].
    intros ->. congruence.
Qed.

Lemma after_spawn_static res now r' r :
  StreamInfo.stream_id (after_spawn res now r' r) = StreamInfo.stream_id r /\
  StreamInfo.noise_type (after_spawn res now r' r) = StreamInfo.noise_type r /\
  StreamInfo.hls_path (after_spawn res now r' r) = StreamInfo.hls_path r /\
  StreamInfo.runner (after_spawn res now r' r) = r'.
Proof. by destruct res as [[]|]. Qed.

Lemma after_spawn_state res now r' r :
  StreamInfo.state (after_spawn res now r' r) =
  match res with Ok true => RUNNING | Ok false => ERROR | Raise _ => STARTING end.
Proof. by destruct res as [[]|]. Qed.

Lemma wf_spawn b s k a res s' :
  wf b s ->
  Dict.get k (_streams (self s)) = Some a ->
  live (world s) (heap s !!! a) = false ->
  spawn a s = (res, s') ->
  (b = true -> exists v, res = Ok v) ->
  wf b s'.
Proof.
  intros [Hk Hi Ha Hr Ho] Hg Hl Hs Hb.
  pose proof (Ha _ _ Hg) as Hlt. rewrite spawn_eq in Hs by done.
  destruct (NoiseFFmpegRunner.start _ _) as [[res0 w'] r'] eqn:Est.
  injection Hs as <- <-.
  pose proof (after_spawn_static res0 (w_now w') r' (heap s !!! a))
    as (Sid & Snt & Spath & Srun).
  pose proof (after_spawn_state res0 (w_now w') r' (heap s !!! a)) as Sst.
  apply start_cases in Est as [(Hres & _ & Hw & ->) | (Hres & Hw & ->)].
  - (* a worker was spawned *)
    split; simpl; try done.
    + intros k1 a1 Hg1. rewrite length_insert. eauto.
    + intros k1 a1 Hg1. rewrite list_lookup_total_insert.
      destruct (Hr _ _ Hg1) as [? ? ? ? Hl1 ? Hp1 Hq]. case_decide as Hd.
      * destruct Hd as [<- _].
        split; rewrite ?Sid, ?Snt, ?Spath, ?Srun, ?Sst; try done.
        -- intros _. destruct Hres as [-> | ->]; [by left | by right].
        -- intros p [= <-]. rewrite Hw, length_app. simpl. lia.
        -- intros Hb'. destruct (Hb Hb') as [v ->].
           destruct Hres as [[= ->] | ?]; [|done]. by split.
      * split; try done.
        -- intros Hl'. apply Hl1. apply live_Some in Hl' as (q & Hq1 & Hq').
           apply live_Some. exists q. split; [done|].
           by rewrite (alive_app_old _ _ _ _ Hw) in Hq' by eauto.
        -- intros q Hq'. rewrite Hw, length_app. specialize (Hp1 _ Hq'). lia.
    + intros Hb' q pr. rewrite Hw. intros Hq Hqa.
      apply lookup_app_Some in Hq as [Hq | [Hge Hq]].
      * destruct (Ho Hb' _ _ Hq Hqa) as (k1 & a1 & Hg1 & Hpr & Hdir).
        exists k1, a1. rewrite list_lookup_total_insert_ne; [done|].
        intros ->. assert (live (world s) (heap s !!! a1) = true); [|congruence].
        apply live_Some. exists q. split; [done|]. apply alive_lookup. eauto.
      * apply list_lookup_singleton_Some in Hq as [Hq <-].
        exists k, a. rewrite list_lookup_total_insert_eq by done.
        rewrite Srun. simpl. split; [done|]. split; [|done]. f_equal. lia.
  - (* no worker was spawned *)
    assert (forall r, live w' r = live (world s) r) as Hlive.
    { intros r. by apply live_same_procs. }
    split; simpl; try done.
    + intros k1 a1 Hg1. rewrite length_insert. eauto.
    + intros k1 a1 Hg1. rewrite list_lookup_total_insert.
      destruct (Hr _ _ Hg1) as [? ? ? ? Hl1 ? Hp1 Hq]. case_decide as Hd.
      * destruct Hd as [<- _]. split; rewrite ?Sid, ?Snt, ?Spath, ?Srun, ?Hw; try done.
        -- unfold live. rewrite Srun. fold (live w' (heap s !!! a)).
           rewrite Hlive. congruence.
        -- rewrite Sst. destruct res0 as [[]|]; done.
        -- intros Hb'. destruct (Hb Hb') as [v ->]. destruct v; [done|].
           split; rewrite ?Sst; done.
      * by apply (rec_ok_same_procs b (self s) (world s)).
    + intros Hb' q pr. rewrite Hw. intros Hq Hqa.
      destruct (Ho Hb' _ _ Hq Hqa) as (k1 & a1 & Hg1 & Hpr & Hdir).
      exists k1, a1. rewrite list_lookup_total_insert. case_decide as Hd; [|done].
      destruct Hd as [<- _]. by rewrite Srun.
Qed.

Lemma new_record_not_live w base nt : live w (new_record base nt) = false.
Proof. reflexivity. Qed.

Lemma wf_create b s nt :
  wf b s ->
  (forall a0, Dict.get ("noise_" +:+ nt) (_streams (self s)) = Some a0 ->
              live (world s) (heap s !!! a0) = false) ->
  wf b {| world := world s;
          heap := heap s ++ [new_record (base_hls_dir (self s)) nt];
          self := {| base_hls_dir := base_hls_dir (self s);
                     noise_types := noise_types (self s);
                     _streams := Dict.set ("noise_" +:+ nt) (length (heap s))
                                   (_streams (self s)) |} |}.
Proof.
  intros [Hk Hi Ha Hr Ho] Hdead. split; simpl.
  - by apply dict_set_NoDup.
  - intros k1 k2 a. rewrite !dict_get_set.
    destruct (String.eqb_spec ("noise_" +:+ nt) k1) as [<-|H1],
             (String.eqb_spec ("noise_" +:+ nt) k2) as [<-|H2]; try done.
    + intros [= <-] Hg. apply Ha in Hg. lia.
    + intros Hg [= <-]. apply Ha in Hg. lia.
    + apply Hi.
  - intros k1 a. rewrite dict_get_set, length_app.
    destruct (String.eqb_spec ("noise_" +:+ nt) k1) as [<-|H1].
    + intros [= <-]. simpl. lia.
    + intros Hg. apply Ha in Hg. lia.
  - intros k1 a. rewrite dict_get_set.
    destruct (String.eqb_spec ("noise_" +:+ nt) k1) as [<-|H1].
    + intros [= <-]. rewrite store_fresh. split; simpl; try done; by intros _; split.
    + intros Hg. rewrite store_old by eauto.
      destruct (Hr _ _ Hg). split; done.
  - intros Hb p pr Hp Hal. destruct (Ho Hb _ _ Hp Hal) as (k1 & a1 & Hg & Hpr & Hdir).
    exists k1, a1. rewrite dict_get_set, store_old by eauto.
    destruct (String.eqb_spec ("noise_" +:+ nt) k1) as [<-|H1]; [|done].
    assert (live (world s) (heap s !!! a1) = true); [|by rewrite Hdead in *].
    apply live_Some. exists p. split; [done|]. apply alive_lookup. eauto.
Qed.

Lemma wf_stop_stream b s stream_id res s' :
  wf b s -> stop_stream stream_id s = (res, s') -> wf b s'.
Proof.
  intros Hwf. rewrite stop_stream_eq.
  destruct (Dict.get _ _) as [a|]; [|by intros [= <- <-]].
  destruct (live _ _) eqn:Hl; [|by intros [= <- <-]].
  destruct (NoiseFFmpegRunner.stop _ _) as [[ok w'] r'] eqn:Est.
  intros [= <- <-]. by eapply wf_stop.
Qed.

Lemma start_record_eq stream_id a s :
  start_record stream_id a s =
  if live (world s) (heap s !!! a)
  then (Ok (done_with "Stream already running" None), s)
  else
    match spawn a s with
    | (Ok true, s') =>
        (Ok (done_with "Stream started"
               (Some ("/hls/" +:+ stream_id +:+ "/stream.m3u8"))), s')
    | (Ok false, s') => (Ok (failure "Failed to start stream"), s')
    | (Raise e, s') => (Raise e, s')
    end.
Proof.
  unfold start_record, bind, runner_is_running, live; simpl.
  destruct (NoiseFFmpegRunner.is_running _ _); [done|].
  by destruct (spawn a s) as [[[]|] ?].
Qed.

Lemma wf_start_record b s k stream_id a res s' :
  wf b s ->
  Dict.get k (_streams (self s)) = Some a ->
  start_record stream_id a s = (res, s') ->
  (b = true -> exists v, res = Ok v) ->
  wf b s'.
Proof.
  intros Hwf Hg. rewrite start_record_eq.
  destruct (live _ _) eqn:Hl; [by intros [= <- <-]|].
  destruct (spawn a s) as [[[]|e] s1] eqn:Es; intros [= <- <-] Hb;
    (eapply wf_spawn; [done..|]); intros Hb'; [eauto..|].
  by destruct (Hb Hb').
Qed.

Lemma start_stream_eq stream_id s :
  start_stream stream_id s =
  match Dict.get stream_id (_streams (self s)) with
  | Some a => start_record stream_id a s
  | None =>
      if negb (Py.startswith "noise_" stream_id)
      then (Ok (failure "Stream not found"), s)
      else if negb (Py.contains (Py.removeprefix "noise_" stream_id)
                      (noise_types (self s)))
      then (Ok (failure "Invalid noise type"), s)
      else
        match w_mkdir (world s) (base_hls_dir (self s) +:+ "/" +:+ stream_id) with
        | Some e => (Raise e, s)
        | None =>
            start_record stream_id (length (heap s))
              {| world := world s;
                 heap := heap s ++ [new_record (base_hls_dir (self s))
                                      (Py.removeprefix "noise_" stream_id)];
                 self := {| base_hls_dir := base_hls_dir (self s);
                            noise_types := noise_types (self s);
                            _streams := Dict.set stream_id (length (heap s))
                                          (_streams (self s)) |} |}
        end
  end.
Proof.
  unfold start_stream, bind at 1, streams_get; simpl.
  destruct (Dict.get _ _) as [a|]; [done|].
  destruct (Py.startswith _ _) eqn:Hp; simpl; [|done].
  unfold bind at 1, the_manager; simpl.
  destruct (Py.contains _ _); simpl; [|done].
  unfold bind at 1. rewrite create_eq.
  rewrite <- (startswith_split _ _ Hp).
  destruct (w_mkdir _ _); [done|]. reflexivity.
Qed.

Lemma wf_start_stream b s stream_id res s' :
  wf b s ->
  start_stream stream_id s = (res, s') ->
  (b = true -> exists v, res = Ok v) ->
  wf b s'.
Proof.
  intros Hwf. rewrite start_stream_eq.
  destruct (Dict.get _ _) as [a|] eqn:Hg; [by eapply wf_start_record|].
  destruct (Py.startswith _ _) eqn:Hp; simpl; [|by intros [= <- <-]].
  destruct (Py.contains _ _); simpl; [|by intros [= <- <-]].
  destruct (w_mkdir _ _); [by intros [= <- <-]|].
  intros Hs Hb. eapply wf_start_record; [| |exact Hs|exact Hb].
  - rewrite (startswith_split _ _ Hp) at 2.
    apply wf_create; [done|].
    intros a0. rewrite <- (startswith_split _ _ Hp). congruence.
  - simpl. apply dict_get_set_eq.
Qed.

(** One iteration of [start_all_streams], by cases. *)
Lemma start_all_body_eq noise results started failed s :
  start_all_body noise (results, started, failed) s =
  if live_stream s noise
  then (Ok (results ++ [already_running_entry noise], S started, failed), s)
  else
    match w_mkdir (world s)
            (base_hls_dir (self s) +:+ "/" +:+ "noise_" +:+ noise) with
    | Some e => (Raise e, s)
    | None =>
        let a := length (heap s) in
        match spawn a {| world := world s;
                         heap := heap s ++ [new_record (base_hls_dir (self s)) noise];
                         self := bind_stream ("noise_" +:+ noise) a (self s) |} with
        | (Ok true, s') =>
            (Ok (results ++ [started_entry noise], S started, failed), s')
        | (Ok false, s') =>
            (Ok (results ++ [failed_entry noise], started, S failed), s')
        | (Raise e, s') =>
            (Raise e, {| world := world s'; heap := heap s'; self := self s |})
        end
    end.
Proof.
  unfold start_all_body, live_stream.
  unfold bind at 1, streams_get. cbv beta iota.
  unfold bind at 1.
  assert (match Dict.get ("noise_" +:+ noise) (_streams (self s)) with
          | Some a => runner_is_running a
          | None => ret false
          end s
          = (Ok match Dict.get ("noise_" +:+ noise) (_streams (self s)) with
                | Some a => live (world s) (heap s !!! a)
                | None => false
                end, s)) as ->.
  { by destruct (Dict.get _ _). }
  cbv beta iota.
  destruct (match Dict.get _ _ with Some _ => _ | None => _ end); [done|].
  unfold bind at 1. rewrite create_eq.
  destruct (w_mkdir _ _); [done|]. cbv beta iota zeta.
  unfold bind at 1.
  rewrite !spawn_eq by (simpl; rewrite length_app; simpl; lia). simpl.
  destruct (NoiseFFmpegRunner.start _ _) as [[[[]|e] w'] r'] eqn:Est; simpl.
  - unfold bind, ret, streams_set; simpl. done.
  - unfold bind, ret, streams_set, deref; simpl.
    rewrite list_lookup_total_insert_eq by (rewrite length_app; simpl; lia).
    done.
  - done.
Qed.

Lemma live_stream_false s noise :
  live_stream s noise = false ->
  forall a0, Dict.get ("noise_" +:+ noise) (_streams (self s)) = Some a0 ->
             live (world s) (heap s !!! a0) = false.
Proof. unfold live_stream. intros H a0 Hg. by rewrite Hg in H. Qed.

Lemma wf_start_all_body b noise acc s res s' :
  wf b s ->
  start_all_body noise acc s = (res, s') ->
  (b = true -> exists v, res = Ok v) ->
  wf b s'.
Proof.
  intros Hwf. destruct acc as [[results started] failed].
  rewrite start_all_body_eq.
  destruct (live_stream s noise) eqn:Hl; [by intros [= <- <-]|].
  pose proof (live_stream_false _ _ Hl) as Hdead.
  destruct (w_mkdir _ _); [by intros [= <- <-]|]. cbv zeta.
  destruct (spawn _ _) as [[[]|e] s1] eqn:Es; intros [= <- <-] Hb.
  1,2: eapply wf_spawn; [apply (wf_create b s noise Hwf Hdead)| | |exact Es|eauto];
    [apply dict_get_set_eq | simpl; by rewrite store_fresh].
  destruct b; [by destruct (Hb eq_refl)|].
  rewrite spawn_eq in Es by (simpl; rewrite length_app; simpl; lia).
  simpl in Es.
  destruct (NoiseFFmpegRunner.start _ _) as [[res0 w'] r'] eqn:Est.
  injection Es as -> <-. simpl.
  apply start_cases in Est as [(_ & _ & Hw & _) | (_ & Hw & _)].
  - eapply wf_grow; [exact Hwf|done|exact Hw| |]; simpl.
    + rewrite length_insert, length_app. lia.
    + intros a Ha. rewrite list_lookup_total_insert_ne by lia.
      by apply store_old.
  - eapply wf_frame; [exact Hwf|done|done| |]; simpl.
    + rewrite length_insert, length_app. lia.
    + intros a Ha. rewrite list_lookup_total_insert_ne by lia.
      by apply store_old.
Qed.

Lemma wf_start_all_loop b noises acc s res s' :
  wf b s ->
  start_all_loop noises acc s = (res, s') ->
  (b = true -> exists v, res = Ok v) ->
  wf b s'.
Proof.
  revert acc s. induction noises as [|noise rest IH]; intros acc s Hwf; simpl.
  - by intros [= <- <-].
  - unfold bind. destruct (start_all_body noise acc s) as [[acc'|e] s1] eqn:Eb.
    + intros Hl Hb. eapply IH; [|exact Hl|exact Hb].
      eapply wf_start_all_body; eauto.
    + intros [= <- <-] Hb. eapply wf_start_all_body; [exact Hwf|exact Eb|].
      intros Hb'. by destruct (Hb Hb').
Qed.

Lemma wf_start_all b s res s' :
  wf b s ->
  start_all_streams s = (res, s') ->
  (b = true -> exists v, res = Ok v) ->
  wf b s'.
Proof.
  intros Hwf. unfold start_all_streams, bind at 1, the_manager. cbv beta iota.
  unfold bind.
  destruct (start_all_loop _ _ s) as [[[[results started] failed]|e] s1] eqn:El;
    intros [= <- <-] Hb; eapply wf_start_all_loop; eauto.
  intros Hb'. by destruct (Hb Hb').
Qed.

Lemma stop_all_body_eq stream_id a results stopped s :
  stop_all_body (stream_id, a) (results, stopped) s =
  if live (world s) (heap s !!! a) then
    let '(ok, w', r') :=
      NoiseFFmpegRunner.stop (world s) (StreamInfo.runner (heap s !!! a)) in
    (Ok (results ++ [status_only stream_id "stopped"], S stopped),
     {| world := w'; heap := <[a := after_stop r' (heap s !!! a)]> (heap s);
        self := self s |})
  else (Ok (results ++ [status_only stream_id "was_not_running"], stopped), s).
Proof.
  unfold stop_all_body, bind, runner_is_running, live; simpl.
  destruct (NoiseFFmpegRunner.is_running _ _) eqn:Hl; simpl; [|done].
  pose proof (live_alloc _ _ _ Hl) as Ha.
  unfold runner_stop, assign, ret; simpl.
  destruct (NoiseFFmpegRunner.stop _ _) as [[ok w'] r'] eqn:E.
  apply stop_cases in E as [(Hn & _) | (p & Hp & -> & -> & _)].
  { unfold NoiseFFmpegRunner.is_running in Hl. by rewrite Hn in Hl. }
  simpl. store_simpl. done.
Qed.

Lemma wf_stop_all_loop b items acc s res s' :
  wf b s -> stop_all_loop items acc s = (res, s') ->
  wf b s' /\ exists v, res = Ok v.
Proof.
  revert acc s. induction items as [|[k a] rest IH]; intros [results n] s Hwf; simpl.
  - intros [= <- <-]. eauto.
  - unfold bind. rewrite stop_all_body_eq.
    destruct (live _ _) eqn:Hl.
    + destruct (NoiseFFmpegRunner.stop _ _) as [[ok w'] r'] eqn:Est.
      apply IH. by eapply wf_stop.
    + by apply IH.
Qed.

Lemma wf_stop_all b s res s' :
  wf b s -> stop_all_streams s = (res, s') -> wf b s' /\ exists v, res = Ok v.
Proof.
  intros Hwf. unfold stop_all_streams, bind at 1, the_manager. cbv beta iota.
  unfold bind.
  destruct (stop_all_loop _ _ s) as [[[results n]|e] s1] eqn:El;
    apply (wf_stop_all_loop b) in El as [? [? ?]]; try done;
    intros [= <- <-]; eauto.
Qed.

(** Every operation keeps the invariant; the strict one if it returns. *)
Lemma wf_run_op b o s res s' :
  wf b s -> run_op o s = (res, s') -> (b = true -> res = Ok tt) -> wf b s'.
Proof.
  intros Hwf. destruct o; unfold run_op, forget, bind.
  - destruct (start_all_streams s) as [[v|e] s1] eqn:E; intros [= <- <-] Hb;
      eapply wf_start_all; eauto. intros Hb'. by specialize (Hb Hb').
  - destruct (stop_all_streams s) as [[v|e] s1] eqn:E; intros [= <- <-] Hb;
      by eapply wf_stop_all.
  - destruct (start_stream stream_id s) as [[v|e] s1] eqn:E; intros [= <- <-] Hb;
      eapply wf_start_stream; eauto. intros Hb'. by specialize (Hb Hb').
  - destruct (stop_stream stream_id s) as [[v|e] s1] eqn:E; intros [= <- <-] Hb;
      by eapply wf_stop_stream.
  - by intros [= <- <-].
  - by intros [= <- <-].
  - by intros [= <- <-].
  - by intros [= <- <-].
Qed.

Lemma completed_reachable s : completed s -> reachable s.
Proof.
  induction 1 as [w base noises Hw | s s' _ IH Hstep | s o s' _ IH Hop].
  - by apply reach_init.
  - by eapply reach_env.
  - by eapply reach_op.
Qed.

Lemma reachable_wf s : reachable s -> wf false s.
Proof.
  induction 1 as [w base noises Hw | s s' _ IH Hstep | s o res s' _ IH Hop].
  - by apply wf_init.
  - by eapply wf_env.
  - by eapply wf_run_op.
Qed.

Lemma completed_wf s : completed s -> wf true s.
Proof.
  induction 1 as [w base noises Hw | s s' _ IH Hstep | s o s' _ IH Hop].
  - by apply wf_init.
  - by eapply wf_env.
  - by eapply wf_run_op.
Qed.

(** ** start(id) followed by get(id) *)

Lemma lookup_record_Some s k r :
  lookup_record s k = Some r <->
  exists a, Dict.get k (_streams (self s)) = Some a /\ r = heap s !!! a.
Proof.
  unfold lookup_record. destruct (Dict.get _ _) as [a|].
  - split; [intros [= <-]; eauto|]. by intros (? & [= <-] & ->).
  - split; [done|]. by intros (? & ? & _).
Qed.

Lemma alive_app_new w w' x :
  w_procs w' = w_procs w ++ [x] -> p_alive x = true ->
  alive w' (length (w_procs w)) = true.
Proof.
  intros E Hx. unfold alive. rewrite E, lookup_app_r by lia.
  by rewrite Nat.sub_diag.
Qed.

(** What [spawn] leaves when it returns. *)
Lemma spawn_post a s ok s' :
  a < length (heap s) ->
  live (world s) (heap s !!! a) = false ->
  spawn a s = (Ok ok, s') ->
  self s' = self s /\ length (heap s') = length (heap s) /\
  (forall a', a' <> a -> heap s' !!! a' = heap s !!! a') /\
  StreamInfo.stream_id (heap s' !!! a) = StreamInfo.stream_id (heap s !!! a) /\
  StreamInfo.noise_type (heap s' !!! a) = StreamInfo.noise_type (heap s !!! a) /\
  if ok
  then StreamInfo.state (heap s' !!! a) = RUNNING /\
       live (world s') (heap s' !!! a) = true /\
       StreamInfo.error_message (heap s' !!! a) = None
  else StreamInfo.state (heap s' !!! a) = ERROR /\
       live (world s') (heap s' !!! a) = false /\
       StreamInfo.error_message (heap s' !!! a) = Some failed_to_start.
Proof.
  intros Ha Hl. rewrite spawn_eq by done.
  destruct (NoiseFFmpegRunner.start _ _) as [[res w'] r'] eqn:Est.
  intros [= -> <-]. simpl. rewrite length_insert.
  split; [done|]. split; [done|].
  split; [intros a' Hne; by rewrite list_lookup_total_insert_ne|].
  rewrite list_lookup_total_insert_eq by done.
  apply start_cases in Est as [([[= ->]|?] & _ & Hw & ->) | (Hres & Hw & ->)];
    try done; simpl.
  - split; [done|]. split; [done|]. split; [done|]. split; [|done].
    apply live_Some. eexists. split; [reflexivity|].
    by eapply alive_app_new.
  - destruct ok; [done|]. simpl. split; [done|]. split; [done|].
    split; [done|]. split; [|done].
    by rewrite (live_same_procs (world s) w').
Qed.

(** What [start_stream] leaves of a registered record when it returns:
    nothing new if its process is live; otherwise the record is RUNNING with
    a live worker, or in ERROR with the message of the failed start. *)
Lemma start_record_post stream_id a s res s' :
  a < length (heap s) ->
  start_record stream_id a s = (Ok res, s') ->
  self s' = self s /\
  ((live (world s) (heap s !!! a) = true /\ s' = s /\
    res = done_with "Stream already running" None) \/
   (live (world s) (heap s !!! a) = false /\
    StreamInfo.state (heap s' !!! a) = RUNNING /\
    live (world s') (heap s' !!! a) = true /\ success res = true) \/
   (live (world s) (heap s !!! a) = false /\
    StreamInfo.state (heap s' !!! a) = ERROR /\
    live (world s') (heap s' !!! a) = false /\
    StreamInfo.error_message (heap s' !!! a) = Some failed_to_start /\
    res = failure "Failed to start stream")).
Proof.
  intros Ha. rewrite start_record_eq.
  destruct (live _ _) eqn:Hl.
  - intros [= <- <-]. split; [done|]. left. eauto.
  - destruct (spawn a s) as [[[]|e] s1] eqn:Es; intros [= <- <-];
      apply spawn_post in Es as (? & _ & _ & _ & _ & ? & ? & ?); try done;
      split; try done; right; [left | right]; done.
Qed.

(** After [start_stream] has returned for a configured parameter, the record
    is registered and has a live worker, or is in ERROR with the message of
    the failed start.  With a live worker it is RUNNING, unless an operation
    has raised before: then it can be one left in STARTING. *)
Lemma start_stream_post b s p res s' :
  wf b s ->
  Py.contains p (noise_types (self s)) = true ->
  start_stream ("noise_" +:+ p) s = (Ok res, s') ->
  exists r,
    lookup_record s' ("noise_" +:+ p) = Some r /\
    ((live (world s') r = true /\ success res = true /\
      (StreamInfo.state r = RUNNING \/
       (b = false /\ StreamInfo.state r = STARTING /\ s' = s /\
        res = done_with "Stream already running" None))) \/
     (StreamInfo.state r = ERROR /\ live (world s') r = false /\
      StreamInfo.error_message r = Some failed_to_start /\
      res = failure "Failed to start stream")).
Proof.
  intros Hwf Hp. rewrite start_stream_eq.
  destruct (Dict.get _ _) as [a|] eqn:Hg.
  - intros Hs. apply start_record_post in Hs as [Hself Hpost];
      [|by eapply wf_alloc].
    exists (heap s' !!! a). split.
    { apply lookup_record_Some. exists a. by rewrite Hself. }
    destruct Hpost as [(Hl & -> & ->) | [(_ & ? & ? & ?) | (_ & ? & ? & ? & ?)]].
    + left. split; [done|]. split; [done|].
      destruct (wf_rec _ _ Hwf _ _ Hg) as [_ _ _ _ Hlive _ _ Hq].
      destruct (Hlive Hl) as [?|Hst]; [by left|].
      destruct b; [|by right].
      destruct (Hq eq_refl) as [Hns _]. done.
    + left. eauto.
    + right. done.
  - rewrite startswith_app, removeprefix_app, Hp. simpl.
    destruct (w_mkdir _ _); [done|].
    intros Hs. apply start_record_post in Hs as [Hself Hpost]; simpl;
      [|rewrite length_app; simpl; lia].
    exists (heap s' !!! length (heap s)). split.
    { apply lookup_record_Some. exists (length (heap s)). rewrite Hself. simpl.
      by rewrite dict_get_set_eq. }
    simpl in Hpost. rewrite store_fresh in Hpost.
    destruct Hpost as [(Hl & _) | [(_ & ? & ? & ?) | (_ & ? & ? & ? & ?)]].
    + discriminate Hl.
    + left. eauto.
    + right. done.
Qed.

(** C2, as stated, fails: a worker that exits on its own leaves its record
    RUNNING, and the [stop] that follows returns without changing that. *)
Lemma running_without_process :
  completed Story.noticed /\
  exists r,
    lookup_record Story.noticed "noise_white" = Some r /\
    live (world Story.noticed) r = false /\
    StreamInfo.state r = RUNNING.
Proof.
  split.
  - eapply (comp_op Story.crashed (Stop "noise_white")); [|reflexivity].
    eapply (comp_env Story.started).
    + eapply (comp_op Story.fresh (Start "noise_white")); [|reflexivity].
      by apply comp_init.
    + apply (env_change Story.started (Story.exits (world Story.started) 0)).
      repeat constructor.
  - eexists. split; [reflexivity|]. split; reflexivity.
Qed.

(** Why the operations before must have returned: a [start] that raised
    because the reader thread could not be started leaves its record
    STARTING with a live worker, and the next [start] answers "Stream
    already running" and leaves it so. *)
Lemma starting_with_live_worker :
  reachable Story.half_started /\
  start_stream "noise_white" Story.half_started
  = (Ok (done_with "Stream already running" None), Story.half_started) /\
  exists r,
    lookup_record Story.half_started "noise_white" = Some r /\
    StreamInfo.state r = STARTING /\
    live (world Story.half_started) r = true.
Proof.
  split; [|split].
  - eapply (reach_op (init Scenario.no_threads "/app/hls" ["white"])
              (Start "noise_white")); [|reflexivity].
    by apply reach_init.
  - reflexivity.
  - eexists. split; [reflexivity|]. split; reflexivity.
Qed.

(** C2, amended. In a registry whose operations have all returned: once
    start(id) has returned for a configured parameter, the registry holds
    the record of id, and it is RUNNING with a live process or in ERROR with
    a non-empty error message; no record is STARTING, a record with a live
    process is RUNNING, and a record without one is STOPPED, in ERROR, or
    RUNNING with the handle of a process that has exited.  When an operation
    has raised, start(id) that returns can also find and leave the record
    STARTING with a live process, answering "Stream already running". *)
Theorem start_then_get :
  (forall s p res s',
      completed s ->
      Py.contains p (noise_types (self s)) = true ->
      start_stream ("noise_" +:+ p) s = (Ok res, s') ->
      exists a r,
        get_stream ("noise_" +:+ p) s' = (Ok (Some a), s') /\
        r = heap s' !!! a /\
        ((StreamInfo.state r = RUNNING /\ live (world s') r = true) \/
         (StreamInfo.state r = ERROR /\
          exists msg, StreamInfo.error_message r = Some msg /\ msg <> ""))) /\
  (forall s k r,
      completed s -> lookup_record s k = Some r ->
      StreamInfo.state r <> STARTING /\
      (live (world s) r = true -> StreamInfo.state r = RUNNING) /\
      (live (world s) r = false ->
       StreamInfo.state r = STOPPED \/ StreamInfo.state r = ERROR \/
       (StreamInfo.state r = RUNNING /\
        exists p, NoiseFFmpegRunner._process (StreamInfo.runner r) = Some p /\
                  alive (world s) p = false))) /\
  (forall s p res s',
      reachable s ->
      Py.contains p (noise_types (self s)) = true ->
      start_stream ("noise_" +:+ p) s = (Ok res, s') ->
      exists a r,
        get_stream ("noise_" +:+ p) s' = (Ok (Some a), s') /\
        r = heap s' !!! a /\
        ((StreamInfo.state r = RUNNING /\ live (world s') r = true) \/
         (StreamInfo.state r = ERROR /\
          exists msg, StreamInfo.error_message r = Some msg /\ msg <> "") \/
         (StreamInfo.state r = STARTING /\ live (world s') r = true /\
          s' = s /\ res = done_with "Stream already running" None))).
Proof.
  split; [|split].
  - intros s p res s' Hs Hp Hst. apply completed_wf in Hs.
    destruct (start_stream_post _ _ _ _ _ Hs Hp Hst) as (r & Hr & Hpost).
    apply lookup_record_Some in Hr as (a & Hg & ->).
    exists a, (heap s' !!! a). split; [|split; [done|]].
    + unfold get_stream, streams_get. by rewrite Hg.
    + destruct Hpost as [(? & _ & [?|(? & _)]) | (? & _ & Hm & _)];
        [by left | done |].
      right. split; [done|]. exists failed_to_start. done.
  - intros s k r Hs Hr. apply completed_wf in Hs.
    apply lookup_record_Some in Hr as (a & Hg & ->).
    destruct (wf_rec _ _ Hs _ _ Hg) as [_ _ _ _ Hl Hh _ Hq].
    destruct (Hq eq_refl) as [Hns _].
    split; [done|]. split.
    { intros Hlive. by destruct (Hl Hlive). }
    intros Hnl.
    destruct (StreamInfo.state (heap s !!! a)) eqn:Est;
      [by left | done | | by right; left].
    right; right. split; [done|].
    destruct (NoiseFFmpegRunner._process (StreamInfo.runner (heap s !!! a)))
      as [p|] eqn:Ep; [|by destruct (Hh eq_refl)].
    exists p. split; [done|].
    unfold live, NoiseFFmpegRunner.is_running in Hnl. by rewrite Ep in Hnl.
  - intros s p res s' Hs Hp Hst. apply reachable_wf in Hs.
    destruct (start_stream_post _ _ _ _ _ Hs Hp Hst) as (r & Hr & Hpost).
    apply lookup_record_Some in Hr as (a & Hg & ->).
    exists a, (heap s' !!! a). split; [|split; [done|]].
    + unfold get_stream, streams_get. by rewrite Hg.
    + destruct Hpost as [(? & _ & [?|(_ & ? & ? & ?)]) | (? & _ & Hm & _)].
      * by left.
      * right; right. done.
      * right; left. split; [done|]. exists failed_to_start. done.
Qed.

Lemma start_then_get_witness :
  completed Story.fresh /\
  Py.contains "white" (noise_types (self Story.fresh)) = true /\
  start_stream ("noise_" +:+ "white") Story.fresh
  = (Ok (done_with "Stream started" (Some "/hls/noise_white/stream.m3u8")),
     Story.started) /\
  exists a r,
    get_stream ("noise_" +:+ "white") Story.started = (Ok (Some a), Story.started) /\
    r = heap Story.started !!! a /\
    ((StreamInfo.state r = RUNNING /\ live (world Story.started) r = true) \/
     (StreamInfo.state r = ERROR /\
      exists msg, StreamInfo.error_message r = Some msg /\ msg <> "")).
Proof.
  assert (completed Story.fresh) as Hr by (by apply comp_init).
  split; [exact Hr|]. split; [reflexivity|]. split; [reflexivity|].
  apply (proj1 start_then_get Story.fresh "white"
           (done_with "Stream started" (Some "/hls/noise_white/stream.m3u8"))
           Story.started Hr); reflexivity.
Defined.

(** ** stop(id) twice *)

(** C4, as stated, fails: when the worker has exited on its own, [stop]
    succeeds without calling the runner, whose handle stays in place. *)
Lemma handle_left_behind :
  reachable Story.crashed /\
  stop_stream "noise_white" Story.crashed
  = (Ok (done_with "Stream was not running" None), Story.crashed) /\
  stop_stream "noise_white" Story.crashed
  = stop_stream "noise_white" (snd (stop_stream "noise_white" Story.crashed)) /\
  exists r,
    lookup_record Story.crashed "noise_white" = Some r /\
    NoiseFFmpegRunner._process (StreamInfo.runner r) = Some 0.
Proof.
  split.
  - eapply (reach_env Story.started).
    + eapply (reach_op Story.fresh (Start "noise_white")); [|reflexivity].
      by apply reach_init.
    + apply (env_change Story.started (Story.exits (world Story.started) 0)).
      repeat constructor.
  - split; [reflexivity|]. split; [reflexivity|].
    eexists. split; reflexivity.
Qed.

(** C4, amended. After a successful stop(id), a second stop(id) succeeds as
    well and changes nothing, and after either call the stream has no live
    process. If the first call found the process live, it cleared the
    runner's handle and left the record STOPPED; the handle of a process
    that had already exited is left in place. *)
Theorem stop_idempotent stream_id s r1 s1 :
  stop_stream stream_id s = (Ok r1, s1) ->
  success r1 = true ->
  stop_stream stream_id s1 = (Ok (done_with "Stream was not running" None), s1) /\
  (exists r, lookup_record s1 stream_id = Some r /\ live (world s1) r = false) /\
  (forall r0,
      lookup_record s stream_id = Some r0 -> live (world s) r0 = true ->
      exists r,
        lookup_record s1 stream_id = Some r /\
        NoiseFFmpegRunner._process (StreamInfo.runner r) = None /\
        StreamInfo.state r = STOPPED) /\
  (forall r0,
      lookup_record s stream_id = Some r0 -> live (world s) r0 = false ->
      s1 = s).
Proof.
  rewrite stop_stream_eq. unfold lookup_record.
  destruct (Dict.get stream_id (_streams (self s))) as [a|] eqn:Hg;
    [|by intros [= <- <-]].
  destruct (live (world s) (heap s !!! a)) eqn:Hl.
  - pose proof (live_alloc _ _ _ Hl) as Ha.
    destruct (NoiseFFmpegRunner.stop _ _) as [[ok w'] r'] eqn:Est.
    intros [= <- <-] _.
    apply stop_cases in Est as [(Hn & _) | (p & Hp & -> & -> & _)].
    { apply live_Some in Hl as (? & ? & _). congruence. }
    rewrite stop_stream_eq. simpl. rewrite Hg.
    rewrite list_lookup_total_insert_eq by done.
    split; [done|]. split; [eauto|]. split; [|intros ? [= <-]; congruence].
    intros r0 _ _. eauto.
  - intros [= <- <-] _. rewrite stop_stream_eq, Hg, Hl.
    split; [done|]. split; [eauto|]. split; [|done].
    intros r0 [= <-]. congruence.
Qed.

Lemma stop_idempotent_witness :
  stop_stream "noise_white" Story.started
  = (Ok (done_with "Stream stopped" None),
     snd (stop_stream "noise_white" Story.started)) /\
  stop_stream "noise_white" (snd (stop_stream "noise_white" Story.started))
  = (Ok (done_with "Stream was not running" None),
     snd (stop_stream "noise_white" Story.started)).
Proof.
  split; [reflexivity|].
  apply (stop_idempotent "noise_white" Story.started
           (done_with "Stream stopped" None)); reflexivity.
Defined.

(** ** The identifier scheme *)

Lemma init_noise_types w base noises p :
  p ∈ noises ->
  Py.contains (Py.lower p) (noise_types (self (init w base noises))) = true.
Proof.
  intros Hp. apply contains_elem. simpl.
  by apply (list_elem_of_fmap_2 Py.lower).
Qed.

Lemma start_record_frame stream_id a s res s' :
  a < length (heap s) ->
  start_record stream_id a s = (res, s') ->
  self s' = self s /\ length (heap s') = length (heap s) /\
  StreamInfo.stream_id (heap s' !!! a) = StreamInfo.stream_id (heap s !!! a) /\
  StreamInfo.noise_type (heap s' !!! a) = StreamInfo.noise_type (heap s !!! a) /\
  forall a', a' <> a -> heap s' !!! a' = heap s !!! a'.
Proof.
  intros Ha. rewrite start_record_eq.
  destruct (live _ _); [by intros [= <- <-]|].
  rewrite spawn_eq by done.
  destruct (NoiseFFmpegRunner.start _ _) as [[[[]|e] w'] r'];
    intros [= <- <-]; simpl; rewrite length_insert,
      list_lookup_total_insert_eq by done;
    (repeat split; try done);
    intros a' Hne; by rewrite list_lookup_total_insert_ne.
Qed.

(** C8. The identifier of a configured parameter is "noise_" followed by the
    lower-cased parameter. [start_stream] on such an identifier without a
    record either fails in [mkdir] and leaves the registry as it was, or
    registers a new record for exactly that parameter, whatever the spawn
    then does. On an identifier that is not registered and does not decode
    to a configured parameter it answers "Stream not found" or "Invalid noise
    type" and changes nothing. *)
Theorem identifier_round_trip :
  (forall w base noises p,
      p ∈ noises ->
      Py.contains (Py.lower p) (noise_types (self (init w base noises))) = true) /\
  (forall base p,
      StreamInfo.stream_id (new_record base (Py.lower p)) = "noise_" +:+ Py.lower p /\
      Py.startswith "noise_" (StreamInfo.stream_id (new_record base (Py.lower p)))
      = true /\
      Py.removeprefix "noise_" (StreamInfo.stream_id (new_record base (Py.lower p)))
      = Py.lower p) /\
  (forall s p,
      Py.contains p (noise_types (self s)) = true ->
      lookup_record s ("noise_" +:+ p) = None ->
      match w_mkdir (world s) (base_hls_dir (self s) +:+ "/" +:+ "noise_" +:+ p) with
      | Some e => start_stream ("noise_" +:+ p) s = (Raise e, s)
      | None =>
          exists res s' r,
            start_stream ("noise_" +:+ p) s = (res, s') /\
            length (heap s') = S (length (heap s)) /\
            get_stream ("noise_" +:+ p) s' = (Ok (Some (length (heap s))), s') /\
            lookup_record s' ("noise_" +:+ p) = Some r /\
            StreamInfo.noise_type r = p /\
            StreamInfo.stream_id r = "noise_" +:+ p
      end) /\
  (forall s stream_id,
      lookup_record s stream_id = None ->
      (Py.startswith "noise_" stream_id = false ->
       start_stream stream_id s = (Ok (failure "Stream not found"), s)) /\
      (Py.startswith "noise_" stream_id = true ->
       Py.contains (Py.removeprefix "noise_" stream_id) (noise_types (self s))
       = false ->
       start_stream stream_id s = (Ok (failure "Invalid noise type"), s))).
Proof.
  split; [exact init_noise_types|]. split; [|split].
  - intros base p. simpl. by rewrite startswith_app, removeprefix_app.
  - intros s p Hp Hnone. unfold lookup_record in Hnone.
    destruct (Dict.get ("noise_" +:+ p) (_streams (self s))) eqn:Hg; [done|].
    rewrite start_stream_eq, Hg, startswith_app, removeprefix_app, Hp. simpl.
    destruct (w_mkdir _ _); [done|].
    destruct (start_record _ _ _) as [res s'] eqn:Es.
    apply start_record_frame in Es as (Hself & Hlen & Hid & Hnt & _);
      [|simpl; rewrite length_app; simpl; lia].
    simpl in *. rewrite store_fresh in Hid, Hnt. rewrite length_app in Hlen.
    exists res, s', (heap s' !!! length (heap s)).
    split; [done|]. split; [simpl in Hlen; lia|].
    unfold get_stream, streams_get, lookup_record. rewrite Hself. simpl.
    rewrite dict_get_set_eq. done.
  - intros s stream_id Hnone. unfold lookup_record in Hnone.
    destruct (Dict.get stream_id (_streams (self s))) eqn:Hg; [done|].
    rewrite start_stream_eq, Hg. split.
    + by intros ->.
    + by intros -> ->.
Qed.

Lemma identifier_round_trip_witness :
  Py.contains "pink" (noise_types (self Story.fresh)) = true /\
  lookup_record Story.fresh ("noise_" +:+ "pink") = None /\
  exists res s' r,
    start_stream ("noise_" +:+ "pink") Story.fresh = (res, s') /\
    length (heap s') = S (length (heap Story.fresh)) /\
    get_stream ("noise_" +:+ "pink") s' = (Ok (Some (length (heap Story.fresh))), s') /\
    lookup_record s' ("noise_" +:+ "pink") = Some r /\
    StreamInfo.noise_type r = "pink" /\
    StreamInfo.stream_id r = "noise_" +:+ "pink".
Proof.
  split; [reflexivity|]. split; [reflexivity|].
  apply (proj1 (proj2 (proj2 identifier_round_trip)) Story.fresh "pink");
    reflexivity.
Defined.

(** ** What the read-only operations hand out *)

Lemma spawn_self a s res s' : spawn a s = (res, s') -> self s' = self s.
Proof.
  unfold spawn, bind, assign, runner_start, the_world, ret; simpl.
  destruct (NoiseFFmpegRunner.start _ _) as [[[[]|e] w'] r']; simpl;
    by intros [= <- <-].
Qed.

Lemma start_record_self stream_id a s res s' :
  start_record stream_id a s = (res, s') -> self s' = self s.
Proof.
  rewrite start_record_eq. destruct (live _ _); [by intros [= <- <-]|].
  destruct (spawn a s) as [[[]|e] s1] eqn:Es; intros [= <- <-];
    by eapply spawn_self.
Qed.

Lemma start_stream_keeps s stream_id res s' k a :
  start_stream stream_id s = (res, s') ->
  Dict.get k (_streams (self s)) = Some a ->
  Dict.get k (_streams (self s')) = Some a.
Proof.
  rewrite start_stream_eq. intros Hs Hk.
  destruct (Dict.get stream_id _) as [a0|] eqn:Hg.
  { apply start_record_self in Hs. by rewrite Hs. }
  destruct (Py.startswith _ _); simpl in Hs; [|by injection Hs as <- <-].
  destruct (Py.contains _ _); simpl in Hs; [|by injection Hs as <- <-].
  destruct (w_mkdir _ _); [by injection Hs as <- <-|].
  apply start_record_self in Hs. rewrite Hs. simpl.
  rewrite dict_get_set_ne; [done|]. intros ->. congruence.
Qed.

Lemma stop_stream_self s stream_id res s' :
  stop_stream stream_id s = (res, s') -> self s' = self s.
Proof.
  rewrite stop_stream_eq. destruct (Dict.get _ _); [|by intros [= <- <-]].
  destruct (live _ _); [|by intros [= <- <-]].
  destruct (NoiseFFmpegRunner.stop _ _) as [[ok w'] r']. by intros [= <- <-].
Qed.

Lemma stop_all_loop_self items acc s res s' :
  stop_all_loop items acc s = (res, s') -> self s' = self s.
Proof.
  revert acc s. induction items as [|[k a] rest IH]; intros [results n] s; simpl.
  - by intros [= <- <-].
  - unfold bind. rewrite stop_all_body_eq. destruct (live _ _).
    + destruct (NoiseFFmpegRunner.stop _ _) as [[ok w'] r'].
      intros H. by apply IH in H.
    + apply IH.
Qed.

Lemma stop_all_self s res s' : stop_all_streams s = (res, s') -> self s' = self s.
Proof.
  unfold stop_all_streams, bind at 1, the_manager. cbv beta iota. unfold bind.
  destruct (stop_all_loop _ _ s) as [[[results n]|e] s1] eqn:El;
    intros [= <- <-]; by eapply stop_all_loop_self.
Qed.

Lemma in_place_keeps o s res s' k a :
  in_place o = true ->
  run_op o s = (res, s') ->
  Dict.get k (_streams (self s)) = Some a ->
  Dict.get k (_streams (self s')) = Some a.
Proof.
  destruct o; try done; intros _; unfold run_op, forget, bind.
  - destruct (stop_all_streams s) as [[v|e] s1] eqn:E; intros [= <- <-];
      apply stop_all_self in E; by rewrite E.
  - destruct (start_stream stream_id s) as [[v|e] s1] eqn:E; intros [= <- <-];
      by eapply start_stream_keeps.
  - destruct (stop_stream stream_id s) as [[v|e] s1] eqn:E; intros [= <- <-];
      apply stop_stream_self in E; by rewrite E.
  - by intros [= <- <-].
  - by intros [= <- <-].
  - by intros [= <- <-].
  - by intros [= <- <-].
Qed.

(** C9, as stated, fails for get(id) and list(): what they return is the
    registry's own record, and a later stop(id) changes it. *)
Lemma returned_record_is_shared :
  get_stream "noise_white" Story.started = (Ok (Some 0), Story.started) /\
  get_streams Story.started = (Ok [("noise_white", 0)], Story.started) /\
  StreamInfo.state (heap Story.started !!! 0) = RUNNING /\
  StreamInfo.state (heap (snd (stop_stream "noise_white" Story.started)) !!! 0)
  = STOPPED.
Proof. repeat split; reflexivity. Qed.

(** C9, amended. [get_status] and [health_check] change nothing and return
    structures made of the field values read at the call; [get_streams]
    returns the bindings of the registry and [get_stream] the object bound to
    the identifier. These objects are the registry's own: every operation
    other than [start_all_streams] leaves each identifier bound to the same
    object and updates that object in place, so the holder of a returned
    record sees the registry's later state. *)
Theorem snapshots_and_shared_records :
  (forall s, exists v,
      get_status s = (Ok v, s) /\
      gs_streams v = map (StreamInfo.to_dict (world s)) (records s)) /\
  (forall s, exists v,
      health_check s = (Ok v, s) /\
      hs_streams v = map (StreamInfo.health_check (world s)) (records s)) /\
  (forall s, get_streams s = (Ok (_streams (self s)), s)) /\
  (forall s stream_id,
      get_stream stream_id s = (Ok (Dict.get stream_id (_streams (self s))), s)) /\
  (forall s stream_id a o res s',
      get_stream stream_id s = (Ok (Some a), s) ->
      in_place o = true ->
      run_op o s = (res, s') ->
      get_stream stream_id s' = (Ok (Some a), s') /\
      lookup_record s' stream_id = Some (heap s' !!! a)).
Proof.
  split; [|split; [|split; [|split]]].
  - intros s. eexists. split; reflexivity.
  - intros s. eexists. split; reflexivity.
  - done.
  - done.
  - intros s stream_id a o res s' Hget Ho Hrun.
    unfold get_stream, streams_get in *. injection Hget as Hg.
    pose proof (in_place_keeps _ _ _ _ _ _ Ho Hrun Hg) as Hg'.
    unfold lookup_record. by rewrite Hg'.
Qed.

Lemma snapshots_and_shared_records_witness :
  get_stream "noise_white" Story.started = (Ok (Some 0), Story.started) /\
  in_place (Stop "noise_white") = true /\
  lookup_record (snd (run_op (Stop "noise_white") Story.started)) "noise_white"
  = Some (heap (snd (run_op (Stop "noise_white") Story.started)) !!! 0).
Proof.
  split; [reflexivity|]. split; [reflexivity|].
  apply (proj2 (proj2 (proj2 (proj2 snapshots_and_shared_records)))
           Story.started "noise_white" 0 (Stop "noise_white") (Ok tt));
    reflexivity.
Defined.

(** ** The health monitor *)

Lemma stop_stream_returns stream_id s :
  exists r s', stop_stream stream_id s = (Ok r, s').
Proof.
  rewrite stop_stream_eq. destruct (Dict.get _ _); [|eauto].
  destruct (live _ _); [|eauto].
  destruct (NoiseFFmpegRunner.stop _ _) as [[ok w'] r']. eauto.
Qed.

(** The calls of the loop are whole stop/start pairs for a prefix of the
    selected identifiers, and for all of them if no call raises. *)
Lemma restart_loop_calls streams s res calls s' :
  App.restart_loop streams s = (res, calls, s') ->
  (exists n, calls = stop_start (take n (restart_ids streams))) /\
  (res = Ok tt -> calls = stop_start (restart_ids streams)).
Proof.
  revert s calls. induction streams as [|h rest IH]; intros s calls; simpl.
  - intros [= <- <- <-]. split; [by exists 0|done].
  - unfold restart_ids; simpl. fold (restart_ids rest).
    destruct (App.needs_restart h); [|apply IH].
    destruct (stop_stream_returns (StreamInfo.h_stream_id h) s) as (r & s1 & ->).
    destruct (start_stream _ s1) as [[r2|e] s2].
    + destruct (App.restart_loop rest s2) as [[res0 calls0] s3] eqn:El.
      intros [= <- <- <-]. apply IH in El as [[n ->] Hall]. split.
      * by exists (S n).
      * intros Hres. simpl. by rewrite Hall.
    + intros [= <- <- <-]. split; [by exists 1|done].
Qed.

Lemma records_ids b s :
  wf b s -> map StreamInfo.stream_id (records s) = Dict.keys (_streams (self s)).
Proof.
  intros Hwf. unfold records, Dict.values, Dict.keys.
  assert (forall k a, (k, a) ∈ _streams (self s) ->
                      StreamInfo.stream_id (heap s !!! a) = k) as Hid.
  { intros k a Hin. apply (dict_elem_get _ _ _ (wf_keys _ _ Hwf)) in Hin.
    by destruct (wf_rec _ _ Hwf _ _ Hin). }
  induction (_streams (self s)) as [|[k a] d IH]; [done|]. simpl. f_equal.
  - apply Hid. left.
  - apply IH. intros k' a' Hin. apply Hid. by right.
Qed.

Lemma restart_ids_report w recs :
  restart_ids (map (StreamInfo.health_check w) recs) =
  map StreamInfo.stream_id
    (List.filter (fun r => App.needs_restart (StreamInfo.health_check w r)) recs).
Proof.
  unfold restart_ids. induction recs as [|r recs IH]; [done|]. simpl.
  destruct (App.needs_restart _); simpl; [|done].
  by rewrite health_stream_id, IH.
Qed.

Lemma NoDup_map_filter {A B} (f : A -> B) (p : A -> bool) l :
  NoDup (map f l) -> NoDup (map f (List.filter p l)).
Proof.
  induction l as [|x l IH]; simpl; [done|]. rewrite NoDup_cons. intros [Hx Hl].
  destruct (p x); simpl; [|by apply IH]. apply NoDup_cons. split; [|by apply IH].
  intros Hin. apply Hx. apply list_elem_of_fmap in Hin as (y & -> & Hy).
  apply list_elem_of_fmap. exists y. split; [done|].
  apply list_elem_of_In. apply list_elem_of_In, filter_In in Hy. tauto.
Qed.

Lemma needs_restart_spec w r :
  App.needs_restart (StreamInfo.health_check w r) = true <->
  status_of w r = "unhealthy" /\ live w r = true.
Proof.
  unfold App.needs_restart. rewrite andb_true_iff, String.eqb_eq.
  by rewrite process_running_live.
Qed.

Lemma restart_ids_elem b s stream_id :
  wf b s ->
  stream_id ∈ restart_ids (report s) <->
  exists r, lookup_record s stream_id = Some r /\
            status_of (world s) r = "unhealthy" /\ live (world s) r = true.
Proof.
  intros Hwf. unfold report. rewrite restart_ids_report, list_elem_of_fmap.
  split.
  - intros (r & -> & Hr). apply list_elem_of_In, filter_In in Hr as [Hr Hn].
    apply needs_restart_spec in Hn. exists r. split; [|done].
    apply list_elem_of_In in Hr. unfold records in Hr.
    apply list_elem_of_fmap in Hr as (a & -> & Ha).
    unfold Dict.values in Ha. apply list_elem_of_fmap in Ha as ([k a'] & -> & Hin).
    simpl. apply (dict_elem_get _ _ _ (wf_keys _ _ Hwf)) in Hin.
    destruct (wf_rec _ _ Hwf _ _ Hin) as [-> _ _ _ _ _ _ _].
    apply lookup_record_Some. eauto.
  - intros (r & Hr & Hn). apply lookup_record_Some in Hr as (a & Hg & ->).
    exists (heap s !!! a). split.
    + by destruct (wf_rec _ _ Hwf _ _ Hg).
    + apply list_elem_of_In, filter_In. split; [|by apply needs_restart_spec].
      apply list_elem_of_In. unfold records. apply list_elem_of_fmap.
      exists a. split; [done|]. by eapply dict_get_Some_value.
Qed.

Lemma monitor_cycle_calls s e calls s' :
  App.monitor_cycle s = (e, calls, s') ->
  (exists n, calls = stop_start (take n (restart_ids (report s)))) /\
  (e = App.Completed -> calls = stop_start (restart_ids (report s))).
Proof.
  intros Hc. unfold App.monitor_cycle, health_check in Hc. simpl in Hc.
  fold (report s) in Hc.
  destruct (App.restart_loop (report s) s) as [[res calls0] s1] eqn:El.
  apply restart_loop_calls in El as [Hpre Hall].
  destruct res as [[]|e0]; injection Hc as <- <- <-; [|done].
  split; [done|]. intros _. by apply Hall.
Qed.

Lemma issue_all_app calls1 calls2 s :
  App.issue_all (calls1 ++ calls2) s = App.issue_all calls2 (App.issue_all calls1 s).
Proof. apply fold_left_app. Qed.

(** The system that the loop leaves is the one its calls make, one after
    the other; and when the loop raises, it is the start of the last pair
    that raised. *)
Lemma restart_loop_spec streams s res calls s' :
  App.restart_loop streams s = (res, calls, s') ->
  s' = App.issue_all calls s /\
  match res with
  | Ok _ => calls = stop_start (restart_ids streams)
  | Raise e =>
      exists n k,
        restart_ids streams !! n = Some k /\
        calls = stop_start (take (S n) (restart_ids streams)) /\
        start_stream k
          (App.issue_all (stop_start (take n (restart_ids streams))
                          ++ [App.CallStop k]) s)
        = (Raise e, s')
  end.
Proof.
  revert s res calls s'. induction streams as [|h rest IH]; intros s res calls s'; simpl.
  - intros [= <- <- <-]. done.
  - unfold restart_ids; simpl. fold (restart_ids rest).
    destruct (App.needs_restart h); [|apply IH]. simpl.
    destruct (stop_stream (StreamInfo.h_stream_id h) s) as [r1 s1] eqn:E1.
    destruct (stop_stream_returns (StreamInfo.h_stream_id h) s) as (r & s1' & E1').
    rewrite E1 in E1'. injection E1' as -> <-.
    destruct (start_stream _ s1) as [[r2|e] s2] eqn:E2.
    + destruct (App.restart_loop rest s2) as [[res0 calls0] s3] eqn:El.
      intros [= <- <- <-]. apply IH in El as [Hs3 Hres].
      assert (App.issue_all [App.CallStop (StreamInfo.h_stream_id h);
                             App.CallStart (StreamInfo.h_stream_id h)] s = s2) as Hs2.
      { unfold App.issue_all. simpl. by rewrite E1; simpl; rewrite E2. }
      split.
      * rewrite Hs3, <- Hs2. reflexivity.
      * destruct res0 as [[]|e].
        -- by rewrite Hres.
        -- destruct Hres as (n & k & Hk & -> & Hst).
           exists (S n), k. split; [done|]. split; [done|].
           rewrite <- Hst. f_equal. rewrite <- Hs2. reflexivity.
    + intros [= <- <- <-]. split.
      * unfold App.issue_all. simpl. by rewrite E1; simpl; rewrite E2.
      * exists 0, (StreamInfo.h_stream_id h). split; [done|]. split; [done|].
        unfold App.issue_all. simpl. by rewrite E1.
Qed.

(** C6, as stated, fails: the three streams of [Story.all_started] are
    unhealthy with a live process, the restart of the first raises, and the
    cycle ends without a call for the other two. *)
Lemma monitor_stops_at_fault :
  reachable Story.all_started /\
  restart_ids (report Story.all_started)
  = ["noise_white"; "noise_pink"; "noise_brown"] /\
  fst (App.monitor_cycle Story.all_started)
  = (App.Faulted Py.OSError,
     [App.CallStop "noise_white"; App.CallStart "noise_white"]).
Proof.
  split; [|split].
  - eapply (reach_op (init Scenario.three_spawns "/app/hls" ["white"; "pink"; "brown"])
              StartAll (Ok tt)); [by apply reach_init|].
    vm_compute. reflexivity.
  - vm_compute. reflexivity.
  - vm_compute. reflexivity.
Qed.

(** C6, amended. In one evaluation cycle the monitor selects the streams
    that the health report of that cycle shows unhealthy with a live
    process, each once, and goes through them in the order of the report,
    calling [stop_stream] and then [start_stream] for each; these calls are
    all it does to the system.  When the cycle completes there is one stop
    followed by one start for each selected stream and no other call.  It
    is cut short only by an exception: of the health check, before any
    call, or of a [start_stream], and then the streams up to that one have
    had their calls and the selected streams after it have had none. *)
Theorem monitor_restarts s e calls s' :
  reachable s ->
  App.monitor_cycle s = (e, calls, s') ->
  let ids := restart_ids (report s) in
  NoDup ids /\
  (forall stream_id,
      stream_id ∈ ids <->
      exists r, lookup_record s stream_id = Some r /\
                status_of (world s) r = "unhealthy" /\ live (world s) r = true) /\
  s' = App.issue_all calls s /\
  match e with
  | App.Completed => calls = stop_start ids
  | App.Faulted x =>
      (calls = [] /\ exists s0, health_check s = (Raise x, s0)) \/
      exists n k,
        ids !! n = Some k /\
        calls = stop_start (take (S n) ids) /\
        start_stream k
          (App.issue_all (stop_start (take n ids) ++ [App.CallStop k]) s)
        = (Raise x, s')
  end.
Proof.
  intros Hs Hc. apply reachable_wf in Hs. cbv zeta.
  split; [|split].
  - unfold report. rewrite restart_ids_report. apply NoDup_map_filter.
    rewrite (records_ids _ _ Hs). by apply (wf_keys _ _ Hs).
  - intros stream_id. by eapply restart_ids_elem.
  - unfold App.monitor_cycle, health_check in Hc. simpl in Hc.
    fold (report s) in Hc.
    destruct (App.restart_loop (report s) s) as [[res calls0] s1] eqn:El.
    apply restart_loop_spec in El as [Hs1 Hres].
    destruct res as [[]|e0]; injection Hc as <- <- <-; [done|].
    split; [done|]. by right.
Qed.

Lemma monitor_restarts_witness :
  reachable Story.stale /\
  fst (App.monitor_cycle Story.stale)
  = (App.Completed, [App.CallStop "noise_white"; App.CallStart "noise_white"]) /\
  [App.CallStop "noise_white"; App.CallStart "noise_white"]
  = stop_start (restart_ids (report Story.stale)) /\
  snd (App.monitor_cycle Story.stale)
  = App.issue_all [App.CallStop "noise_white"; App.CallStart "noise_white"]
      Story.stale.
Proof.
  assert (reachable Story.stale) as Hr.
  { eapply (reach_env Story.started).
    - eapply (reach_op Story.fresh (Start "noise_white")); [|reflexivity].
      by apply reach_init.
    - apply (env_change Story.started (world Story.stale)).
      repeat constructor. }
  split; [exact Hr|]. split; [reflexivity|].
  destruct (monitor_restarts Story.stale App.Completed
              [App.CallStop "noise_white"; App.CallStart "noise_white"]
              (snd (App.monitor_cycle Story.stale)) Hr eq_refl)
    as (_ & _ & Hs' & Hc).
  split; [exact Hc | exact Hs'].
Defined.

(** ** Records in state ERROR *)

Lemma error_unhealthy w r :
  StreamInfo.state r = ERROR -> status_of w r = "unhealthy".
Proof.
  intros Hs. rewrite status_of_classify, Hs. unfold StreamInfo.classify. done.
Qed.

Lemma unhealthy_degraded l h :
  h ∈ l -> StreamInfo.h_status h = "unhealthy" -> overall l = "degraded".
Proof.
  intros Hin Hs. rewrite overall_eq. unfold overall_spec.
  assert (existsb (has_status "unhealthy") l = true) as ->; [|done].
  apply existsb_exists. exists h. split; [by apply list_elem_of_In|].
  unfold has_status. rewrite Hs. done.
Qed.

Lemma failed_start_leaves_error s stream_id res s' :
  wf false s ->
  start_stream stream_id s = (Ok res, s') ->
  res = failure "Failed to start stream" ->
  exists r,
    lookup_record s' stream_id = Some r /\
    StreamInfo.state r = ERROR /\ live (world s') r = false.
Proof.
  intros Hwf. rewrite start_stream_eq.
  destruct (Dict.get _ _) as [a|] eqn:Hg.
  - intros Hs ->. apply start_record_post in Hs as [Hself Hpost];
      [|by eapply wf_alloc].
    exists (heap s' !!! a). split.
    + apply lookup_record_Some. exists a. by rewrite Hself.
    + destruct Hpost as [(_ & _ & ?) | [(_ & _ & _ & ?) | (_ & ? & ? & _)]]; done.
  - destruct (Py.startswith _ _); simpl; [|by intros [= <- <-]].
    destruct (Py.contains _ _); simpl; [|by intros [= <- <-]].
    destruct (w_mkdir _ _); [done|].
    intros Hs ->. apply start_record_post in Hs as [Hself Hpost]; simpl;
      [|rewrite length_app; simpl; lia].
    exists (heap s' !!! length (heap s)). split.
    + apply lookup_record_Some. exists (length (heap s)). rewrite Hself. simpl.
      by rewrite dict_get_set_eq.
    + destruct Hpost as [(_ & _ & ?) | [(_ & _ & _ & ?) | (_ & ? & ? & _)]]; done.
Qed.

Lemma stop_start_elem c ids :
  c ∈ stop_start ids ->
  exists stream_id,
    stream_id ∈ ids /\ (c = App.CallStop stream_id \/ c = App.CallStart stream_id).
Proof.
  induction ids as [|i ids IH]; simpl.
  - intros H. by apply elem_of_nil in H.
  - rewrite !elem_of_cons. intros [-> | [-> | H]].
    + exists i. split; [by left | by left].
    + exists i. split; [by left | by right].
    + destruct (IH H) as (j & ? & ?). exists j. split; [by right | done].
Qed.

(** C10. A record in state ERROR is classified "unhealthy" whatever its
    process and manifest are, so the aggregate status is "degraded" as soon
    as one is registered; a start that fails leaves such a record, without a
    live process; and since the monitor restarts only streams that are
    unhealthy with a live process, it issues no call for it. *)
Theorem error_is_unhealthy :
  (forall w r, StreamInfo.state r = ERROR -> status_of w r = "unhealthy") /\
  (forall s k r,
      lookup_record s k = Some r -> StreamInfo.state r = ERROR ->
      exists h, health_check s = (Ok h, s) /\ hs_status h = "degraded") /\
  (forall s stream_id s',
      reachable s ->
      start_stream stream_id s = (Ok (failure "Failed to start stream"), s') ->
      exists r,
        lookup_record s' stream_id = Some r /\
        StreamInfo.state r = ERROR /\ live (world s') r = false) /\
  (forall s k r e calls s',
      reachable s ->
      lookup_record s k = Some r -> StreamInfo.state r = ERROR ->
      App.monitor_cycle s = (e, calls, s') ->
      App.needs_restart (StreamInfo.health_check (world s) r) = false /\
      (App.CallStop k ∉ calls) /\ (App.CallStart k ∉ calls)).
Proof.
  split; [exact error_unhealthy|]. split; [|split].
  - intros s k r Hr Hst. eexists. split; [reflexivity|]. simpl.
    apply lookup_record_Some in Hr as (a & Hg & ->).
    apply (unhealthy_degraded _ (StreamInfo.health_check (world s) (heap s !!! a))).
    + apply list_elem_of_fmap. exists (heap s !!! a). split; [done|].
      unfold records. apply list_elem_of_fmap. exists a. split; [done|].
      by eapply dict_get_Some_value.
    + by apply error_unhealthy.
  - intros s stream_id s' Hs Hst. apply reachable_wf in Hs.
    by eapply failed_start_leaves_error.
  - intros s k r e calls s' Hs Hr Hst Hc.
    pose proof (reachable_wf _ Hs) as Hwf.
    assert (live (world s) r = false) as Hdead.
    { apply lookup_record_Some in Hr as (a & Hg & ->).
      destruct (wf_rec _ _ Hwf _ _ Hg) as [_ _ _ _ Hl _ _ _].
      destruct (live _ _); [|done]. destruct (Hl eq_refl); congruence. }
    assert (k ∉ restart_ids (report s)) as Hk.
    { intros Hin. apply (restart_ids_elem _ _ _ Hwf) in Hin as (r' & Hr' & _ & Hl).
      congruence. }
    split.
    { destruct (App.needs_restart _) eqn:Hn; [|done].
      apply needs_restart_spec in Hn as [_ ?]. congruence. }
    destruct (monitor_cycle_calls _ _ _ _ Hc) as ([n ->] & _).
    split; intros Hin; apply stop_start_elem in Hin as (j & Hj & [Hc'|Hc']);
      try done; injection Hc' as <-; apply Hk; by eapply subseteq_take.
Qed.

Lemma error_is_unhealthy_witness :
  reachable Story.bare /\
  start_stream "noise_white" Story.bare
  = (Ok (failure "Failed to start stream"), Story.failed) /\
  exists r,
    lookup_record Story.failed "noise_white" = Some r /\
    StreamInfo.state r = ERROR /\ live (world Story.failed) r = false.
Proof.
  assert (reachable Story.bare) as Hr by (by apply reach_init).
  split; [exact Hr|]. split; [reflexivity|].
  apply (proj1 (proj2 (proj2 error_is_unhealthy)) Story.bare "noise_white"
           Story.failed Hr); reflexivity.
Defined.

(** ** start_all_streams *)

Lemma noise_id_inj n m : "noise_" +:+ n = "noise_" +:+ m -> n = m.
Proof. apply string_app_inj_l. Qed.

Lemma start_live_mono w r0 res w' r' r :
  NoiseFFmpegRunner.start w r0 = (res, w', r') ->
  live w r = true -> live w' r = true.
Proof.
  intros Hst Hl. apply live_Some in Hl as (p & Hp & Hal). apply live_Some.
  exists p. split; [done|].
  apply start_cases in Hst as [(_ & _ & Hw & _) | (_ & Hw & _)].
  - rewrite (alive_app_old _ _ _ _ Hw); [done|]. by apply alive_lt.
  - unfold alive in *. by rewrite Hw.
Qed.

Lemma start_all_body_live s noise results started failed :
  live_stream s noise = true ->
  start_all_body noise (results, started, failed) s
  = (Ok (results ++ [already_running_entry noise], S started, failed), s).
Proof. intros Hl. by rewrite start_all_body_eq, Hl. Qed.

Lemma start_all_body_fresh s noise results started failed acc' s' :
  live_stream s noise = false ->
  start_all_body noise (results, started, failed) s = (Ok acc', s') ->
  exists r,
    length (heap s') = S (length (heap s)) /\
    Dict.get ("noise_" +:+ noise) (_streams (self s')) = Some (length (heap s)) /\
    r = heap s' !!! length (heap s) /\
    StreamInfo.noise_type r = noise /\
    ((acc' = (results ++ [started_entry noise], S started, failed) /\
      StreamInfo.state r = RUNNING /\ live (world s') r = true) \/
     (acc' = (results ++ [failed_entry noise], started, S failed) /\
      StreamInfo.state r = ERROR /\ live (world s') r = false /\
      StreamInfo.error_message r = Some failed_to_start)).
Proof.
  intros Hl. rewrite start_all_body_eq, Hl.
  destruct (w_mkdir _ _); [done|]. cbv zeta.
  destruct (spawn _ _) as [[ok|e] s1] eqn:Es; [|done].
  intros H.
  apply spawn_post in Es as (Hself & Hlen & _ & _ & Hnt & Hpost); simpl in *;
    [|rewrite length_app; simpl; lia|by rewrite store_fresh].
  rewrite store_fresh in Hnt. rewrite length_app in Hlen. simpl in *.
  exists (heap s1 !!! length (heap s)).
  destruct ok; injection H as <- <-; (split; [lia|]);
    (split; [rewrite Hself; simpl; apply dict_get_set_eq|]);
    (split; [done|]); (split; [done|]); [left | right];
    destruct Hpost as (? & ? & ?); done.
Qed.

(** An iteration never stops the worker of another stream, nor unbinds it. *)
Lemma start_all_body_keeps_live m noise acc s res s' :
  live_stream s m = true ->
  start_all_body noise acc s = (res, s') ->
  live_stream s' m = true.
Proof.
  intros Hm. destruct acc as [[results started] failed].
  rewrite start_all_body_eq.
  destruct (live_stream s noise) eqn:Hl; [by intros [= <- <-]|].
  destruct (w_mkdir _ _); [by intros [= <- <-]|]. cbv zeta.
  assert (m <> noise) as Hne by (intros ->; congruence).
  unfold live_stream in Hm.
  destruct (Dict.get ("noise_" +:+ m) (_streams (self s))) as [a|] eqn:Hg; [|done].
  pose proof (live_alloc _ _ _ Hm) as Ha.
  rewrite spawn_eq by (simpl; rewrite length_app; simpl; lia). simpl.
  destruct (NoiseFFmpegRunner.start _ _) as [[res0 w'] r'] eqn:Est.
  assert (live w' (heap s !!! a) = true) as Hm'
    by (eapply start_live_mono; eauto).
  assert (forall m0 : NoiseStreamManager.t,
             Dict.get ("noise_" +:+ m) (_streams m0) = Some a ->
             live_stream
               {| world := w';
                  heap := <[length (heap s) :=
                              after_spawn res0 (w_now w') r'
                                ((heap s ++ [new_record (base_hls_dir (self s)) noise])
                                   !!! length (heap s))]>
                            (heap s ++ [new_record (base_hls_dir (self s)) noise]);
                  self := m0 |} m = true) as Hgoal.
  { intros m0 Hg0. unfold live_stream. simpl. rewrite Hg0.
    rewrite list_lookup_total_insert_ne by lia. by rewrite store_old. }
  destruct res0 as [[]|e]; intros [= <- <-]; apply Hgoal; simpl; try done;
    rewrite dict_get_set_ne; try done; intros H; by apply noise_id_inj in H.
Qed.

Lemma start_all_body_config noise acc s res s' :
  start_all_body noise acc s = (res, s') ->
  noise_types (self s') = noise_types (self s) /\
  base_hls_dir (self s') = base_hls_dir (self s).
Proof.
  destruct acc as [[results started] failed]. rewrite start_all_body_eq.
  destruct (live_stream s noise); [by intros [= <- <-]|].
  destruct (w_mkdir _ _); [by intros [= <- <-]|]. cbv zeta.
  destruct (spawn _ _) as [[[]|e] s1] eqn:Es; intros [= <- <-];
    apply spawn_self in Es; by rewrite ?Es.
Qed.

Lemma counted_entries noise :
  counted (already_running_entry noise) = true /\
  counted (started_entry noise) = true /\
  counted (failed_entry noise) = false.
Proof. done. Qed.

Lemma count_if_app {A} (f : A -> bool) l1 l2 :
  count_if f (l1 ++ l2) = count_if f l1 + count_if f l2.
Proof. induction l1 as [|x l1 IH]; simpl; [done|]. rewrite IH. lia. Qed.

(** The whole loop. *)
Lemma start_all_loop_spec noises results started failed s results' started' failed' s' :
  start_all_loop noises (results, started, failed) s
  = (Ok (results', started', failed'), s') ->
  exists es,
    results' = results ++ es /\
    Forall2 entry_of noises es /\
    started' = started + count_if counted es /\
    failed' = failed + count_if (fun e => negb (counted e)) es /\
    (forall n, live_stream s n = true -> live_stream s' n = true) /\
    (forall i n e, noises !! i = Some n -> es !! i = Some e ->
                   e_status e <> "failed" -> live_stream s' n = true) /\
    (forall i n, noises !! i = Some n -> live_stream s n = true ->
                 es !! i = Some (already_running_entry n)) /\
    ((forall n, n ∈ noises -> live_stream s n = true) -> s' = s) /\
    noise_types (self s') = noise_types (self s).
Proof.
  revert results started failed s.
  induction noises as [|noise rest IH]; intros results started failed s; simpl.
  - intros [= <- <- <- <-]. exists []. rewrite app_nil_r. simpl.
    repeat split; try done; try lia; constructor.
  - unfold bind.
    destruct (start_all_body noise (results, started, failed) s)
      as [[[[results1 started1] failed1]|e] s1] eqn:Eb; [|done].
    intros Hl. destruct (IH _ _ _ _ Hl)
      as (es & -> & HF & -> & -> & Hkeep & Hnew & Hagain & Hsame & Hcfg).
    pose proof (fun m Hm => start_all_body_keeps_live m _ _ _ _ _ Hm Eb) as Hkeep1.
    pose proof (start_all_body_config _ _ _ _ _ Eb) as [Hcfg1 _].
    destruct (live_stream s noise) eqn:Hlive.
    + rewrite start_all_body_live in Eb by done. injection Eb as <- <- <- <-.
      exists (already_running_entry noise :: es).
      rewrite <- app_assoc. simpl.
      split; [done|]. split; [constructor; [by left | done]|].
      split; [lia|]. split; [lia|]. split; [done|].
      split; [|split; [|split; [|done]]].
      * intros [|i] n e; simpl; [|by apply Hnew].
        intros [= <-] _ _. by apply Hkeep.
      * intros [|i] n; simpl; [by intros [= <-]|]. apply Hagain.
      * intros Hall. apply Hsame. intros n Hn. apply Hall. by right.
    + destruct (start_all_body_fresh _ _ _ _ _ _ _ Hlive Eb)
        as (r & Hlen & Hg & -> & _ & Hcase).
      assert (s1 <> s) as Hchanged.
      { intros ->. lia. }
      destruct Hcase as [([= -> -> ->] & _ & Hl1) | ([= -> -> ->] & _)].
      * exists (started_entry noise :: es). rewrite <- app_assoc. simpl.
        split; [done|]. split; [constructor; [right; by left | done]|].
        split; [lia|]. split; [lia|]. split; [by eauto|].
        split; [|split; [|split; [|congruence]]].
        -- intros [|i] n e; simpl; [|by apply Hnew].
           intros [= <-] _ _. apply Hkeep. unfold live_stream. by rewrite Hg.
        -- intros [|i] n; simpl; [intros [= <-]; congruence|].
           intros Hn Hl'. apply Hagain; eauto.
        -- intros Hall. specialize (Hall noise). rewrite Hlive in Hall.
           exfalso. assert (false = true); [|done]. apply Hall. left.
      * exists (failed_entry noise :: es). rewrite <- app_assoc. simpl.
        split; [done|]. split; [constructor; [right; by right | done]|].
        split; [lia|]. split; [lia|]. split; [by eauto|].
        split; [|split; [|split; [|congruence]]].
        -- intros [|i] n e; simpl; [|by apply Hnew].
           by intros [= <-] [= <-].
        -- intros [|i] n; simpl; [intros [= <-]; congruence|].
           intros Hn Hl'. apply Hagain; eauto.
        -- intros Hall. specialize (Hall noise). rewrite Hlive in Hall.
           exfalso. assert (false = true); [|done]. apply Hall. left.
Qed.

Lemma start_all_streams_spec s sum s' :
  start_all_streams s = (Ok sum, s') ->
  start_all_loop (noise_types (self s)) ([], 0, 0) s
  = (Ok (sa_streams sum, sa_started sum, sa_failed sum), s') /\
  sa_total_streams sum = length (noise_types (self s)) /\
  sa_success sum = (0 <? sa_started sum)%nat.
Proof.
  unfold start_all_streams, bind at 1, the_manager. cbv beta iota. unfold bind.
  destruct (start_all_loop _ _ s) as [[[[results started] failed]|e] s1]; [|done].
  by intros [= <- <-].
Qed.

Lemma count_if_zero {A} (f : A -> bool) l x :
  count_if f l = 0 -> x ∈ l -> f x = false.
Proof.
  induction l as [|y l IH]; simpl.
  - intros _ H. by apply elem_of_nil in H.
  - rewrite elem_of_cons. destruct (f y) eqn:E; [done|].
    intros H0 [-> | Hin]; [done|]. by apply IH.
Qed.

Lemma count_if_split {A} (f : A -> bool) l :
  count_if f l + count_if (fun x => negb (f x)) l = length l.
Proof. induction l as [|x l IH]; simpl; [done|]. destruct (f x); simpl; lia. Qed.

Lemma counted_not_failed e : counted e = true <-> e_status e <> "failed".
Proof.
  unfold counted. rewrite negb_true_iff. apply String.eqb_neq.
Qed.

(** When no operation has raised, two running workers never write to the
    directory of one stream. *)
Lemma unique_worker s stream_id p1 p2 :
  wf true s -> worker_of s stream_id p1 -> worker_of s stream_id p2 -> p1 = p2.
Proof.
  intros Hwf (pr1 & Hp1 & Ha1 & Hd1) (pr2 & Hp2 & Ha2 & Hd2).
  destruct (wf_owned _ _ Hwf eq_refl _ _ Hp1 Ha1) as (k1 & a1 & Hg1 & Hpr1 & Hdir1).
  destruct (wf_owned _ _ Hwf eq_refl _ _ Hp2 Ha2) as (k2 & a2 & Hg2 & Hpr2 & Hdir2).
  destruct (wf_rec _ _ Hwf _ _ Hg1) as [_ _ Hk1 _ _ _ _ _].
  destruct (wf_rec _ _ Hwf _ _ Hg2) as [_ _ Hk2 _ _ _ _ _].
  assert (k1 = stream_id) as ->.
  { rewrite Hd1, Hk1 in Hdir1. by do 2 apply string_app_inj_l in Hdir1. }
  assert (k2 = stream_id) as ->.
  { rewrite Hd2, Hk2 in Hdir2. by do 2 apply string_app_inj_l in Hdir2. }
  congruence.
Qed.

(** An iteration that raises registers nothing: either nothing happened at
    all, or the record it made is left out of the registry in STARTING. *)
Lemma start_all_body_raises s noise acc e s' :
  start_all_body noise acc s = (Raise e, s') ->
  live_stream s noise = false /\ self s' = self s /\
  (s' = s \/
   (length (heap s') = S (length (heap s)) /\
    StreamInfo.state (heap s' !!! length (heap s)) = STARTING /\
    StreamInfo.noise_type (heap s' !!! length (heap s)) = noise /\
    forall a, a < length (heap s) -> heap s' !!! a = heap s !!! a)).
Proof.
  destruct acc as [[results started] failed]. rewrite start_all_body_eq.
  destruct (live_stream s noise); [done|].
  destruct (w_mkdir _ _); [intros [= <- <-]; by auto|]. cbv zeta.
  rewrite spawn_eq by (simpl; rewrite length_app; simpl; lia). simpl.
  rewrite store_fresh.
  destruct (NoiseFFmpegRunner.start _ _) as [[[[]|e0] w'] r'] eqn:Est; [done..|].
  intros [= <- <-]. simpl. split; [done|]. split; [done|]. right.
  rewrite length_insert, length_app. simpl.
  rewrite list_lookup_total_insert_eq by (rewrite length_app; simpl; lia).
  split; [lia|]. split; [done|]. split; [done|].
  intros a Ha. rewrite list_lookup_total_insert_ne by lia. by apply store_old.
Qed.

(** A loop that raises has gone through the parameters before the one whose
    iteration raised, and through none after it. *)
Lemma start_all_loop_raises noises acc s e s' :
  start_all_loop noises acc s = (Raise e, s') ->
  exists before noise rest acc1 s1,
    noises = before ++ noise :: rest /\
    start_all_loop before acc s = (Ok acc1, s1) /\
    start_all_body noise acc1 s1 = (Raise e, s').
Proof.
  revert acc s. induction noises as [|noise rest IH]; intros acc s; simpl; [done|].
  unfold bind. destruct (start_all_body noise acc s) as [[acc1|e1] s1] eqn:Eb.
  - intros Hl. destruct (IH _ _ Hl) as (before & n & rest' & acc2 & s2 & -> & Hb & Hr).
    exists (noise :: before), n, rest', acc2, s2. split; [done|].
    split; [|done]. simpl. unfold bind. by rewrite Eb.
  - intros [= <- <-]. exists [], noise, rest, acc, s. done.
Qed.

(** C3, as stated, fails: [start_all_streams] does not keep the record of a
    stream whose worker is not running, it registers a new one in its place. *)
Lemma start_all_replaces_record :
  reachable Story.failed /\
  get_stream "noise_white" Story.failed = (Ok (Some 0), Story.failed) /\
  exists sum s',
    start_all_streams Story.failed = (Ok sum, s') /\
    get_stream "noise_white" s' = (Ok (Some 1), s') /\
    length (heap Story.failed) = 1 /\ length (heap s') = 2.
Proof.
  split.
  - eapply (reach_op Story.bare (Start "noise_white")); [|reflexivity].
    by apply reach_init.
  - split; [reflexivity|].
    assert (fst (start_all_streams Story.failed)
            = Ok {| sa_success := false; sa_total_streams := 1; sa_started := 0;
                    sa_failed := 1; sa_streams := [failed_entry "white"] |}) as H1
      by (vm_compute; reflexivity).
    assert (Dict.get "noise_white"
              (_streams (self (snd (start_all_streams Story.failed)))) = Some 1)
      as H2 by (vm_compute; reflexivity).
    assert (length (heap (snd (start_all_streams Story.failed))) = 2) as H3
      by (vm_compute; reflexivity).
    destruct (start_all_streams Story.failed) as [r s'] eqn:E. simpl in *.
    subst r. eexists _, s'. split; [reflexivity|].
    unfold get_stream, streams_get. rewrite H2. done.
Qed.

(** Why the operations before must have returned: each [start_all_streams]
    that raises because the reader thread could not be started leaves a
    running worker that no record of the registry owns, and the next call
    spawns another one for the same identifier. *)
Lemma two_workers_after_raise :
  reachable Story.twice_raised /\
  lookup_record Story.twice_raised "noise_white" = None /\
  worker_of Story.twice_raised "noise_white" 0 /\
  worker_of Story.twice_raised "noise_white" 1.
Proof.
  split; [|split; [|split]].
  - eapply (reach_op _ StartAll (Raise Py.RuntimeError)).
    + eapply (reach_op (init Scenario.no_threads "/app/hls" ["white"]) StartAll
                (Raise Py.RuntimeError)); [by apply reach_init|].
      vm_compute. reflexivity.
    + vm_compute. reflexivity.
  - vm_compute. reflexivity.
  - eexists. split; [vm_compute; reflexivity|]. split; reflexivity.
  - eexists. split; [vm_compute; reflexivity|]. split; reflexivity.
Qed.

(** C3, amended. [start_all_streams] goes through the configured parameters
    in turn.  If the stream of a parameter is registered with a live runner,
    it is reported "already_running" and nothing changes, no spawn included.
    Otherwise a new record is created, a spawn is attempted, and if the
    iteration returns the new record is registered under the identifier, in
    place of the one that may be there, and is RUNNING and reported
    "started", or in ERROR and reported "failed".  When the call returns,
    the summary has one entry per parameter, in order, with [started]
    counting the entries that are not "failed", [failed] the others, and
    [total_streams] their sum; a second call right after reports
    "already_running" every stream the first one did not report "failed",
    and changes nothing if there was none.  When the creation or the spawn
    raises, the call raises: the parameters before have been processed, the
    ones after are not, nothing is registered for the one that raised and
    the record made for it, if any, is left STARTING.  In a registry whose
    operations have all returned, no two running workers belong to one
    identifier. *)
Theorem start_all_behaviour :
  (forall s noise results started failed,
      live_stream s noise = true ->
      start_all_body noise (results, started, failed) s
      = (Ok (results ++ [already_running_entry noise], S started, failed), s)) /\
  (forall s noise results started failed acc' s',
      live_stream s noise = false ->
      start_all_body noise (results, started, failed) s = (Ok acc', s') ->
      exists r,
        length (heap s') = S (length (heap s)) /\
        Dict.get ("noise_" +:+ noise) (_streams (self s')) = Some (length (heap s)) /\
        r = heap s' !!! length (heap s) /\
        StreamInfo.noise_type r = noise /\
        ((acc' = (results ++ [started_entry noise], S started, failed) /\
          StreamInfo.state r = RUNNING /\ live (world s') r = true) \/
         (acc' = (results ++ [failed_entry noise], started, S failed) /\
          StreamInfo.state r = ERROR /\ live (world s') r = false /\
          StreamInfo.error_message r = Some failed_to_start))) /\
  (forall s sum s',
      start_all_streams s = (Ok sum, s') ->
      Forall2 entry_of (noise_types (self s)) (sa_streams sum) /\
      sa_started sum = count_if counted (sa_streams sum) /\
      sa_failed sum = count_if (fun e => negb (counted e)) (sa_streams sum) /\
      sa_total_streams sum = length (noise_types (self s)) /\
      sa_started sum + sa_failed sum = sa_total_streams sum /\
      sa_success sum = (0 <? sa_started sum)%nat) /\
  (forall s sum1 s1 sum2 s2,
      start_all_streams s = (Ok sum1, s1) ->
      start_all_streams s1 = (Ok sum2, s2) ->
      (forall i e,
          sa_streams sum1 !! i = Some e -> e_status e <> "failed" ->
          exists noise,
            noise_types (self s) !! i = Some noise /\
            sa_streams sum2 !! i = Some (already_running_entry noise)) /\
      (sa_failed sum1 = 0 -> s2 = s1)) /\
  (forall s e s',
      start_all_streams s = (Raise e, s') ->
      exists before noise rest acc1 s1,
        noise_types (self s) = before ++ noise :: rest /\
        start_all_loop before ([], 0, 0) s = (Ok acc1, s1) /\
        start_all_body noise acc1 s1 = (Raise e, s') /\
        live_stream s1 noise = false /\ self s' = self s1 /\
        (s' = s1 \/
         (length (heap s') = S (length (heap s1)) /\
          StreamInfo.state (heap s' !!! length (heap s1)) = STARTING /\
          StreamInfo.noise_type (heap s' !!! length (heap s1)) = noise /\
          forall a, a < length (heap s1) -> heap s' !!! a = heap s1 !!! a))) /\
  (forall s stream_id p1 p2,
      completed s ->
      worker_of s stream_id p1 -> worker_of s stream_id p2 -> p1 = p2).
Proof.
  split; [exact start_all_body_live|]. split; [exact start_all_body_fresh|].
  split; [|split; [|split]].
  - intros s sum s' Hs. apply start_all_streams_spec in Hs as (Hl & Htot & Hsucc).
    apply start_all_loop_spec in Hl as (es & Hes & HF & Hst & Hfl & _).
    simpl in Hes. subst es.
    split; [done|]. split; [done|]. split; [done|]. split; [done|].
    split; [|done].
    rewrite Hst, Hfl, Htot. simpl. rewrite count_if_split.
    symmetry. by eapply Forall2_length.
  - intros s sum1 s1 sum2 s2 H1 H2.
    apply start_all_streams_spec in H1 as (Hl1 & _ & _).
    apply start_all_streams_spec in H2 as (Hl2 & _ & _).
    apply start_all_loop_spec in Hl1
      as (es1 & Hes1 & HF1 & _ & Hfl1 & _ & Hnew1 & _ & _ & Hcfg).
    apply start_all_loop_spec in Hl2
      as (es2 & Hes2 & _ & _ & _ & _ & _ & Hagain2 & Hsame2 & _).
    simpl in *. subst es1 es2. rewrite Hcfg in *. split.
    + intros i e Hi Hne.
      destruct (Forall2_lookup_r _ _ _ _ _ HF1 Hi) as (noise & Hn & _).
      exists noise. split; [done|]. apply Hagain2; [done|]. by eapply Hnew1.
    + intros H0. apply Hsame2. intros n Hn.
      apply list_elem_of_lookup in Hn as [i Hi].
      destruct (Forall2_lookup_l _ _ _ _ _ HF1 Hi) as (e & He & _).
      eapply Hnew1; [done..|]. apply counted_not_failed.
      rewrite Hfl1 in H0. simpl in H0.
      apply (count_if_zero _ _ e) in H0; [|by eapply list_elem_of_lookup_2].
      by apply negb_false_iff in H0.
  - intros s e s' Hs.
    unfold start_all_streams, bind at 1, the_manager in Hs. cbv beta iota in Hs.
    unfold bind in Hs.
    destruct (start_all_loop _ _ s) as [[[[results started] failed]|e0] s0] eqn:El;
      [done|]. injection Hs as <- <-.
    apply start_all_loop_raises in El
      as (before & noise & rest & acc1 & s1 & Hn & Hb & Hr).
    exists before, noise, rest, acc1, s1.
    split; [done|]. split; [done|]. split; [done|].
    by apply start_all_body_raises in Hr.
  - intros s stream_id p1 p2 Hs. apply completed_wf in Hs.
    by apply unique_worker.
Qed.

Lemma start_all_behaviour_witness :
  fst (start_all_streams Story.fresh)
  = Ok {| sa_success := true; sa_total_streams := 3; sa_started := 3;
          sa_failed := 0;
          sa_streams := [started_entry "white"; started_entry "pink";
                         started_entry "brown"] |} /\
  fst (start_all_streams (snd (start_all_streams Story.fresh)))
  = Ok {| sa_success := true; sa_total_streams := 3; sa_started := 3;
          sa_failed := 0;
          sa_streams := [already_running_entry "white";
                         already_running_entry "pink";
                         already_running_entry "brown"] |} /\
  snd (start_all_streams (snd (start_all_streams Story.fresh)))
  = snd (start_all_streams Story.fresh).
Proof.
  assert (fst (start_all_streams Story.fresh)
          = Ok {| sa_success := true; sa_total_streams := 3; sa_started := 3;
                  sa_failed := 0;
                  sa_streams := [started_entry "white"; started_entry "pink";
                                 started_entry "brown"] |}) as H1
    by (vm_compute; reflexivity).
  assert (fst (start_all_streams (snd (start_all_streams Story.fresh)))
          = Ok {| sa_success := true; sa_total_streams := 3; sa_started := 3;
                  sa_failed := 0;
                  sa_streams := [already_running_entry "white";
                                 already_running_entry "pink";
                                 already_running_entry "brown"] |}) as H2
    by (vm_compute; reflexivity).
  split; [exact H1|]. split; [exact H2|].
  destruct (start_all_streams Story.fresh) as [r1 s1] eqn:E1. simpl in *.
  destruct (start_all_streams s1) as [r2 s2] eqn:E2. simpl in *. subst r1 r2.
  exact (proj2 (proj1 (proj2 (proj2 (proj2 start_all_behaviour)))
                  Story.fresh _ s1 _ s2 E1 E2) eq_refl).
Defined.

(** * Further properties of the code *)

(** ** The runner *)

(** X1. [NoiseFFmpegRunner.start]: when it returns true the runner was not
    running, now is, holds the pid of a new process, one spawn was made and
    no other process changed; when it returns false the runner and the
    process table are as before; when it raises, the runner was not
    running, and either the directory could not be made or [Popen] raised
    something other than [FileNotFoundError] and [SubprocessError], with
    the runner and the process table as before, or it is the
    [RuntimeError] of the reader thread, and the runner holds the pid of a
    new process, which runs; on a running runner it returns false and
    touches nothing. *)
Theorem runner_start_outcome w r res w' r' :
  NoiseFFmpegRunner.start w r = (res, w', r') ->
  (res = Ok true ->
   NoiseFFmpegRunner.is_running w r = false /\
   NoiseFFmpegRunner.is_running w' r' = true /\
   NoiseFFmpegRunner._process r' = Some (length (w_procs w)) /\
   w_popen_calls w' = S (w_popen_calls w) /\
   length (w_procs w') = S (length (w_procs w)) /\
   forall p, p < length (w_procs w) -> alive w' p = alive w p) /\
  (res = Ok false -> r' = r /\ w_procs w' = w_procs w) /\
  (forall e, res = Raise e ->
     NoiseFFmpegRunner.is_running w r = false /\
     ((w_mkdir w (NoiseFFmpegRunner.hls_dir r) = Some e /\ w' = w /\ r' = r) \/
      (e <> Py.FileNotFoundError /\ e <> Py.SubprocessError /\
       w_popen w (w_popen_calls w) = PopenRaises e /\
       r' = r /\ w_procs w' = w_procs w) \/
      (e = Py.RuntimeError /\
       w_popen w (w_popen_calls w) = ThreadRaises /\
       NoiseFFmpegRunner.is_running w' r' = true /\
       NoiseFFmpegRunner._process r' = Some (length (w_procs w)) /\
       length (w_procs w') = S (length (w_procs w)) /\
       forall p, p < length (w_procs w) -> alive w' p = alive w p))) /\
  (NoiseFFmpegRunner.is_running w r = true -> res = Ok false /\ w' = w).
Proof.
  intros Hst. split; [|split; [|split]].
  - intros ->. pose proof Hst as Hc.
    apply start_cases in Hc as [(_ & Hr & Hw & ->) | (? & _)]; [|done].
    split; [done|]. split; [|split; [done|split; [|split]]].
    + unfold NoiseFFmpegRunner.is_running. simpl. by eapply alive_app_new.
    + unfold NoiseFFmpegRunner.start, popen, thread_start in Hst. rewrite Hr in Hst.
      repeat case_match; simplify_eq; done.
    + rewrite Hw, length_app. simpl. lia.
    + intros p Hp. by eapply alive_app_old.
  - intros ->. apply start_cases in Hst as [([?|?] & _) | (_ & ? & ?)]; done.
  - intros e ->. apply start_raises in Hst as (Hr & Hcases). split; [done|].
    destruct Hcases as [(? & ? & ?) | [(_ & _ & Hp & -> & ? & ?) | (_ & _ & p & Hp & Ht & -> & ->)]].
    + by left.
    + right; left. split; [done|]. split; [done|].
      unfold popen in Hp. destruct (w_popen w _); simplify_eq. done.
    + right; right. split; [done|].
      assert (w_popen w (w_popen_calls w) = ThreadRaises) as Ho.
      { unfold thread_start in Ht. by destruct (w_popen w _). }
      split; [done|].
      unfold popen in Hp. rewrite Ho in Hp. injection Hp as <- <-. simpl.
      split; [|split; [done|split]].
      * unfold NoiseFFmpegRunner.is_running, alive. simpl.
        rewrite lookup_app_r by lia. by rewrite Nat.sub_diag.
      * rewrite length_app. simpl. lia.
      * intros q Hq. unfold alive. simpl. by rewrite lookup_app_l.
  - intros Hr. rewrite start_when_live in Hst by done. by injection Hst as <- <- <-.
Qed.

Lemma runner_start_outcome_witness :
  NoiseFFmpegRunner.is_running
    (snd (fst (NoiseFFmpegRunner.start Scenario.calm Scenario.white_runner)))
    (snd (NoiseFFmpegRunner.start Scenario.calm Scenario.white_runner)) = true.
Proof.
  exact (proj1 (proj2 (proj1 (runner_start_outcome Scenario.calm
                                Scenario.white_runner (Ok true)
                                (snd (fst (NoiseFFmpegRunner.start Scenario.calm
                                             Scenario.white_runner)))
                                (snd (NoiseFFmpegRunner.start Scenario.calm
                                        Scenario.white_runner))
                                eq_refl) eq_refl))).
Defined.

(** X2. [NoiseFFmpegRunner.stop] returns false exactly when there is no
    handle, and then changes nothing; otherwise it returns true with the
    handle cleared and the process dead. In every case the runner is not
    running afterwards and no other process is affected. *)
Theorem runner_stop_outcome w r ok w' r' :
  NoiseFFmpegRunner.stop w r = (ok, w', r') ->
  (ok = false <-> NoiseFFmpegRunner._process r = None) /\
  (ok = false -> w' = w /\ r' = r) /\
  NoiseFFmpegRunner._process r' = None /\
  NoiseFFmpegRunner.is_running w' r' = false /\
  (forall p, NoiseFFmpegRunner._process r = Some p -> alive w' p = false) /\
  (forall p, NoiseFFmpegRunner._process r <> Some p -> alive w' p = alive w p).
Proof.
  intros Hs. apply stop_cases in Hs
    as [(Hn & -> & -> & ->) | (p & Hp & -> & -> & Hw)].
  - split; [done|]. split; [done|]. split; [done|].
    split; [by unfold NoiseFFmpegRunner.is_running; rewrite Hn|].
    split; [intros p; by rewrite Hn | done].
  - split; [split; [done | by rewrite Hp]|]. split; [done|]. split; [done|].
    split; [done|]. split.
    + intros q. rewrite Hp. intros [= <-].
      destruct Hw as [[? ->] | [_ ->]]; [done|].
      rewrite alive_reap. by case_decide.
    + intros q Hq. destruct Hw as [[? ->] | [_ ->]]; [done|].
      rewrite alive_reap. case_decide; [|done]. subst. by rewrite Hp in Hq.
Qed.

Lemma runner_stop_outcome_witness :
  NoiseFFmpegRunner.is_running
    (snd (fst (NoiseFFmpegRunner.stop (Scenario.one_worker None)
                 (StreamInfo.runner Scenario.white_running))))
    (snd (NoiseFFmpegRunner.stop (Scenario.one_worker None)
            (StreamInfo.runner Scenario.white_running))) = false.
Proof.
  exact (proj1 (proj2 (proj2 (proj2 (runner_stop_outcome (Scenario.one_worker None)
           (StreamInfo.runner Scenario.white_running) true _ _ eq_refl))))).
Defined.

(** ** stop_stream *)

(** X3. [stop_stream] never raises and has three outcomes: "Stream not
    found" for an identifier that is not registered and "Stream was not
    running" for a stream without a live process, both leaving the system
    as it was; "Stream stopped" for a live stream, which is then STOPPED
    with no start time, no handle and no live process. "Failed to stop
    stream" is never returned. *)
Theorem stop_stream_outcome stream_id s :
  exists res s',
    stop_stream stream_id s = (Ok res, s') /\
    ((lookup_record s stream_id = None /\
      res = failure "Stream not found" /\ s' = s) \/
     (exists r, lookup_record s stream_id = Some r /\
                live (world s) r = false /\
                res = done_with "Stream was not running" None /\ s' = s) \/
     (exists r r', lookup_record s stream_id = Some r /\
                   live (world s) r = true /\
                   res = done_with "Stream stopped" None /\
                   lookup_record s' stream_id = Some r' /\
                   StreamInfo.state r' = STOPPED /\
                   StreamInfo.started_at r' = None /\
                   NoiseFFmpegRunner._process (StreamInfo.runner r') = None /\
                   live (world s') r' = false /\
                   StreamInfo.error_message r' = StreamInfo.error_message r)).
Proof.
  rewrite stop_stream_eq. unfold lookup_record.
  destruct (Dict.get stream_id (_streams (self s))) as [a|] eqn:Hg.
  2:{ eexists _, _. split; [done|]. left. done. }
  destruct (live (world s) (heap s !!! a)) eqn:Hl.
  2:{ eexists _, _. split; [done|]. right; left. eauto. }
  pose proof (live_alloc _ _ _ Hl) as Ha.
  destruct (NoiseFFmpegRunner.stop _ _) as [[ok w'] r'] eqn:Est.
  apply stop_cases in Est as [(Hn & _) | (p & Hp & -> & -> & _)].
  { apply live_Some in Hl as (? & ? & _). congruence. }
  eexists _, _. split; [done|]. right; right.
  exists (heap s !!! a). eexists. split; [done|]. split; [done|]. split; [done|].
  simpl. rewrite Hg, list_lookup_total_insert_eq by done.
  split; [done|]. done.
Qed.

(** ** stop_all_streams *)

Lemma stop_step s a ok w' r' :
  live (world s) (heap s !!! a) = true ->
  NoiseFFmpegRunner.stop (world s) (StreamInfo.runner (heap s !!! a)) = (ok, w', r') ->
  let s1 := {| world := w'; heap := <[a := after_stop r' (heap s !!! a)]> (heap s);
               self := self s |} in
  live (world s1) (heap s1 !!! a) = false /\
  forall x, live (world s1) (heap s1 !!! x) = true ->
            live (world s) (heap s !!! x) = true.
Proof.
  intros Hl Hs. pose proof (live_alloc _ _ _ Hl) as Ha. simpl.
  apply stop_cases in Hs as [(Hn & _) | (p & Hp & -> & -> & Hw)].
  { apply live_Some in Hl as (? & ? & _). congruence. }
  rewrite list_lookup_total_insert_eq by done. split; [done|].
  intros x. destruct (decide (x = a)) as [->|Hne].
  - by rewrite list_lookup_total_insert_eq.
  - rewrite list_lookup_total_insert_ne by done.
    destruct Hw as [[_ ->] | [_ ->]]; [done|].
    rewrite !live_Some. intros (q & Hq & Hal). exists q. split; [done|].
    rewrite alive_reap in Hal. by case_decide.
Qed.

Lemma stop_all_loop_spec items results n s :
  exists es s',
    stop_all_loop items (results, n) s
    = (Ok (results ++ es,
           n + count_if (fun e => String.eqb (e_status e) "stopped") es), s') /\
    map e_stream_id es = map fst items /\
    Forall (fun e => e_status e = "stopped" \/ e_status e = "was_not_running") es /\
    self s' = self s /\
    (forall x, live (world s') (heap s' !!! x) = true ->
               live (world s) (heap s !!! x) = true) /\
    (forall k a, (k, a) ∈ items -> live (world s') (heap s' !!! a) = false).
Proof.
  revert results n s. induction items as [|[k a] rest IH]; intros results n s.
  - exists [], s. simpl. rewrite app_nil_r, Nat.add_0_r.
    repeat split; try done. intros k a H. by apply elem_of_nil in H.
  - simpl. unfold bind. rewrite stop_all_body_eq.
    destruct (live (world s) (heap s !!! a)) eqn:Hl.
    + destruct (NoiseFFmpegRunner.stop _ _) as [[ok w'] r'] eqn:Est.
      destruct (stop_step _ _ _ _ _ Hl Est) as [Hdead Hmono].
      destruct (IH (results ++ [status_only k "stopped"]) (S n)
                  {| world := w';
                     heap := <[a := after_stop r' (heap s !!! a)]> (heap s);
                     self := self s |})
        as (es & s' & -> & Hids & Hst & Hself & Hm & Hall).
      exists (status_only k "stopped" :: es), s'. rewrite <- app_assoc. simpl.
      split; [do 3 f_equal; lia|]. split; [by f_equal|].
      split; [constructor; [by left | done]|]. split; [done|].
      split; [by eauto|].
      intros k' a'. rewrite elem_of_cons. intros [[= -> ->] | Hin]; [|by eauto].
      destruct (live (world s') (heap s' !!! a)) eqn:Hl'; [|done].
      apply Hm in Hl'. congruence.
    + destruct (IH (results ++ [status_only k "was_not_running"]) n s)
        as (es & s' & -> & Hids & Hst & Hself & Hm & Hall).
      exists (status_only k "was_not_running" :: es), s'.
      rewrite <- app_assoc. simpl.
      split; [done|]. split; [by f_equal|].
      split; [constructor; [by right | done]|]. split; [done|].
      split; [done|].
      intros k' a'. rewrite elem_of_cons. intros [[= -> ->] | Hin]; [|by eauto].
      destruct (live (world s') (heap s' !!! a)) eqn:Hl'; [|done].
      apply Hm in Hl'. congruence.
Qed.

(** X4. [stop_all_streams] never raises and reports success. Its result has
    one entry per registered stream, in registration order, each "stopped"
    or "was_not_running" and never "failed_to_stop"; [stopped] counts the
    former. It rebinds no identifier, and afterwards no registered stream
    has a live process. *)
Theorem stop_all_outcome s :
  exists sum s',
    stop_all_streams s = (Ok sum, s') /\
    so_success sum = true /\
    map e_stream_id (so_streams sum) = Dict.keys (_streams (self s)) /\
    Forall (fun e => e_status e = "stopped" \/ e_status e = "was_not_running")
      (so_streams sum) /\
    so_stopped sum
    = count_if (fun e => String.eqb (e_status e) "stopped") (so_streams sum) /\
    self s' = self s /\
    (forall k r, lookup_record s' k = Some r -> live (world s') r = false).
Proof.
  unfold stop_all_streams, bind at 1, the_manager. cbv beta iota. unfold bind.
  destruct (stop_all_loop_spec (_streams (self s)) [] 0 s)
    as (es & s' & -> & Hids & Hst & Hself & _ & Hall).
  simpl. eexists _, s'. split; [reflexivity|]. simpl.
  split; [done|]. split; [done|]. split; [done|]. split; [done|].
  split; [done|].
  intros k r Hr. apply lookup_record_Some in Hr as (a & Hg & ->).
  rewrite Hself in Hg. apply dict_get_Some_elem in Hg. by eapply Hall.
Qed.

(** ** get_status and health_check *)

Lemma count_if_map {A B} (f : B -> bool) (g : A -> B) l :
  count_if f (map g l) = count_if (fun x => f (g x)) l.
Proof. induction l as [|x l IH]; simpl; [done|]. by rewrite IH. Qed.

Lemma count_if_ext {A} (f g : A -> bool) l :
  (forall x, f x = g x) -> count_if f l = count_if g l.
Proof. intros H. induction l as [|x l IH]; simpl; [done|]. by rewrite H, IH. Qed.

(** X5. [get_status] changes nothing; its [streams] list has one dict per
    registered stream, [total_streams] is its length, [running_streams]
    counts the dicts whose [running] flag is set, and running and stopped
    add up to the total. *)
Theorem get_status_counts s :
  exists v,
    get_status s = (Ok v, s) /\
    length (gs_streams v) = gs_total_streams v /\
    gs_total_streams v = length (Dict.keys (_streams (self s))) /\
    gs_running_streams v = count_if StreamInfo.d_running (gs_streams v) /\
    gs_running_streams v + gs_stopped_streams v = gs_total_streams v.
Proof.
  eexists. split; [reflexivity|]. simpl.
  assert (length (records s) = length (_streams (self s))) as Hlen.
  { unfold records, Dict.values. by rewrite !length_map. }
  split; [by rewrite length_map|]. split; [unfold Dict.keys; by rewrite length_map|].
  split.
  - rewrite count_if_map. apply count_if_ext. intros r. simpl.
    by rewrite get_status_running.
  - pose proof (count_if_le
      (fun r => NoiseFFmpegRunner.is_running (world s) (StreamInfo.runner r))
      (records s)). lia.
Qed.

Lemma classify_range st a b c :
  StreamInfo.classify st a b c = "healthy" \/
  StreamInfo.classify st a b c = "unhealthy" \/
  StreamInfo.classify st a b c = "stopped" \/
  StreamInfo.classify st a b c = "starting".
Proof. destruct st, a, b, c; cbv; tauto. Qed.

Lemma status_of_range w r :
  status_of w r = "healthy" \/ status_of w r = "unhealthy" \/
  status_of w r = "stopped" \/ status_of w r = "starting".
Proof. rewrite status_of_classify. apply classify_range. Qed.

Lemma status_partition l :
  Forall (fun h => StreamInfo.h_status h = "healthy" \/
                   StreamInfo.h_status h = "unhealthy" \/
                   StreamInfo.h_status h = "stopped" \/
                   StreamInfo.h_status h = "starting") l ->
  count_if (has_status "healthy") l + count_if (has_status "stopped") l
  + count_if (has_status "unhealthy") l + count_if (has_status "starting") l
  = length l.
Proof.
  induction 1 as [|h l Hh _ IH]; simpl; [done|]. unfold has_status at 1 3 5 7.
  destruct Hh as [-> | [-> | [-> | ->]]]; simpl; lia.
Qed.

(** X6. Whenever [health_check] returns, it has changed nothing and its
    report lists the registered records.  Every per-stream status is one of
    "healthy", "unhealthy", "stopped" and "starting", so the three counters
    of the summary and the number of starting streams add up to [total]; a
    fresh manifest is an available one, and a healthy stream has a running
    process and a fresh manifest. *)
Theorem health_check_counts s h s' :
  health_check s = (Ok h, s') ->
  s' = s /\
  map StreamInfo.h_stream_id (hs_streams h)
  = map StreamInfo.stream_id (records s) /\
  hc_total (hs_summary h) = length (hs_streams h) /\
  hc_healthy (hs_summary h) + hc_stopped (hs_summary h)
  + hc_unhealthy (hs_summary h)
  + count_if (has_status "starting") (hs_streams h)
  = hc_total (hs_summary h) /\
  Forall (fun e =>
            (StreamInfo.h_manifest_fresh e = true ->
             StreamInfo.h_hls_available e = true) /\
            (StreamInfo.h_status e = "healthy" ->
             StreamInfo.h_process_running e = true /\
             StreamInfo.h_manifest_fresh e = true))
    (hs_streams h).
Proof.
  intros [= <- <-]. simpl. split; [done|]. split.
  { rewrite map_map. apply map_ext. intros r. apply health_stream_id. }
  split; [done|]. split.
  - apply status_partition. apply Forall_forall. intros h Hh.
    apply list_elem_of_fmap in Hh as (r & -> & _). apply status_of_range.
  - apply Forall_forall. intros h Hh.
    apply list_elem_of_fmap in Hh as (r & -> & _).
    unfold StreamInfo.health_check. rewrite get_status_running.
    unfold StreamInfo.probe_manifest.
    destruct (StreamInfo.hls_path r) as [p|]; simpl.
    2:{ split; [done|]. unfold StreamInfo.classify.
        destruct (StreamInfo.state r), (NoiseFFmpegRunner.is_running _ _); done. }
    destruct (negb (String.eqb p "")); simpl.
    2:{ split; [done|]. unfold StreamInfo.classify.
        destruct (StreamInfo.state r), (NoiseFFmpegRunner.is_running _ _); done. }
    destruct (w_file _ _) as [|[m|]]; simpl; (split; [done|]);
      unfold StreamInfo.classify;
      destruct (StreamInfo.state r), (NoiseFFmpegRunner.is_running _ _),
        (Qlt_bool _ _) || idtac; try done;
      destruct (StreamInfo.state r), (NoiseFFmpegRunner.is_running _ _); done.
Qed.

Lemma health_check_counts_witness : 1 = length (report Story.started).
Proof.
  exact (proj1 (proj2 (proj2
    (health_check_counts Story.started
       {| hs_status := "degraded";
          hs_summary := {| hc_total := 1; hc_healthy := 0;
                           hc_stopped := 0; hc_unhealthy := 1 |};
          hs_streams := report Story.started |}
       Story.started eq_refl)))).
Defined.

(** ** What operations keep *)

Lemma start_all_body_registered k noise acc s res s' :
  Dict.get k (_streams (self s)) <> None ->
  start_all_body noise acc s = (res, s') ->
  Dict.get k (_streams (self s')) <> None.
Proof.
  intros Hk. destruct acc as [[results started] failed].
  rewrite start_all_body_eq.
  destruct (live_stream s noise); [by intros [= <- <-]|].
  destruct (w_mkdir _ _); [by intros [= <- <-]|]. cbv zeta.
  destruct (spawn _ _) as [[[]|e] s1] eqn:Es; intros [= <- <-];
    apply spawn_self in Es; rewrite ?Es; simpl; try done;
    rewrite dict_get_set; by destruct (String.eqb _ _).
Qed.

Lemma start_all_loop_registered k noises acc s res s' :
  Dict.get k (_streams (self s)) <> None ->
  start_all_loop noises acc s = (res, s') ->
  Dict.get k (_streams (self s')) <> None.
Proof.
  revert acc s. induction noises as [|noise rest IH]; intros acc s Hk; simpl.
  - by intros [= <- <-].
  - unfold bind. destruct (start_all_body noise acc s) as [[acc'|e] s1] eqn:Eb.
    + apply IH. by eapply start_all_body_registered.
    + intros [= <- <-]. by eapply start_all_body_registered.
Qed.

(** X7. No operation and no step of the environment unregisters a stream:
    an identifier that is registered stays registered. *)
Theorem registration_is_permanent s s' k :
  (exists o res, run_op o s = (res, s')) \/ env_step s s' ->
  lookup_record s k <> None ->
  lookup_record s' k <> None.
Proof.
  intros Hstep Hk.
  assert (Dict.get k (_streams (self s)) <> None) as Hg.
  { unfold lookup_record in Hk. by destruct (Dict.get k (_streams (self s))). }
  assert (Dict.get k (_streams (self s')) <> None) as Hg'.
  2:{ unfold lookup_record. by destruct (Dict.get k (_streams (self s'))). }
  destruct Hstep as [(o & res & Hop) | Henv]; [|inversion Henv; subst; exact Hg].
  destruct (in_place o) eqn:Hip.
  - destruct (Dict.get k (_streams (self s))) as [a|] eqn:E; [|done].
    by rewrite (in_place_keeps _ _ _ _ _ _ Hip Hop E).
  - destruct o; try done. unfold run_op, forget, bind in Hop.
    destruct (start_all_streams s) as [r s1] eqn:E.
    assert (s1 = s') as -> by (destruct r; by injection Hop).
    unfold start_all_streams, bind at 1, the_manager in E. cbv beta iota in E.
    unfold bind in E.
    destruct (start_all_loop _ _ s) as [[[[results started] failed]|e] s2] eqn:El;
      injection E as _ <-; by eapply start_all_loop_registered.
Qed.

Lemma registration_is_permanent_witness :
  lookup_record Story.started "noise_white" <> None /\
  lookup_record (snd (run_op (Stop "noise_white") Story.started)) "noise_white"
  <> None.
Proof.
  assert (lookup_record Story.started "noise_white" <> None) as H by done.
  split; [exact H|].
  apply (registration_is_permanent Story.started _ "noise_white"); [|exact H].
  left. exists (Stop "noise_white"), (fst (run_op (Stop "noise_white") Story.started)).
  apply surjective_pairing.
Defined.

Lemma start_all_body_objects noise acc s res s' :
  start_all_body noise acc s = (res, s') ->
  length (heap s) <= length (heap s') /\
  forall a, a < length (heap s) -> heap s' !!! a = heap s !!! a.
Proof.
  destruct acc as [[results started] failed]. rewrite start_all_body_eq.
  destruct (live_stream s noise); [by intros [= <- <-]|].
  destruct (w_mkdir _ _); [by intros [= <- <-]|]. cbv zeta.
  rewrite spawn_eq by (simpl; rewrite length_app; simpl; lia). simpl.
  destruct (NoiseFFmpegRunner.start _ _) as [[[[]|e] w'] r'];
    intros [= <- <-]; simpl; rewrite length_insert, length_app; simpl;
    (split; [lia|]); intros a Ha;
    rewrite list_lookup_total_insert_ne by lia; by apply store_old.
Qed.

Lemma start_all_loop_objects noises acc s res s' :
  start_all_loop noises acc s = (res, s') ->
  length (heap s) <= length (heap s') /\
  forall a, a < length (heap s) -> heap s' !!! a = heap s !!! a.
Proof.
  revert acc s. induction noises as [|noise rest IH]; intros acc s; simpl.
  - by intros [= <- <-].
  - unfold bind. destruct (start_all_body noise acc s) as [[acc'|e] s1] eqn:Eb;
      apply start_all_body_objects in Eb as [Hlen Hsame].
    + intros Hl. apply IH in Hl as [Hlen' Hsame']. split; [lia|].
      intros a Ha. rewrite Hsame' by lia. by apply Hsame.
    + by intros [= <- <-].
Qed.

(** X8. [start_all_streams] never modifies a [StreamInfo] object that
    existed before the call, whether it returns or raises: it only creates
    objects. A record that it replaces keeps the state it had. *)
Theorem start_all_leaves_objects s res s' a :
  start_all_streams s = (res, s') ->
  a < length (heap s) ->
  heap s' !!! a = heap s !!! a /\ length (heap s) <= length (heap s').
Proof.
  unfold start_all_streams, bind at 1, the_manager. cbv beta iota. unfold bind.
  destruct (start_all_loop _ _ s) as [[[[results started] failed]|e] s1] eqn:El;
    intros [= <- <-] Ha; apply start_all_loop_objects in El as [? Hsame];
    (split; [by apply Hsame | done]).
Qed.

Lemma start_all_leaves_objects_witness :
  0 < length (heap Story.failed) /\
  heap (snd (start_all_streams Story.failed)) !!! 0 = heap Story.failed !!! 0.
Proof.
  assert (0 < length (heap Story.failed)) as H by (vm_compute; lia).
  split; [exact H|].
  exact (proj1 (start_all_leaves_objects Story.failed
                  (fst (start_all_streams Story.failed))
                  (snd (start_all_streams Story.failed)) 0
                  (surjective_pairing _) H)).
Defined.

(** ** The monitor and the registry *)

Lemma restart_loop_self streams s res calls s' :
  (forall h, h ∈ streams ->
             Dict.get (StreamInfo.h_stream_id h) (_streams (self s)) <> None) ->
  App.restart_loop streams s = (res, calls, s') ->
  self s' = self s.
Proof.
  revert s calls. induction streams as [|h rest IH]; intros s calls Hreg; simpl.
  - by intros [= <- <- <-].
  - assert (forall h0, h0 ∈ rest ->
              Dict.get (StreamInfo.h_stream_id h0) (_streams (self s)) <> None)
      as Hrest by (intros h0 Hin; apply Hreg; by right).
    destruct (App.needs_restart h); [|by apply IH].
    destruct (stop_stream_returns (StreamInfo.h_stream_id h) s) as (r & s1 & E1).
    rewrite E1. apply stop_stream_self in E1.
    destruct (start_stream _ s1) as [[r2|e] s2] eqn:E2.
    + assert (self s2 = self s) as Hs2.
      { rewrite <- E1. rewrite start_stream_eq in E2.
        destruct (Dict.get _ (_streams (self s1))) as [a|] eqn:Hg.
        - by apply start_record_self in E2.
        - exfalso. rewrite E1 in Hg. eapply Hreg; [left|done]. }
      destruct (App.restart_loop rest s2) as [[res0 calls0] s3] eqn:El.
      intros [= <- <- <-]. rewrite <- Hs2. apply (IH s2 calls0); [|done].
      by rewrite Hs2.
    + intros [= <- <- <-]. rewrite <- E1. rewrite start_stream_eq in E2.
      destruct (Dict.get _ (_streams (self s1))) as [a|] eqn:Hg.
      * by apply start_record_self in E2.
      * exfalso. rewrite E1 in Hg. eapply Hreg; [left|done].
Qed.

(** X9. A cycle of the health monitor, complete or cut short, registers no
    stream and rebinds none: the registry maps the same identifiers to the
    same record objects as before. *)
Theorem monitor_keeps_registry s e calls s' :
  reachable s ->
  App.monitor_cycle s = (e, calls, s') ->
  self s' = self s.
Proof.
  intros Hs Hc. apply reachable_wf in Hs.
  unfold App.monitor_cycle, health_check in Hc. simpl in Hc. fold (report s) in Hc.
  destruct (App.restart_loop (report s) s) as [[res calls0] s1] eqn:El.
  assert (self s1 = self s) as Hself.
  { eapply restart_loop_self; [|exact El].
    intros h Hh. apply list_elem_of_fmap in Hh as (r & -> & Hr).
    rewrite health_stream_id. intros Hn. apply dict_get_None_keys in Hn.
    apply Hn. rewrite <- (records_ids _ _ Hs).
    by apply (list_elem_of_fmap_2 StreamInfo.stream_id). }
  destruct res as [[]|e0]; by injection Hc as <- <- <-.
Qed.

Lemma monitor_keeps_registry_witness :
  self (snd (App.monitor_cycle Story.stale)) = self Story.stale.
Proof.
  assert (reachable Story.stale) as Hr.
  { eapply (reach_env Story.started).
    - eapply (reach_op Story.fresh (Start "noise_white")); [|reflexivity].
      by apply reach_init.
    - apply (env_change Story.started (world Story.stale)).
      repeat constructor. }
  destruct (App.monitor_cycle Story.stale) as [[e calls] s'] eqn:E.
  exact (monitor_keeps_registry Story.stale e calls s' Hr E).
Defined.

(** ** start_stream on a registered stream *)

(** X10. [start_stream] on a registered stream with a live process answers
    "Stream already running" and changes nothing. On one without a live
    process, when it returns: on success the record is RUNNING with a live
    process, its start time is the current time and its error message is
    cleared; on failure it is in ERROR with the message "Failed to start
    FFmpeg process" and keeps the start time it had. *)
Theorem start_registered_outcome s k r res s' :
  reachable s ->
  lookup_record s k = Some r ->
  start_stream k s = (Ok res, s') ->
  (live (world s) r = true ->
   res = done_with "Stream already running" None /\ s' = s) /\
  (live (world s) r = false ->
   exists r',
     lookup_record s' k = Some r' /\
     ((res = done_with "Stream started" (Some ("/hls/" +:+ k +:+ "/stream.m3u8")) /\
       StreamInfo.state r' = RUNNING /\ live (world s') r' = true /\
       StreamInfo.started_at r' = Some (w_now (world s)) /\
       StreamInfo.error_message r' = None) \/
      (res = failure "Failed to start stream" /\
       StreamInfo.state r' = ERROR /\ live (world s') r' = false /\
       StreamInfo.started_at r' = StreamInfo.started_at r /\
       StreamInfo.error_message r' = Some failed_to_start))).
Proof.
  intros Hs Hr. apply reachable_wf in Hs.
  apply lookup_record_Some in Hr as (a & Hg & ->).
  pose proof (wf_alloc _ _ Hs _ _ Hg) as Ha.
  rewrite start_stream_eq, Hg, start_record_eq.
  destruct (live (world s) (heap s !!! a)) eqn:Hl.
  { intros [= <- <-]. split; [done|]. done. }
  intros Hst. split; [done|]. intros _.
  rewrite spawn_eq in Hst by done.
  destruct (NoiseFFmpegRunner.start _ _) as [[res0 w'] r'] eqn:Est.
  pose proof (start_now _ _ _ _ _ Est) as Hnow.
  pose proof Est as Hc.
  apply start_cases in Hc as [([-> | ->] & _ & Hw & ->) | (Hne & Hw & ->)];
    [|done|].
  - injection Hst as <- <-. eexists. unfold lookup_record. simpl. rewrite Hg.
    rewrite list_lookup_total_insert_eq by done. split; [done|]. left.
    simpl. rewrite Hnow. split; [done|]. split; [done|]. split; [|done].
    apply live_Some. eexists. split; [reflexivity|]. by eapply alive_app_new.
  - destruct res0 as [[]|e]; [done| |done]. injection Hst as <- <-.
    eexists. unfold lookup_record. simpl. rewrite Hg.
    rewrite list_lookup_total_insert_eq by done. split; [done|]. right.
    simpl. split; [done|]. split; [done|]. split; [|done].
    by rewrite (live_same_procs (world s) w').
Qed.

Lemma start_registered_outcome_witness :
  exists r',
    lookup_record (snd (start_stream "noise_white" Story.failed)) "noise_white"
    = Some r' /\
    StreamInfo.state r' = ERROR.
Proof.
  assert (reachable Story.failed) as Hr.
  { eapply (reach_op Story.bare (Start "noise_white")); [|reflexivity].
    by apply reach_init. }
  destruct (proj2 (start_registered_outcome Story.failed "noise_white"
                     (heap Story.failed !!! 0)
                     (failure "Failed to start stream")
                     (snd (start_stream "noise_white" Story.failed))
                     Hr eq_refl eq_refl) eq_refl)
    as (r' & Hl & [(Hres & _) | (_ & Hst & _)]).
  - discriminate Hres.
  - exists r'. split; [exact Hl | exact Hst].
Defined.

(** ** A backend on which every start succeeds *)







(** ** Only configured types are registered *)

Lemma configured_same s s' :
  self s' = self s -> configured s -> configured s'.
Proof. intros E H k a. rewrite E. apply H. Qed.

Lemma configured_bind s s' n :
  self s' = bind_stream ("noise_" +:+ n) (length (heap s)) (self s) ->
  Py.contains n (noise_types (self s)) = true ->
  configured s -> configured s'.
Proof.
  intros E Hn H k a. rewrite E. simpl. rewrite dict_get_set.
  destruct (String.eqb_spec ("noise_" +:+ n) k) as [<-|Hne]; [eauto|]. apply H.
Qed.

Lemma configured_start_stream stream_id s res s' :
  configured s -> start_stream stream_id s = (res, s') -> configured s'.
Proof.
  intros Hc. rewrite start_stream_eq.
  destruct (Dict.get _ _) as [a|] eqn:Hg.
  { intros Hs. apply start_record_self in Hs. by eapply configured_same. }
  destruct (Py.startswith _ _) eqn:Hp; simpl; [|by intros [= <- <-]].
  destruct (Py.contains _ _) eqn:Hn; simpl; [|by intros [= <- <-]].
  destruct (w_mkdir _ _); [by intros [= <- <-]|].
  intros Hs. apply start_record_self in Hs. simpl in Hs.
  eapply (configured_bind s s' (Py.removeprefix "noise_" stream_id)); [|done..].
  rewrite Hs. unfold bind_stream. by rewrite <- (startswith_split _ _ Hp).
Qed.

Lemma configured_start_all_body noise acc s res s' :
  Py.contains noise (noise_types (self s)) = true ->
  configured s -> start_all_body noise acc s = (res, s') -> configured s'.
Proof.
  intros Hn Hc. destruct acc as [[results started] failed].
  rewrite start_all_body_eq.
  destruct (live_stream s noise); [by intros [= <- <-]|].
  destruct (w_mkdir _ _); [by intros [= <- <-]|]. cbv zeta.
  destruct (spawn _ _) as [[[]|e] s1] eqn:Es; intros [= <- <-];
    apply spawn_self in Es; simpl in Es.
  - by eapply configured_bind.
  - by eapply configured_bind.
  - by eapply configured_same.
Qed.

Lemma configured_start_all_loop noises acc s res s' :
  (forall n, n ∈ noises -> Py.contains n (noise_types (self s)) = true) ->
  configured s -> start_all_loop noises acc s = (res, s') -> configured s'.
Proof.
  revert acc s. induction noises as [|noise rest IH]; intros acc s Hn Hc; simpl.
  - by intros [= <- <-].
  - unfold bind. destruct (start_all_body noise acc s) as [[acc'|e] s1] eqn:Eb.
    + apply IH.
      * intros n Hin. destruct (start_all_body_config _ _ _ _ _ Eb) as [-> _].
        apply Hn. by right.
      * eapply configured_start_all_body; [|done..]. apply Hn. left.
    + intros [= <- <-]. eapply configured_start_all_body; [|done..].
      apply Hn. left.
Qed.

Lemma configured_run_op o s res s' :
  configured s -> run_op o s = (res, s') -> configured s'.
Proof.
  intros Hc. destruct o; unfold run_op, forget, bind.
  - destruct (start_all_streams s) as [r s1] eqn:E.
    intros Hop. assert (s1 = s') as -> by (destruct r; by injection Hop).
    unfold start_all_streams, bind at 1, the_manager in E. cbv beta iota in E.
    unfold bind in E.
    destruct (start_all_loop _ _ s) as [[[[results started] failed]|e] s2] eqn:El;
      injection E as _ <-; (eapply configured_start_all_loop; [|done..]);
      intros n Hn; by apply contains_elem.
  - destruct (stop_all_streams s) as [[v|e] s1] eqn:E; intros [= <- <-];
      apply stop_all_self in E; by eapply configured_same.
  - destruct (start_stream stream_id s) as [[v|e] s1] eqn:E; intros [= <- <-];
      by eapply configured_start_stream.
  - destruct (stop_stream stream_id s) as [[v|e] s1] eqn:E; intros [= <- <-];
      apply stop_stream_self in E; by eapply configured_same.
  - by intros [= <- <-].
  - by intros [= <- <-].
  - by intros [= <- <-].
  - by intros [= <- <-].
Qed.

(** No operation changes the configuration of the manager. *)
Lemma run_op_config o s res s' :
  run_op o s = (res, s') ->
  noise_types (self s') = noise_types (self s) /\
  base_hls_dir (self s') = base_hls_dir (self s).
Proof.
  intros Hop. destruct o; unfold run_op, forget, bind in Hop.
  - destruct (start_all_streams s) as [r s1] eqn:E.
    assert (s1 = s') as -> by (destruct r; by injection Hop).
    unfold start_all_streams, bind at 1, the_manager in E. cbv beta iota in E.
    unfold bind in E.
    assert (forall l acc s r s1,
               start_all_loop l acc s = (r, s1) ->
               noise_types (self s1) = noise_types (self s) /\
               base_hls_dir (self s1) = base_hls_dir (self s)) as Hloop.
    { clear. induction l as [|n l IHl]; intros acc s r s1; simpl.
      - by intros [= _ <-].
      - unfold bind. destruct (start_all_body n acc s) as [[acc'|e'] s2] eqn:Eb;
          destruct (start_all_body_config _ _ _ _ _ Eb) as [<- <-].
        + apply IHl.
        + by intros [= _ <-]. }
    destruct (start_all_loop _ _ s) as [[[[results started] failed]|e] s2] eqn:El;
      injection E as _ <-; by eapply Hloop.
  - destruct (stop_all_streams s) as [[v|e] s1] eqn:E; injection Hop as _ <-;
      apply stop_all_self in E; by rewrite E.
  - destruct (start_stream stream_id s) as [r s1] eqn:E.
    assert (s1 = s') as -> by (destruct r; by injection Hop).
    rewrite start_stream_eq in E. repeat case_match; simplify_eq; try done;
      match goal with H : start_record _ _ _ = _ |- _ =>
        apply start_record_self in H; by rewrite H end.
  - destruct (stop_stream stream_id s) as [[v|e] s1] eqn:E; injection Hop as _ <-;
      apply stop_stream_self in E; by rewrite E.
  - by injection Hop as _ <-.
  - by injection Hop as _ <-.
  - by injection Hop as _ <-.
  - by injection Hop as _ <-.
Qed.

Lemma reachable_configured s : reachable s -> configured s.
Proof.
  induction 1 as [w base noises Hw | s s' _ IH Hstep | s o res s' _ IH Hop].
  - intros k a. done.
  - destruct Hstep. by eapply configured_same.
  - by eapply configured_run_op.
Qed.

Lemma registered_type s k a :
  reachable s -> Dict.get k (_streams (self s)) = Some a ->
  k = "noise_" +:+ StreamInfo.noise_type (heap s !!! a) /\
  StreamInfo.noise_type (heap s !!! a) ∈ noise_types (self s).
Proof.
  intros Hs Hg.
  destruct (wf_rec _ _ (reachable_wf _ Hs) _ _ Hg) as [_ Hk _ _ _ _ _ _].
  destruct (reachable_configured _ Hs _ _ Hg) as (n & Hkn & Hin).
  assert (StreamInfo.noise_type (heap s !!! a) = n) as ->.
  { rewrite Hk in Hkn. by apply noise_id_inj in Hkn. }
  split; [done|]. by apply contains_elem in Hin.
Qed.

(** X12. No operation, whether it returns or raises, and no step of the
    environment changes the noise types and the base directory that the
    manager was constructed with; and in every reachable system every
    registered identifier is "noise_" followed by one of these types, which
    is the noise type of the record bound to it: nothing else is ever
    registered. *)
Theorem only_configured_streams s :
  reachable s ->
  (forall s',
      (exists o res, run_op o s = (res, s')) \/ env_step s s' ->
      noise_types (self s') = noise_types (self s) /\
      base_hls_dir (self s') = base_hls_dir (self s)) /\
  (forall k r,
      lookup_record s k = Some r ->
      k = "noise_" +:+ StreamInfo.noise_type r /\
      StreamInfo.noise_type r ∈ noise_types (self s)).
Proof.
  intros Hs. split.
  - intros s' [(o & res & Hop) | Henv].
    + by eapply run_op_config.
    + by destruct Henv.
  - intros k r Hr. apply lookup_record_Some in Hr as (a & Hg & ->).
    by apply registered_type.
Qed.

Lemma only_configured_streams_witness :
  "noise_white" = "noise_" +:+ StreamInfo.noise_type (heap Story.started !!! 0).
Proof.
  assert (reachable Story.started) as Hr.
  { eapply (reach_op Story.fresh (Start "noise_white")); [|reflexivity].
    by apply reach_init. }
  exact (proj1 (proj2 (only_configured_streams Story.started Hr) "noise_white"
                  (heap Story.started !!! 0) eq_refl)).
Defined.

(** ** config.py *)

Section config.

Variable getenv : string -> option string.
Variable int : string -> option Z.

(** X13. Whatever the environment holds and whatever [int] makes of it,
    [_get_int_env] never returns a value below [min_val] when the default is
    not below it, and it returns the environment's value exactly when that
    value parses to a number not below [min_val]; so the three numeric
    fields of the FFmpeg configuration always respect their minimum. *)
Theorem int_env_bounds :
  (forall name default min_val,
     (min_val <= default)%Z ->
     (min_val <= Config._get_int_env getenv int name default min_val)%Z) /\
  (forall name default min_val value result,
     getenv name = Some value -> int value = Some result ->
     (min_val <= result)%Z ->
     Config._get_int_env getenv int name default min_val = result) /\
  (forall name default min_val,
     Config._get_int_env getenv int name default min_val <> default ->
     exists value,
       getenv name = Some value /\
       int value = Some (Config._get_int_env getenv int name default min_val)) /\
  (8000 <= Config.sample_rate (Config.FFmpegConfig_default getenv int))%Z /\
  (1 <= Config.segment_time (Config.FFmpegConfig_default getenv int))%Z /\
  (1 <= Config.list_size (Config.FFmpegConfig_default getenv int))%Z.
Proof.
  assert (forall name default min_val,
     (min_val <= default)%Z ->
     (min_val <= Config._get_int_env getenv int name default min_val)%Z) as Hb.
  { intros name default min_val Hd. unfold Config._get_int_env.
    destruct (getenv name) as [value|]; [|done].
    destruct (int value) as [result|]; [|done].
    destruct (Z.ltb_spec result min_val); lia. }
  split; [exact Hb|]. split; [|split].
  - intros name default min_val value result Hg Hi Hr.
    unfold Config._get_int_env. rewrite Hg, Hi.
    destruct (Z.ltb_spec result min_val); [lia|done].
  - intros name default min_val. unfold Config._get_int_env.
    destruct (getenv name) as [value|] eqn:Hg; [|done].
    destruct (int value) as [result|] eqn:Hi; [|done].
    destruct (Z.ltb_spec result min_val); [done|]. intros _. by exists value.
  - simpl. split; [|split]; apply Hb; lia.
Qed.

(** X14. [_get_port_env] returns a valid port (1..65535) whenever the
    default is one, whatever the environment holds; it returns the
    environment's value when that parses to a valid port; and the port of
    the application's configuration is always valid. *)
Theorem port_env_bounds :
  (forall name default,
     (1 <= default <= 65535)%Z ->
     (1 <= Config._get_port_env getenv int name default <= 65535)%Z) /\
  (forall name default value result,
     getenv name = Some value -> int value = Some result ->
     (1 <= result <= 65535)%Z ->
     Config._get_port_env getenv int name default = result) /\
  (forall name default value result,
     getenv name = Some value -> int value = Some result ->
     (result < 1 \/ 65535 < result)%Z ->
     Config._get_port_env getenv int name default = default) /\
  (1 <= Config.port (Config.AppConfig_default getenv int) <= 65535)%Z.
Proof.
  assert (forall name default,
     (1 <= default <= 65535)%Z ->
     (1 <= Config._get_port_env getenv int name default <= 65535)%Z) as Hb.
  { intros name default Hd. unfold Config._get_port_env.
    destruct (getenv name) as [value|]; [|done].
    destruct (int value) as [result|]; [|done].
    destruct (Z.ltb_spec result 1), (Z.ltb_spec 65535 result); simpl; lia. }
  split; [exact Hb|]. split; [|split].
  - intros name default value result Hg Hi Hr.
    unfold Config._get_port_env. rewrite Hg, Hi.
    destruct (Z.ltb_spec result 1), (Z.ltb_spec 65535 result); simpl; done || lia.
  - intros name default value result Hg Hi Hr.
    unfold Config._get_port_env. rewrite Hg, Hi.
    destruct (Z.ltb_spec result 1), (Z.ltb_spec 65535 result); simpl; done || lia.
  - simpl. apply Hb. lia.
Qed.

End config.

Lemma int_env_bounds_witness :
  (8000 <= Config._get_int_env (fun _ => Some "44") (fun _ => Some 44%Z)
             "SAMPLE_RATE" 44100 8000)%Z.
Proof.
  apply (proj1 (int_env_bounds (fun _ => Some "44") (fun _ => Some 44%Z))
           "SAMPLE_RATE" 44100%Z 8000%Z).
  lia.
Defined.

Lemma port_env_bounds_witness :
  (1 <= Config._get_port_env (fun _ => Some "70000") (fun _ => Some 70000%Z)
          "PORT" 8000 <= 65535)%Z.
Proof.
  apply (proj1 (port_env_bounds (fun _ => Some "70000") (fun _ => Some 70000%Z))
           "PORT" 8000%Z).
  lia.
Defined.

(** *** The list of noise types *)

Lemma lstrip_chars c s : c ∈ chars (Config.lstrip s) -> c ∈ chars s.
Proof.
  induction s as [|a s IH]; simpl; [done|].
  destruct (Config.isspace a); [|done]. intros H. right. by apply IH.
Qed.

Lemma rstrip_chars c s : c ∈ chars (Config.rstrip s) -> c ∈ chars s.
Proof.
  induction s as [|a s IH]; simpl; [done|].
  destruct (Config.rstrip s) as [|b r] eqn:E.
  - destruct (Config.isspace a); simpl; [by intros ?%elem_of_nil|].
    intros H. apply list_elem_of_singleton in H as ->. left.
  - simpl. intros H. apply elem_of_cons in H as [->|H]; [left|].
    right. by apply IH.
Qed.

Lemma strip_chars c s : c ∈ chars (Config.strip s) -> c ∈ chars s.
Proof. intros H. by apply rstrip_chars, lstrip_chars. Qed.

Lemma split_nonempty sep s : Config.split sep s <> [].
Proof.
  induction s as [|a s IH]; simpl; [done|].
  destruct (Ascii.eqb a sep); [done|]. by destruct (Config.split sep s).
Qed.

Lemma split_chars sep s piece :
  piece ∈ Config.split sep s -> sep ∉ chars piece.
Proof.
  revert piece. induction s as [|a s IH]; intros piece; simpl.
  - intros H. apply list_elem_of_singleton in H as ->. apply not_elem_of_nil.
  - destruct (Ascii.eqb_spec a sep) as [->|Hne].
    + intros H. apply elem_of_cons in H as [->|H]; [apply not_elem_of_nil|].
      by apply IH.
    + destruct (Config.split sep s) as [|p ps] eqn:E.
      * intros H. apply list_elem_of_singleton in H as ->. simpl.
        intros H. apply list_elem_of_singleton in H. congruence.
      * intros H. apply elem_of_cons in H as [->|H].
        -- simpl. intros H. apply elem_of_cons in H as [H|H]; [congruence|].
           revert H. apply IH. left.
        -- apply IH. by right.
Qed.

Lemma rstrip_idemp s : Config.rstrip (Config.rstrip s) = Config.rstrip s.
Proof.
  induction s as [|a s IH]; simpl; [done|].
  destruct (Config.rstrip s) as [|b r] eqn:E.
  - destruct (Config.isspace a) eqn:Ha; simpl; [done|]. by rewrite Ha.
  - simpl. simpl in IH. by rewrite IH.
Qed.

Lemma lstrip_idemp s : Config.lstrip (Config.lstrip s) = Config.lstrip s.
Proof.
  induction s as [|a s IH]; simpl; [done|].
  destruct (Config.isspace a) eqn:Ha; [done|]. simpl. by rewrite Ha.
Qed.

Lemma rstrip_lstrip s :
  Config.rstrip s = s -> Config.rstrip (Config.lstrip s) = Config.lstrip s.
Proof.
  induction s as [|a s IH]; [done|]. intros H. simpl.
  destruct (Config.isspace a) eqn:Ha; [|exact H].
  apply IH. simpl in H. rewrite Ha in H.
  destruct (Config.rstrip s) as [|b r]; [done|]. by injection H.
Qed.

Lemma strip_idemp s : Config.strip (Config.strip s) = Config.strip s.
Proof.
  unfold Config.strip.
  rewrite (rstrip_lstrip (Config.rstrip s)) by apply rstrip_idemp.
  apply lstrip_idemp.
Qed.

(** The pieces of [split] joined with the separator give the string back. *)
Lemma join_split sep s : join sep (Config.split sep s) = s.
Proof.
  induction s as [|a s IH]; [done|]. simpl.
  destruct (Ascii.eqb_spec a sep) as [->|Hne].
  - pose proof (split_nonempty sep s).
    simpl. destruct (Config.split sep s) as [|p ps]; [done|]. by rewrite IH.
  - pose proof (split_nonempty sep s).
    destruct (Config.split sep s) as [|p ps]; [done|].
    simpl in *. destruct ps; rewrite ?append_cons; by rewrite IH.
Qed.

(** X15. Every noise type that [AppConfig] parses out of NOISE_TYPES is not
    empty, holds no comma, has no white space at either end (it is a fixed
    point of [strip]) and consists of characters of the given value; a
    value without commas or surrounding white space is the one element of
    the list; and the pieces the value is split into, joined by commas, are
    the value again. *)
Theorem parsed_noise_types value :
  (forall n, n ∈ Config.parse_noise_types value ->
     n <> "" /\ (("," : ascii) ∉ chars n) /\ Config.strip n = n /\
     forall c, c ∈ chars n -> c ∈ chars value) /\
  (value <> "" -> ("," : ascii) ∉ chars value -> Config.strip value = value ->
   Config.parse_noise_types value = [value]) /\
  join "," (Config.split "," value) = value.
Proof.
  split; [|split].
  - intros n Hn. unfold Config.parse_noise_types in Hn.
    apply list_elem_of_fmap in Hn as (piece & -> & Hp).
    apply list_elem_of_In, filter_In in Hp as [Hp Hne].
    apply list_elem_of_In in Hp.
    split; [|split; [|split]].
    + intros E. rewrite E in Hne. done.
    + intros Hc. apply strip_chars in Hc. by apply (split_chars _ _ _ Hp).
    + apply strip_idemp.
    + intros c Hc. apply strip_chars in Hc.
      rewrite <- (join_split "," value).
      clear Hne. revert Hp Hc. generalize (Config.split "," value).
      intros l Hp Hc. induction l as [|p [|q l] IH].
      * by apply elem_of_nil in Hp.
      * apply list_elem_of_singleton in Hp as ->. done.
      * change (join "," (p :: q :: l)) with (p +:+ String "," (join "," (q :: l))).
        unfold chars in *. 
        assert (forall a b, list_ascii_of_string (a +:+ b)
                  = list_ascii_of_string a ++ list_ascii_of_string b) as Happ.
        { intros a b. induction a as [|x a IHa]; [done|].
          rewrite append_cons. simpl. by rewrite IHa. }
        rewrite Happ. apply elem_of_app.
        apply elem_of_cons in Hp as [->|Hp]; [by left|].
        right. simpl. right. by apply IH.
  - intros Hne Hc Hs. unfold Config.parse_noise_types.
    assert (Config.split "," value = [value]) as ->.
    { clear Hne Hs. induction value as [|a v IH]; [done|]. simpl.
      destruct (Ascii.eqb_spec a ",") as [->|Ha].
      - exfalso. apply Hc. left.
      - rewrite IH; [done|]. intros H. apply Hc. by right. }
    simpl. rewrite Hs.
    destruct (String.eqb_spec value ""); [done|]. simpl. by rewrite Hs.
  - apply join_split.
Qed.

Lemma parsed_noise_types_witness :
  Config.parse_noise_types "white" = ["white"].
Proof.
  apply (proj1 (proj2 (parsed_noise_types "white"))).
  - discriminate.
  - vm_compute. intros H. 
    repeat (apply elem_of_cons in H as [H|H]; [discriminate H|]).
    by apply elem_of_nil in H.
  - reflexivity.
Defined.

(** ** app.py: the endpoints of single streams *)

Lemma find_health_dict w (h : list StreamInfo.t) stream_id (d : list (string * addr)) :
  (forall k a, (k, a) ∈ d -> StreamInfo.stream_id (h !!! a) = k) ->
  Api.find_health stream_id
    (map (StreamInfo.health_check w) (map (fun a => h !!! a) (Dict.values d)))
  = option_map (fun a => StreamInfo.health_check w (h !!! a)) (Dict.get stream_id d).
Proof.
  induction d as [|[k a] d IH]; intros Hid; simpl; [done|].
  rewrite health_stream_id, (Hid k a) by left.
  destruct (String.eqb k stream_id); [done|].
  apply IH. intros k' a' Hin. apply Hid. by right.
Qed.

Lemma start_stream_success b stream_id s res s' :
  wf b s ->
  NoiseStreamManager.start_stream stream_id s = (Ok res, s') ->
  success res = true ->
  exists r, lookup_record s' stream_id = Some r /\
            live (world s') r = true /\
            (StreamInfo.state r = RUNNING \/
             (b = false /\ StreamInfo.state r = STARTING /\ s' = s)).
Proof.
  intros Hwf Hs Hok. pose proof Hs as Hs0. rewrite start_stream_eq in Hs.
  destruct (Dict.get stream_id (_streams (self s))) as [a|] eqn:Hg.
  - apply start_record_post in Hs as [Hself Hpost]; [|by eapply wf_alloc].
    exists (heap s' !!! a). split.
    { unfold lookup_record. by rewrite Hself, Hg. }
    destruct Hpost as [(Hl & -> & ->) | [(_ & ? & ? & _) | (_ & _ & _ & _ & ->)]];
      [|by auto|discriminate Hok].
    split; [done|].
    destruct (wf_rec _ _ Hwf _ _ Hg) as [_ _ _ _ Hlive _ _ Hq].
    destruct (Hlive Hl) as [?|Hst]; [by left|].
    destruct b; [|by right]. destruct (Hq eq_refl) as [Hns _]. done.
  - destruct (Py.startswith "noise_" stream_id) eqn:Hp; simpl in Hs;
      [|injection Hs as <- <-; discriminate Hok].
    destruct (Py.contains _ _) eqn:Hn; simpl in Hs;
      [|injection Hs as <- <-; discriminate Hok].
    clear Hs. rewrite (startswith_split _ _ Hp) in Hs0 |- *.
    destruct (start_stream_post _ _ _ _ _ Hwf Hn Hs0) as (r & Hr & Hpost).
    exists r. split; [done|].
    destruct Hpost as [(? & _ & [?|(? & ? & ? & _)]) | (_ & _ & _ & ->)];
      [by auto|by auto|discriminate Hok].
Qed.

(** X16. The stop endpoint answers 404 "Stream not found" exactly for an
    identifier that is not registered; for a registered one it returns the
    manager's result, "Stream stopped" if the process was live and "Stream
    was not running" otherwise, and leaves the registry as it was.  It
    never answers 500 and no exception leaves it. *)
Theorem stop_endpoint stream_id s :
  match lookup_record s stream_id with
  | None =>
      Api.stop_stream stream_id s = (Api.HTTPException 404 "Stream not found", s)
  | Some r =>
      exists s',
        Api.stop_stream stream_id s
        = (Api.Json (done_with (if live (world s) r then "Stream stopped"
                                else "Stream was not running") None), s') /\
        self s' = self s /\
        (live (world s) r = false -> s' = s)
  end.
Proof.
  unfold lookup_record, Api.stop_stream. rewrite stop_stream_eq.
  destruct (Dict.get stream_id (_streams (self s))) as [a|]; [|done].
  destruct (live (world s) (heap s !!! a)); [|by exists s].
  destruct (NoiseFFmpegRunner.stop _ _) as [[ok w'] r']. simpl.
  eexists. split; [reflexivity|]. done.
Qed.

Section start.

Variable str : Py.exn -> string.

(** X17. The start endpoint never lets an exception out.  It answers 404
    exactly when the identifier is neither registered nor of the form
    "noise_...", 500 "Invalid noise type" for an unregistered "noise_..."
    identifier of a type that is not configured, 500 with the exception's
    text when the manager raises, and every other error is a 500.  A JSON
    body is the manager's successful result; in a reachable system the
    stream is then registered and has a live process, and it is RUNNING if
    the operations before have all returned, while after one that raised
    it can be a record found and left in STARTING. *)
Theorem start_endpoint stream_id s resp s' :
  Api.start_stream str stream_id s = (resp, s') ->
  (forall e, resp <> Api.Propagates e) /\
  (resp = Api.HTTPException 404 "Stream not found" <->
   lookup_record s stream_id = None /\ Py.startswith "noise_" stream_id = false) /\
  (forall code detail,
     resp = Api.HTTPException code detail -> code = 404 \/ code = 500) /\
  (lookup_record s stream_id = None ->
   Py.startswith "noise_" stream_id = true ->
   Py.contains (Py.removeprefix "noise_" stream_id) (noise_types (self s)) = false ->
   resp = Api.HTTPException 500 "Invalid noise type" /\ s' = s) /\
  (forall e,
     NoiseStreamManager.start_stream stream_id s = (Raise e, s') ->
     resp = Api.HTTPException 500 ("Error starting stream: " +:+ str e)) /\
  (forall res,
     resp = Api.Json res ->
     NoiseStreamManager.start_stream stream_id s = (Ok res, s') /\
     success res = true /\
     (reachable s ->
      exists r, lookup_record s' stream_id = Some r /\
                live (world s') r = true /\
                (StreamInfo.state r = RUNNING \/
                 (StreamInfo.state r = STARTING /\ s' = s))) /\
     (completed s ->
      exists r, lookup_record s' stream_id = Some r /\
                live (world s') r = true /\ StreamInfo.state r = RUNNING)).
Proof.
  unfold Api.start_stream.
  destruct (NoiseStreamManager.start_stream stream_id s) as [[res|e] s1] eqn:Hs.
  - destruct (success res) eqn:Hok; simpl.
    + intros [= <- <-]. split; [done|]. split; [|split; [done|]].
      { split; [done|]. intros [Hl Hp]. exfalso.
        unfold lookup_record in Hl. rewrite start_stream_eq in Hs.
        destruct (Dict.get _ _); [done|]. rewrite Hp in Hs. simpl in Hs.
        injection Hs as <- <-. discriminate Hok. }
      split.
      { intros Hl Hp Hn. exfalso.
        unfold lookup_record in Hl. rewrite start_stream_eq in Hs.
        destruct (Dict.get _ _); [done|]. rewrite Hp, Hn in Hs. simpl in Hs.
        injection Hs as <- <-. discriminate Hok. }
      split; [done|].
      intros res' [= <-]. split; [done|]. split; [done|]. split.
      * intros Hr. apply reachable_wf in Hr.
        destruct (start_stream_success _ _ _ _ _ Hr Hs Hok) as (r & ? & ? & Hst).
        exists r. split; [done|]. split; [done|].
        destruct Hst as [?|(_ & ? & ?)]; auto.
      * intros Hr. apply completed_wf in Hr.
        destruct (start_stream_success _ _ _ _ _ Hr Hs Hok) as (r & ? & ? & Hst).
        exists r. split; [done|]. split; [done|].
        by destruct Hst as [?|(? & _)].
    + assert (Api.is_error res "Stream not found" = true <->
              lookup_record s stream_id = None /\
              Py.startswith "noise_" stream_id = false) as Hnf.
      { unfold lookup_record. rewrite start_stream_eq in Hs.
        destruct (Dict.get stream_id (_streams (self s))) as [a|].
        - split; [|by intros [? _]]. intros He. exfalso.
          rewrite start_record_eq in Hs. destruct (live _ _).
          { injection Hs as <- <-. discriminate Hok. }
          destruct (spawn a s) as [[[]|e] s2]; simplify_eq; try discriminate;
            vm_compute in He; discriminate.
        - destruct (Py.startswith "noise_" stream_id); simpl in Hs.
          + split; [|by intros [_ ?]]. intros He. exfalso.
            destruct (Py.contains _ _); simpl in Hs.
            * destruct (w_mkdir _ _); [done|].
              rewrite start_record_eq in Hs. destruct (live _ _).
              { injection Hs as <- <-. discriminate Hok. }
              destruct (spawn _ _) as [[[]|e] s2]; simplify_eq; try discriminate;
                vm_compute in He; discriminate.
            * injection Hs as <- <-. vm_compute in He. discriminate.
          + injection Hs as <- <-. done. }
      destruct (Api.is_error res "Stream not found") eqn:He; intros [= <- <-].
      * split; [done|]. split; [by rewrite <- Hnf|].
        split; [intros ?? [= <- _]; by left|].
        split; [intros Hl Hp _; destruct (proj1 Hnf eq_refl); congruence|].
        split; [done|]. done.
      * split; [done|]. split.
        { split; [done|]. intros H. apply Hnf in H. done. }
        split; [intros ?? [= <- _]; by right|].
        split; [|split; done].
        intros Hl Hp Hn. unfold lookup_record in Hl. rewrite start_stream_eq in Hs.
        destruct (Dict.get _ _); [done|]. rewrite Hp, Hn in Hs. simpl in Hs.
        by injection Hs as <- <-.
  - intros [= <- <-]. split; [done|]. split.
    { split; [done|]. intros [Hl Hp]. exfalso.
      unfold lookup_record in Hl. rewrite start_stream_eq in Hs.
      destruct (Dict.get _ _); [done|]. rewrite Hp in Hs. done. }
    split; [intros ?? [= <- _]; by right|].
    split.
    { intros Hl Hp Hn. exfalso.
      unfold lookup_record in Hl. rewrite start_stream_eq in Hs.
      destruct (Dict.get _ _); [done|]. rewrite Hp, Hn in Hs. done. }
    split; [by intros e' [= <-]|done].
Qed.

End start.

Lemma start_endpoint_witness :
  fst (Api.start_stream (fun _ => "boom") "noise_green" Story.fresh)
  = Api.HTTPException 500 "Invalid noise type" /\
  snd (Api.start_stream (fun _ => "boom") "noise_green" Story.fresh) = Story.fresh.
Proof.
  apply (proj1 (proj2 (proj2 (proj2
    (start_endpoint (fun _ => "boom") "noise_green" Story.fresh _ _
       (surjective_pairing _)))))).
  - reflexivity.
  - reflexivity.
  - reflexivity.
Defined.

(** X18. In a reachable system the two read endpoints of a stream agree
    with the registry.  [GET /stream/{id}] returns the dict of the record
    bound to the identifier, and 404 when there is none.
    [GET /stream/{id}/health], whenever no exception of the health check
    leaves it, answers for a registered identifier the health report of
    that same record, whose [stream_id] is the identifier asked for, and
    404 for any other identifier.  Neither changes the system. *)
Theorem read_endpoints stream_id s :
  reachable s ->
  match lookup_record s stream_id with
  | Some r =>
      Api.get_stream_info stream_id s
      = (Api.Json (StreamInfo.to_dict (world s) r), s)
  | None =>
      Api.get_stream_info stream_id s
      = (Api.HTTPException 404 "Stream not found", s)
  end /\
  (forall resp s',
      Api.get_stream_health stream_id s = (resp, s') ->
      (forall e, resp <> Api.Propagates e) ->
      s' = s /\
      match lookup_record s stream_id with
      | Some r =>
          resp = Api.Json (StreamInfo.health_check (world s) r) /\
          StreamInfo.h_stream_id (StreamInfo.health_check (world s) r) = stream_id
      | None => resp = Api.HTTPException 404 "Stream not found"
      end).
Proof.
  intros Hr. apply reachable_wf in Hr as Hwf.
  assert (Api.find_health stream_id
            (map (StreamInfo.health_check (world s)) (records s))
          = option_map (StreamInfo.health_check (world s))
              (lookup_record s stream_id)) as Hf.
  { unfold records, lookup_record. rewrite find_health_dict.
    - by destruct (Dict.get _ _).
    - intros k a Hin. apply dict_elem_get in Hin; [|by apply wf_keys with false].
      by destruct (wf_rec _ _ Hwf _ _ Hin). }
  split.
  - unfold Api.get_stream_info, get_stream, streams_get, lookup_record.
    by destruct (Dict.get stream_id (_streams (self s))).
  - intros resp s'.
    unfold Api.get_stream_health, health_check. cbv beta iota. simpl hs_streams.
    rewrite Hf. unfold lookup_record in *.
    destruct (Dict.get stream_id (_streams (self s))) as [a|] eqn:Hg; simpl;
      intros [= <- <-] _; [|done].
    split; [done|]. split; [done|]. rewrite health_stream_id.
    by destruct (wf_rec _ _ Hwf _ _ Hg).
Qed.

Lemma read_endpoints_witness :
  StreamInfo.h_stream_id
    (StreamInfo.health_check (world Story.started) (heap Story.started !!! 0))
  = "noise_white".
Proof.
  assert (reachable Story.started) as Hr.
  { eapply (reach_op Story.fresh (Start "noise_white")); [|reflexivity].
    by apply reach_init. }
  assert (forall e : Py.exn,
             Api.Json (StreamInfo.health_check (world Story.started)
                         (heap Story.started !!! 0))
             <> Api.Propagates e) as Hn by (intros e H; discriminate H).
  exact (proj2 (proj2 (proj2 (read_endpoints "noise_white" Story.started Hr)
                         (Api.Json (StreamInfo.health_check (world Story.started)
                                      (heap Story.started !!! 0)))
                         Story.started eq_refl Hn))).
Defined.

(** ** The dict of a registered stream *)

(** X20. In a reachable system the dict that [to_dict] makes of the record
    registered as [k] carries [k] as its [stream_id] and the type named in
    [k]; its [running] flag is the liveness of the record's process; a
    running stream has the pid of a live process and is in state "running"
    or, after an operation that raised, "starting"; a stream that is not
    running has no pid; and its URL is that of [k].  When the operations
    have all returned, a running stream is in state "running". *)
Theorem dict_of_registered s k r :
  reachable s -> lookup_record s k = Some r ->
  let d := StreamInfo.to_dict (world s) r in
  StreamInfo.d_stream_id d = k /\
  k = "noise_" +:+ StreamInfo.d_noise_type d /\
  StreamInfo.d_running d = live (world s) r /\
  (StreamInfo.d_running d = true ->
   (StreamInfo.d_state d = "running" \/ StreamInfo.d_state d = "starting") /\
   exists p, StreamInfo.d_pid d = Some p /\ alive (world s) p = true) /\
  (StreamInfo.d_running d = false -> StreamInfo.d_pid d = None) /\
  StreamInfo.d_stream_url d = Some ("/hls/" +:+ k +:+ "/stream.m3u8") /\
  (completed s -> StreamInfo.d_running d = true -> StreamInfo.d_state d = "running").
Proof.
  intros Hs Hr. apply lookup_record_Some in Hr as (a & Hg & ->).
  pose proof (reachable_wf _ Hs) as Hwf.
  destruct (wf_rec _ _ Hwf _ _ Hg) as [Hid Hk _ Hpath Hlive _ _ _].
  cbv zeta. unfold StreamInfo.to_dict. simpl.
  rewrite get_status_running, Hid, Hpath.
  split; [done|]. split; [done|]. split; [done|]. split; [|split; [|split]].
  - intros Hl. split.
    + destruct (Hlive Hl) as [-> | ->]; [by left | by right].
    + apply live_Some in Hl as (p & Hp & Hal). exists p. split; [|done].
      unfold NoiseFFmpegRunner.get_status. by rewrite Hp, Hal.
  - unfold NoiseFFmpegRunner.get_status, NoiseFFmpegRunner.is_running.
    destruct (NoiseFFmpegRunner._process _) as [p|]; [|done].
    by intros ->.
  - replace (Py.truthy _) with true; [done|].
    unfold Py.truthy. symmetry. apply negb_true_iff, String.eqb_neq.
    destruct (base_hls_dir (self s)); [rewrite ?append_cons|]; discriminate.
  - intros Hc Hl. apply completed_wf in Hc.
    destruct (wf_rec _ _ Hc _ _ Hg) as [_ _ _ _ Hlive' _ _ Hq].
    destruct (Hq eq_refl) as [Hns _].
    destruct (Hlive' Hl) as [-> | ?]; done.
Qed.

Lemma dict_of_registered_witness :
  StreamInfo.d_stream_id
    (StreamInfo.to_dict (world Story.started) (heap Story.started !!! 0))
  = "noise_white".
Proof.
  assert (reachable Story.started) as Hr.
  { eapply (reach_op Story.fresh (Start "noise_white")); [|reflexivity].
    by apply reach_init. }
  exact (proj1 (dict_of_registered Story.started "noise_white"
                  (heap Story.started !!! 0) Hr eq_refl)).
Defined.
